(** * Hopalong orbit visualiser: a model of [src/hopalong.ts]

    The development embeds the numeric core of the [Hopalong] class (orbit
    generation, parameter selection, the per-frame level cycler, the query
    for the current parameters and the settings mutators) and proves or
    refutes the specification's claims about it.

    Numbers.  A JavaScript [number] is modelled as a real number or one of
    the three non-finite values.  Rounding, overflow and the sign of zero
    are left out: finite arithmetic is exact, and a division of a non-zero
    finite value by zero yields the infinity with the sign of the
    numerator.

    Environment.  The values returned by [Math.random] are given by a
    function of the number of the call, and the object counts its calls;
    [Date.now()] is an argument of the methods that read the clock.  What
    the module imports from files that are not at hand ([best_frames.json],
    [util/defaults], [util/color]) and the engine's [Array.prototype.sort]
    are parameters.  The renderer, the scene, the DOM and the settings
    listener are left out: they do not act on the fields modelled here.

    Effects.  A method is a function from the object to the object it
    leaves, together with how the call ends when a [TypeError] can be
    thrown. *)

From Stdlib Require Import Reals Lra Lia ZArith List Bool.
From Stdlib Require Import Permutation Sorted.
From Stdlib Require String Ascii.
Import String.StringSyntax.
Delimit Scope string_scope with str.
Import ListNotations.

Open Scope R_scope.

(** ** JavaScript numbers *)

Inductive number : Type :=
| Fin (r : R)
| PInf
| NInf
| NaN.

Definition Rltb (x y : R) : bool := if Rlt_dec x y then true else false.
Definition Rleb (x y : R) : bool := if Rle_dec x y then true else false.
Definition Reqb (x y : R) : bool := if Req_dec_T x y then true else false.

Module Num.

Definition isFinite (n : number) : bool :=
  match n with Fin _ => true | _ => false end.

(** [-n] *)
Definition neg (n : number) : number :=
  match n with
  | Fin r => Fin (- r)
  | PInf => NInf
  | NInf => PInf
  | NaN => NaN
  end.

(** [m + n] *)
Definition add (m n : number) : number :=
  match m, n with
  | NaN, _ | _, NaN => NaN
  | Fin x, Fin y => Fin (x + y)
  | PInf, NInf | NInf, PInf => NaN
  | PInf, _ | _, PInf => PInf
  | NInf, _ | _, NInf => NInf
  end.

(** [m - n] *)
Definition sub (m n : number) : number := add m (neg n).

(** The sign of a finite value or of an infinity. *)
Inductive sign : Type := Neg | Zero | Pos.

Definition sign_of (r : R) : sign :=
  if Rlt_dec r 0 then Neg else if Rlt_dec 0 r then Pos else Zero.

Definition inf_of (s : sign) : number :=
  match s with Neg => NInf | Zero => NaN | Pos => PInf end.

Definition flip (s : sign) : sign :=
  match s with Neg => Pos | Zero => Zero | Pos => Neg end.

(** [m * n]: an infinity times zero is [NaN]. *)
Definition mul (m n : number) : number :=
  match m, n with
  | NaN, _ | _, NaN => NaN
  | Fin x, Fin y => Fin (x * y)
  | PInf, Fin y | Fin y, PInf => inf_of (sign_of y)
  | NInf, Fin y | Fin y, NInf => inf_of (flip (sign_of y))
  | PInf, PInf | NInf, NInf => PInf
  | PInf, NInf | NInf, PInf => NInf
  end.

(** [m / n]: a finite non-zero value over zero is an infinity, zero over
    zero and infinity over infinity are [NaN]. *)
Definition div (m n : number) : number :=
  match m, n with
  | NaN, _ | _, NaN => NaN
  | Fin x, Fin y =>
      if Req_dec_T y 0 then inf_of (sign_of x) else Fin (x / y)
  | Fin _, PInf | Fin _, NInf => Fin 0
  | PInf, Fin y => match sign_of y with Neg => NInf | _ => PInf end
  | NInf, Fin y => match sign_of y with Neg => PInf | _ => NInf end
  | _, _ => NaN
  end.

(** [Math.abs] *)
Definition abs (n : number) : number :=
  match n with
  | Fin r => Fin (Rabs r)
  | PInf | NInf => PInf
  | NaN => NaN
  end.

(** [Math.sqrt] *)
Definition sqrt (n : number) : number :=
  match n with
  | Fin r => if Rlt_dec r 0 then NaN else Fin (R_sqrt.sqrt r)
  | PInf => PInf
  | NInf | NaN => NaN
  end.

(** [Math.log] *)
Definition log (n : number) : number :=
  match n with
  | Fin r =>
      if Rlt_dec r 0 then NaN
      else if Rlt_dec 0 r then Fin (ln r) else NInf
  | PInf => PInf
  | NInf | NaN => NaN
  end.

(** [m < n]; every comparison with [NaN] is false. *)
Definition lt (m n : number) : bool :=
  match m, n with
  | NaN, _ | _, NaN => false
  | Fin x, Fin y => Rltb x y
  | NInf, NInf | PInf, _ | _, NInf => false
  | NInf, _ | _, PInf => true
  end.

(** [m > n] *)
Definition gt (m n : number) : bool := lt n m.

(** [m <= n] *)
Definition le (m n : number) : bool :=
  match m, n with
  | NaN, _ | _, NaN => false
  | Fin x, Fin y => Rleb x y
  | NInf, _ | _, PInf => true
  | PInf, _ | _, NInf => false
  end.

(** [m >= n] *)
Definition ge (m n : number) : bool := le n m.

(** [m == n] on numbers *)
Definition eq (m n : number) : bool :=
  match m, n with
  | Fin x, Fin y => Reqb x y
  | PInf, PInf | NInf, NInf => true
  | _, _ => false
  end.

(** [!n]: zero and [NaN] are the falsy numbers. *)
Definition falsy (n : number) : bool :=
  match n with
  | Fin r => Reqb r 0
  | NaN => true
  | PInf | NInf => false
  end.

End Num.

Declare Scope num_scope.
Delimit Scope num_scope with num.
Bind Scope num_scope with number.
Infix "+" := Num.add : num_scope.
Infix "-" := Num.sub : num_scope.
Infix "*" := Num.mul : num_scope.
Infix "/" := Num.div : num_scope.
Infix "<?" := Num.lt (at level 70) : num_scope.
Infix ">?" := Num.gt (at level 70) : num_scope.
Infix ">=?" := Num.ge (at level 70) : num_scope.
Infix "==?" := Num.eq (at level 70) : num_scope.
Notation "- x" := (Num.neg x) : num_scope.

(** ** Constants of the module *)

Definition SCALE_FACTOR : number := Fin 1500.
Definition CAMERA_BOUND : number := Fin 200.
Definition LEVEL_DEPTH : number := Fin 600.

Module constraints.
Record range : Type := { min : number; max : number }.
Definition a : range := {| min := Fin (-30); max := Fin 30 |}.
Definition b : range := {| min := Fin 0.2; max := Fin 1.8 |}.
Definition c : range := {| min := Fin 5; max := Fin 17 |}.
Definition d : range := {| min := Fin 0; max := Fin 10 |}.
Definition e : range := {| min := Fin 0; max := Fin 12 |}.
End constraints.

(** ** Orbit parameters *)

Module OrbitParams.
(** [timeCreated] is absent ([None]) on an object that has no such
    property. *)
Record t : Type := mk {
  a : number;
  b : number;
  c : number;
  d : number;
  e : number;
  choice : number;
  xPreset : number;
  yPreset : number;
  timeCreated : option number
}.

Definition finite (p : t) : Prop :=
  exists ra rb rc rd re rch rx ry,
    a p = Fin ra /\ b p = Fin rb /\ c p = Fin rc /\ d p = Fin rd /\
    e p = Fin re /\ choice p = Fin rch /\ xPreset p = Fin rx /\
    yPreset p = Fin ry.
End OrbitParams.

(** ** The iteration formula of [generateOrbit] (lines 377-393) *)

Section Iteration.
Import OrbitParams.
Local Open Scope num_scope.

(** The three branches on [choice] that compute [z]. *)
Definition iter_z (p : OrbitParams.t) (x : number) : number :=
  if choice p <? Fin 0.5 then
    d p + Num.sqrt (Num.abs (b p * x - c p))
  else if choice p <? Fin 0.75 then
    d p + Num.sqrt (Num.sqrt (Num.abs (b p * x - c p)))
  else
    d p + Num.log (Fin 2 + Num.sqrt (Num.abs (b p * x - c p))).

(** The three branches on the sign of [x] that compute [x1]. *)
Definition iter_x1 (x y z : number) : number :=
  if x >? Fin 0 then y - z
  else if x ==? Fin 0 then y
  else y + z.

(** One pass through the loop body up to the assignment of [x]:
    the new [(x, y)]. *)
Definition iterate (p : OrbitParams.t) (xy : number * number)
  : number * number :=
  let '(x, y) := xy in
  let z := iter_z p x in
  let x1 := iter_x1 x y z in
  let y' := a p - x in
  let x' := x1 + e p in
  (x', y').
End Iteration.

(** ** Data model *)

Module Vector3.
Record t : Type := mk { x : number; y : number; z : number }.
End Vector3.

Module SubsetPoint.
(** A raw point [(x, y)] and its display-space [vertex]. *)
Record t : Type := mk { x : number; y : number; vertex : Vector3.t }.
End SubsetPoint.

Module Orbit.
Record t : Type := mk {
  subsets : list (list SubsetPoint.t);
  xMin : number;
  xMax : number;
  yMin : number;
  yMax : number;
  scaleX : number;
  scaleY : number
}.
End Orbit.

(** [util/defaults] is not part of the sources at hand: its values are
    parameters of the model. *)
Module Defaults.
Record t : Type := mk {
  speed : number;
  rotation_speed : number;
  points_subset : nat;
  subsets : nat;
  levels : nat;
  fov : number;
  saturation : number;
  brightness : number
}.
End Defaults.

(** The colour handed to [color.setHSL]. *)
Definition HSL : Type := (number * number * number)%type.

(** A [Geometry] holds the very [Vector3] objects of one subset of the
    shared orbit: [vertices] is the index of that subset in
    [orbit.subsets], so that a write to the orbit is seen by every
    geometry of the subset.  [verticesNeedUpdate] asks the renderer to
    read them again. *)
Record Geometry : Type := {
  vertices : nat;
  verticesNeedUpdate : bool
}.

(** A [Points] object: only the depth ([position.z]) and the spin
    ([rotation.z]) ever change. *)
Record Points : Type := {
  position_z : number;
  rotation_z : number;
  geometry : Geometry
}.

Record ParticleSet : Type := {
  myMaterial : HSL;
  myLevel : nat;
  mySubset : nat;
  needsUpdate : bool;
  particles : Points;
  params : OrbitParams.t
}.

Record Camera : Type := {
  camera_x : number;
  camera_y : number;
  camera_z : number;
  camera_fov : number
}.

(** The fields of the [Hopalong] object that the modelled methods read or
    write.  [randomCalls] counts the calls made to [Math.random] so far. *)
Record Hopalong : Type := {
  orbitParams : OrbitParams.t;
  orbitParamHistory : list OrbitParams.t;
  currentFrame : nat;
  vibeCheck : bool;
  hueValues : list number;
  mouseX : number;
  mouseY : number;
  mouseLocked : bool;
  speed : number;
  rotationSpeed : number;
  numPointsSubset : nat;
  numSubsets : nat;
  numLevels : nat;
  orbit : Orbit.t;
  particleSets : list ParticleSet;
  camera : Camera;
  randomCalls : nat
}.

Definition speedDelta : number := Fin 0.5.
Definition rotationSpeedDelta : number := Fin 0.001.

(** Field assignments [this.f = v]. *)

Definition set_orbitParams (v : OrbitParams.t) (h : Hopalong) : Hopalong :=
  Build_Hopalong v (orbitParamHistory h) (currentFrame h) (vibeCheck h)
    (hueValues h) (mouseX h) (mouseY h) (mouseLocked h) (speed h)
    (rotationSpeed h) (numPointsSubset h) (numSubsets h) (numLevels h)
    (orbit h) (particleSets h) (camera h) (randomCalls h).

Definition set_orbitParamHistory (v : list OrbitParams.t) (h : Hopalong) : Hopalong :=
  Build_Hopalong (orbitParams h) v (currentFrame h) (vibeCheck h)
    (hueValues h) (mouseX h) (mouseY h) (mouseLocked h) (speed h)
    (rotationSpeed h) (numPointsSubset h) (numSubsets h) (numLevels h)
    (orbit h) (particleSets h) (camera h) (randomCalls h).

Definition set_currentFrame (v : nat) (h : Hopalong) : Hopalong :=
  Build_Hopalong (orbitParams h) (orbitParamHistory h) v (vibeCheck h)
    (hueValues h) (mouseX h) (mouseY h) (mouseLocked h) (speed h)
    (rotationSpeed h) (numPointsSubset h) (numSubsets h) (numLevels h)
    (orbit h) (particleSets h) (camera h) (randomCalls h).

Definition set_vibeCheck (v : bool) (h : Hopalong) : Hopalong :=
  Build_Hopalong (orbitParams h) (orbitParamHistory h) (currentFrame h) v
    (hueValues h) (mouseX h) (mouseY h) (mouseLocked h) (speed h)
    (rotationSpeed h) (numPointsSubset h) (numSubsets h) (numLevels h)
    (orbit h) (particleSets h) (camera h) (randomCalls h).

Definition set_hueValues (v : list number) (h : Hopalong) : Hopalong :=
  Build_Hopalong (orbitParams h) (orbitParamHistory h) (currentFrame h)
    (vibeCheck h) v (mouseX h) (mouseY h) (mouseLocked h) (speed h)
    (rotationSpeed h) (numPointsSubset h) (numSubsets h) (numLevels h)
    (orbit h) (particleSets h) (camera h) (randomCalls h).

Definition set_mouseX (v : number) (h : Hopalong) : Hopalong :=
  Build_Hopalong (orbitParams h) (orbitParamHistory h) (currentFrame h)
    (vibeCheck h) (hueValues h) v (mouseY h) (mouseLocked h) (speed h)
    (rotationSpeed h) (numPointsSubset h) (numSubsets h) (numLevels h)
    (orbit h) (particleSets h) (camera h) (randomCalls h).

Definition set_mouseY (v : number) (h : Hopalong) : Hopalong :=
  Build_Hopalong (orbitParams h) (orbitParamHistory h) (currentFrame h)
    (vibeCheck h) (hueValues h) (mouseX h) v (mouseLocked h) (speed h)
    (rotationSpeed h) (numPointsSubset h) (numSubsets h) (numLevels h)
    (orbit h) (particleSets h) (camera h) (randomCalls h).

Definition set_mouseLocked (v : bool) (h : Hopalong) : Hopalong :=
  Build_Hopalong (orbitParams h) (orbitParamHistory h) (currentFrame h)
    (vibeCheck h) (hueValues h) (mouseX h) (mouseY h) v (speed h)
    (rotationSpeed h) (numPointsSubset h) (numSubsets h) (numLevels h)
    (orbit h) (particleSets h) (camera h) (randomCalls h).

Definition set_speed (v : number) (h : Hopalong) : Hopalong :=
  Build_Hopalong (orbitParams h) (orbitParamHistory h) (currentFrame h)
    (vibeCheck h) (hueValues h) (mouseX h) (mouseY h) (mouseLocked h) v
    (rotationSpeed h) (numPointsSubset h) (numSubsets h) (numLevels h)
    (orbit h) (particleSets h) (camera h) (randomCalls h).

Definition set_rotationSpeed (v : number) (h : Hopalong) : Hopalong :=
  Build_Hopalong (orbitParams h) (orbitParamHistory h) (currentFrame h)
    (vibeCheck h) (hueValues h) (mouseX h) (mouseY h) (mouseLocked h)
    (speed h) v (numPointsSubset h) (numSubsets h) (numLevels h) (orbit h)
    (particleSets h) (camera h) (randomCalls h).

Definition set_numPointsSubset (v : nat) (h : Hopalong) : Hopalong :=
  Build_Hopalong (orbitParams h) (orbitParamHistory h) (currentFrame h)
    (vibeCheck h) (hueValues h) (mouseX h) (mouseY h) (mouseLocked h)
    (speed h) (rotationSpeed h) v (numSubsets h) (numLevels h) (orbit h)
    (particleSets h) (camera h) (randomCalls h).

Definition set_numSubsets (v : nat) (h : Hopalong) : Hopalong :=
  Build_Hopalong (orbitParams h) (orbitParamHistory h) (currentFrame h)
    (vibeCheck h) (hueValues h) (mouseX h) (mouseY h) (mouseLocked h)
    (speed h) (rotationSpeed h) (numPointsSubset h) v (numLevels h) (orbit
    h) (particleSets h) (camera h) (randomCalls h).

Definition set_numLevels (v : nat) (h : Hopalong) : Hopalong :=
  Build_Hopalong (orbitParams h) (orbitParamHistory h) (currentFrame h)
    (vibeCheck h) (hueValues h) (mouseX h) (mouseY h) (mouseLocked h)
    (speed h) (rotationSpeed h) (numPointsSubset h) (numSubsets h) v
    (orbit h) (particleSets h) (camera h) (randomCalls h).

Definition set_orbit (v : Orbit.t) (h : Hopalong) : Hopalong :=
  Build_Hopalong (orbitParams h) (orbitParamHistory h) (currentFrame h)
    (vibeCheck h) (hueValues h) (mouseX h) (mouseY h) (mouseLocked h)
    (speed h) (rotationSpeed h) (numPointsSubset h) (numSubsets h)
    (numLevels h) v (particleSets h) (camera h) (randomCalls h).

Definition set_particleSets (v : list ParticleSet) (h : Hopalong) : Hopalong :=
  Build_Hopalong (orbitParams h) (orbitParamHistory h) (currentFrame h)
    (vibeCheck h) (hueValues h) (mouseX h) (mouseY h) (mouseLocked h)
    (speed h) (rotationSpeed h) (numPointsSubset h) (numSubsets h)
    (numLevels h) (orbit h) v (camera h) (randomCalls h).

Definition set_camera (v : Camera) (h : Hopalong) : Hopalong :=
  Build_Hopalong (orbitParams h) (orbitParamHistory h) (currentFrame h)
    (vibeCheck h) (hueValues h) (mouseX h) (mouseY h) (mouseLocked h)
    (speed h) (rotationSpeed h) (numPointsSubset h) (numSubsets h)
    (numLevels h) (orbit h) (particleSets h) v (randomCalls h).

Definition set_randomCalls (v : nat) (h : Hopalong) : Hopalong :=
  Build_Hopalong (orbitParams h) (orbitParamHistory h) (currentFrame h)
    (vibeCheck h) (hueValues h) (mouseX h) (mouseY h) (mouseLocked h)
    (speed h) (rotationSpeed h) (numPointsSubset h) (numSubsets h)
    (numLevels h) (orbit h) (particleSets h) (camera h) v.

(** How a method call ends: it returns a value, or a [TypeError] is thrown
    by a property read on [undefined].  Either way the object is left in
    the state reached so far. *)
Inductive completion (A : Type) : Type :=
| Return (a : A) (h : Hopalong)
| TypeError (h : Hopalong).
Arguments Return {A} a h.
Arguments TypeError {A} h.

Definition andThen {A B : Type} (m : completion A)
  (k : A -> Hopalong -> completion B) : completion B :=
  match m with
  | Return a h => k a h
  | TypeError h => TypeError h
  end.

Definition state_of {A : Type} (m : completion A) : Hopalong :=
  match m with Return _ h | TypeError h => h end.

Definition returned {A : Type} (m : completion A) : option A :=
  match m with Return a _ => Some a | TypeError _ => None end.

(** ** The methods of [Hopalong] *)

Section Methods.
Local Open Scope num_scope.

(** [Math_random k] is the value of the [k]-th call to [Math.random]
    (counted from 0). *)
Variable Math_random : nat -> R.

(** The catalog [util/best_frames.json], as the list of the [params] of
    its entries; the file is not part of the sources at hand. *)
Variable best_frames : list OrbitParams.t.

Variable defaults : Defaults.t.

(** [hsvToHsl] of [util/color]; its first argument is [None] when the hue
    read from [hueValues] is [undefined]. *)
Variable hsvToHsl : option number -> number -> number -> HSL.

(** [Array.prototype.sort] of the engine, applied to the particle sets
    with a comparison function. *)
Variable Array_sort :
  (ParticleSet -> ParticleSet -> number) ->
  list ParticleSet -> list ParticleSet.

Definition random (calls : nat) : number := Fin (Math_random calls).

(** *** [shuffleParams] (lines 439-458) *)

(** The index expression
    [this.currentFrame > best_frames.length ? this.currentFrame = 0
     : this.currentFrame++]: its value and the cursor it leaves. *)
Definition nextFrame (cursor : nat) : nat * nat :=
  if Nat.ltb (length best_frames) cursor then (0%nat, 0%nat)
  else (cursor, S cursor).

Definition randomParams (now : number) (calls : nat) : OrbitParams.t :=
  let draw (k : nat) (r : constraints.range) : number :=
    constraints.min r
    + random (calls + k) * (constraints.max r - constraints.min r) in
  {| OrbitParams.a := draw 0%nat constraints.a;
     OrbitParams.b := draw 1%nat constraints.b;
     OrbitParams.c := draw 2%nat constraints.c;
     OrbitParams.d := draw 3%nat constraints.d;
     OrbitParams.e := draw 4%nat constraints.e;
     OrbitParams.choice := random (calls + 5);
     OrbitParams.xPreset := random (calls + 6);
     OrbitParams.yPreset := random (calls + 7);
     OrbitParams.timeCreated := Some now |}.

Definition pushHistory (h : Hopalong) : Hopalong :=
  set_orbitParamHistory (orbitParamHistory h ++ [orbitParams h]) h.

(** [now] is the value of [Date.now()] at the call. *)
Definition shuffleParams (now : number) (h : Hopalong) : completion unit :=
  if vibeCheck h then
    let '(index, cursor) := nextFrame (currentFrame h) in
    let h1 := set_currentFrame cursor h in
    match nth_error best_frames index with
    | None => TypeError h1
    | Some p => Return tt (pushHistory (set_orbitParams p h1))
    end
  else
    let p := randomParams now (randomCalls h) in
    Return tt
      (pushHistory
         (set_orbitParams p (set_randomCalls (randomCalls h + 8) h))).

(** *** [prepareOrbit] (lines 431-437) *)

Definition prepareOrbit (now : number) (h : Hopalong) : completion unit :=
  andThen (shuffleParams now h) (fun _ h1 =>
    let o := orbit h1 in
    Return tt
      (set_orbit
         (Orbit.mk (Orbit.subsets o) (Fin 0) (Fin 0) (Fin 0) (Fin 0)
            (Orbit.scaleX o) (Orbit.scaleY o)) h1)).

(** *** [generateOrbit] (lines 347-429) *)

(** The running bounds [xMin, xMax, yMin, yMax]. *)
Record Bounds : Type := {
  b_xMin : number;
  b_xMax : number;
  b_yMin : number;
  b_yMax : number
}.

(** [if (v < lo) lo = v; else if (v > hi) hi = v;] *)
Definition track (lo hi v : number) : number * number :=
  if v <? lo then (v, hi)
  else if v >? hi then (lo, v)
  else (lo, hi).

Definition trackPoint (bs : Bounds) (xy : number * number) : Bounds :=
  let '(lx, hx) := track (b_xMin bs) (b_xMax bs) (fst xy) in
  let '(ly, hy) := track (b_yMin bs) (b_yMax bs) (snd xy) in
  {| b_xMin := lx; b_xMax := hx; b_yMin := ly; b_yMax := hy |}.

(** The inner loop: [n] iterations from the point [xy]; the raw points
    written to [curSubset[0..n-1]] and the bounds after them. *)
Fixpoint pointsLoop (p : OrbitParams.t) (n : nat) (xy : number * number)
  (bs : Bounds) : list (number * number) * Bounds :=
  match n with
  | O => ([], bs)
  | S n' =>
      let xy' := iterate p xy in
      let '(rest, bs') := pointsLoop p n' xy' (trackPoint bs xy') in
      (xy' :: rest, bs')
  end.

(** The starting point of subset [s]; the draw for [x] comes first. *)
Definition startPoint (p : OrbitParams.t) (s calls : nat)
  : number * number :=
  (Fin (INR s) * Fin 0.005
     * (Fin 0.5 - OrbitParams.xPreset p * (random calls / Fin 2)),
   Fin (INR s) * Fin 0.005
     * (Fin 0.5 - OrbitParams.yPreset p * (random (calls + 1) / Fin 2))).

(** The outer loop over the subsets [s, s+1, ..., s+n-1]. *)
Fixpoint subsetsLoop (p : OrbitParams.t) (points n s calls : nat)
  (bs : Bounds) : list (list (number * number)) * Bounds * nat :=
  match n with
  | O => ([], bs, calls)
  | S n' =>
      let '(pts, bs1) := pointsLoop p points (startPoint p s calls) bs in
      let '(rest, bs2, calls') :=
        subsetsLoop p points n' (S s) (calls + 2) bs1 in
      (pts :: rest, bs2, calls')
  end.

(** The second pass: [vertex.setX], [vertex.setY]. *)
Definition display (scale lo v : number) : number :=
  scale * (v - lo) - SCALE_FACTOR.

Definition normalize (scaleX scaleY xMin yMin : number)
  (xy : number * number) : SubsetPoint.t :=
  {| SubsetPoint.x := fst xy;
     SubsetPoint.y := snd xy;
     SubsetPoint.vertex :=
       {| Vector3.x := display scaleX xMin (fst xy);
          Vector3.y := display scaleY yMin (snd xy);
          Vector3.z := Fin 0 |} |}.

(** The orbit computed from the parameters [p]: [initOrbit] has allocated
    [subsets] arrays of [points] points each with vertex [(0, 0, 0)], and
    both passes overwrite every one of them, so the arrays are given here
    by their contents after the call. *)
Definition computeOrbit (p : OrbitParams.t) (points subsets calls : nat)
  : Orbit.t * nat :=
  let '(raw, bs, calls') :=
    subsetsLoop p points subsets 0 calls
      {| b_xMin := Fin 0; b_xMax := Fin 0;
         b_yMin := Fin 0; b_yMax := Fin 0 |} in
  let scaleX := (Fin 2 * SCALE_FACTOR) / (b_xMax bs - b_xMin bs) in
  let scaleY := (Fin 2 * SCALE_FACTOR) / (b_yMax bs - b_yMin bs) in
  ({| Orbit.subsets :=
        map (map (normalize scaleX scaleY (b_xMin bs) (b_yMin bs))) raw;
      Orbit.xMin := b_xMin bs;
      Orbit.xMax := b_xMax bs;
      Orbit.yMin := b_yMin bs;
      Orbit.yMax := b_yMax bs;
      Orbit.scaleX := scaleX;
      Orbit.scaleY := scaleY |}, calls').

Definition generateOrbit (now : number) (h : Hopalong) : completion unit :=
  andThen (prepareOrbit now h) (fun _ h1 =>
    let '(o, calls) :=
      computeOrbit (orbitParams h1) (numPointsSubset h1) (numSubsets h1)
        (randomCalls h1) in
    Return tt (set_orbit o (set_randomCalls calls h1))).

(** *** [generateHues] (lines 341-345) *)

Fixpoint draws (n calls : nat) : list number :=
  match n with
  | O => []
  | S n' => random calls :: draws n' (S calls)
  end.

(** [hueValues[s] = Math.random()] for [s] from 0 to [numSubsets - 1]:
    the first [numSubsets] entries are replaced, later ones stay. *)
Definition generateHues (h : Hopalong) : Hopalong :=
  set_hueValues
    (draws (numSubsets h) (randomCalls h)
       ++ skipn (numSubsets h) (hueValues h))
    (set_randomCalls (randomCalls h + numSubsets h) h).

(** *** [updateOrbit] (lines 333-339) *)

Definition flag (ps : ParticleSet) : ParticleSet :=
  {| myMaterial := myMaterial ps;
     myLevel := myLevel ps;
     mySubset := mySubset ps;
     needsUpdate := true;
     particles := particles ps;
     params := params ps |}.

Definition updateOrbit (now : number) (h : Hopalong) : completion unit :=
  andThen (generateOrbit now h) (fun _ h1 =>
    let h2 := generateHues h1 in
    Return tt (set_particleSets (map flag (particleSets h2)) h2)).

(** *** [render] (lines 280-327) *)

(** The easing of one camera coordinate towards [target], inside the
    square of half-width [CAMERA_BOUND]. *)
Definition ease (pos target : number) : number :=
  if (pos >=? - CAMERA_BOUND) && (Num.le pos CAMERA_BOUND) then
    let pos1 := pos + (target - pos) * Fin 0.05 in
    let pos2 := if pos1 <? - CAMERA_BOUND then - CAMERA_BOUND else pos1 in
    if pos2 >? CAMERA_BOUND then CAMERA_BOUND else pos2
  else pos.

Definition moveCamera (h : Hopalong) : Camera :=
  let cam := camera h in
  {| camera_x := ease (camera_x cam) (mouseX h);
     camera_y := ease (camera_y cam) (- mouseY h);
     camera_z := camera_z cam;
     camera_fov := camera_fov cam |}.

(** The depth a particle set is sent back to when it passes the camera. *)
Definition backDepth (h : Hopalong) : number :=
  - (Fin (INR (numLevels h)) - Fin 1) * LEVEL_DEPTH.

(** The crossing test of a particle set, after its depth has advanced. *)
Definition crosses (h : Hopalong) (ps : ParticleSet) : bool :=
  (position_z (particles ps) + speed h) >? camera_z (camera h).

Definition hueColor (h : Hopalong) (subset : nat) : HSL :=
  hsvToHsl (nth_error (hueValues h) subset)
    (Defaults.saturation defaults) (Defaults.brightness defaults).

(** The body of the loop over the particle sets. *)
Definition renderSet (h : Hopalong) (ps : ParticleSet) : ParticleSet :=
  let pts := particles ps in
  let z1 := position_z pts + speed h in
  let r1 := rotation_z pts + rotationSpeed h in
  if z1 >? camera_z (camera h) then
    if needsUpdate ps then
      {| myMaterial := hueColor h (mySubset ps);
         myLevel := myLevel ps;
         mySubset := mySubset ps;
         needsUpdate := false;
         particles :=
           {| position_z := backDepth h;
              rotation_z := r1;
              geometry :=
                {| vertices := vertices (geometry pts);
                   verticesNeedUpdate := true |} |};
         params := orbitParams h |}
    else
      {| myMaterial := myMaterial ps;
         myLevel := myLevel ps;
         mySubset := mySubset ps;
         needsUpdate := needsUpdate ps;
         particles :=
           {| position_z := backDepth h;
              rotation_z := r1;
              geometry := geometry pts |};
         params := params ps |}
  else
    {| myMaterial := myMaterial ps;
       myLevel := myLevel ps;
       mySubset := mySubset ps;
       needsUpdate := needsUpdate ps;
       particles :=
         {| position_z := z1; rotation_z := r1; geometry := geometry pts |};
       params := params ps |}.

Definition render (h : Hopalong) : Hopalong :=
  let h1 := set_camera (moveCamera h) h in
  set_particleSets (map (renderSet h1) (particleSets h1)) h1.

(** *** [init] (lines 180-257) and the constructor (lines 142-157) *)

(** The particle set of level [k] and subset [s]. *)
Definition newParticleSet (h : Hopalong) (k s : nat) : ParticleSet :=
  {| myMaterial := hueColor h s;
     myLevel := k;
     mySubset := s;
     needsUpdate := false;
     particles :=
       {| position_z :=
            - LEVEL_DEPTH * Fin (INR k)
            - (Fin (INR s) * LEVEL_DEPTH) / Fin (INR (numSubsets h))
            + SCALE_FACTOR / Fin 2;
          rotation_z := Fin 0;
          geometry := {| vertices := s; verticesNeedUpdate := false |} |};
     params := orbitParams h |}.

Definition newParticleSets (h : Hopalong) : list ParticleSet :=
  flat_map
    (fun k => map (newParticleSet h k) (seq 0 (numSubsets h)))
    (seq 0 (numLevels h)).

Definition init (now : number) (h : Hopalong) : completion unit :=
  let cam :=
    {| camera_x := Fin 0;
       camera_y := Fin 0;
       camera_z := SCALE_FACTOR / Fin 2;
       camera_fov := Defaults.fov defaults |} in
  andThen (generateOrbit now (set_camera cam h)) (fun _ h1 =>
    let h2 := generateHues h1 in
    Return tt
      (set_particleSets (particleSets h2 ++ newParticleSets h2) h2)).

(** [n || dflt] on an optional count. *)
Definition orDefault (n : option nat) (dflt : nat) : nat :=
  match n with
  | Some (S m) => S m
  | _ => dflt
  end.

Definition blankPoint : SubsetPoint.t :=
  {| SubsetPoint.x := Fin 0;
     SubsetPoint.y := Fin 0;
     SubsetPoint.vertex := Vector3.mk (Fin 0) (Fin 0) (Fin 0) |}.

(** The object after the field initialisers, the three counts and
    [initOrbit]. *)
Definition fresh (now : number) (subsetCount levelCount pointsPerSubset
  : option nat) : Hopalong :=
  let subsets := orDefault subsetCount (Defaults.subsets defaults) in
  let points := orDefault pointsPerSubset (Defaults.points_subset defaults) in
  {| orbitParams :=
       OrbitParams.mk (Fin 0) (Fin 0) (Fin 0) (Fin 0) (Fin 0) (Fin 0)
         (Fin 0) (Fin 0) (Some now);
     orbitParamHistory := [];
     currentFrame := 0;
     vibeCheck := true;
     hueValues := [];
     mouseX := Fin 0;
     mouseY := Fin 0;
     mouseLocked := false;
     speed := Defaults.speed defaults;
     rotationSpeed := Defaults.rotation_speed defaults;
     numPointsSubset := points;
     numSubsets := subsets;
     numLevels := orDefault levelCount (Defaults.levels defaults);
     orbit :=
       Orbit.mk (repeat (repeat blankPoint points) subsets)
         (Fin 0) (Fin 0) (Fin 0) (Fin 0) (Fin 0) (Fin 0);
     particleSets := [];
     camera := Build_Camera (Fin 0) (Fin 0) (Fin 0) (Fin 0);
     randomCalls := 0 |}.

(** The constructor (lines 142-157): the field initialisers, the three
    counts and [initOrbit], then [init], then [animate], which finds
    [destroyed] false, as its initialiser leaves it, and renders the first
    frame.  ([fireSettingsChange] only hands [getSettings] to the
    callback.) *)
Definition constructor (now : number) (subsetCount levelCount
  pointsPerSubset : option nat) : completion unit :=
  andThen (init now (fresh now subsetCount levelCount pointsPerSubset))
    (fun _ h => Return tt (render h)).

(** *** [getCurrentOrbitParams] (lines 91-99) *)

Definition falsyTime (t : option number) : bool :=
  match t with
  | None => true
  | Some n => Num.falsy n
  end.

(** [ta < tb], false when either side is [undefined]. *)
Definition timeLt (ta tb : option number) : bool :=
  match ta, tb with
  | Some x, Some y => x <? y
  | _, _ => false
  end.

(** The comparison function handed to [sort]. *)
Definition compareSets (a b : ParticleSet) : number :=
  let ta := OrbitParams.timeCreated (params a) in
  let tb := OrbitParams.timeCreated (params b) in
  if falsyTime ta || falsyTime tb then Fin (-1)
  else if timeLt ta tb then Fin 1 else Fin (-1).

(** [sort] works in place: [this.particleSets] is the sorted array
    afterwards.  Reading [.params] of [latest[-1]] on an empty array
    throws. *)
Definition getCurrentOrbitParams (h : Hopalong)
  : completion OrbitParams.t :=
  let latest := Array_sort compareSets (particleSets h) in
  let h1 := set_particleSets latest h in
  match nth_error latest (length latest - 1) with
  | None => TypeError h1
  | Some ps => Return (params ps) h1
  end.

(** *** Settings (lines 482-558) *)

(** A [Partial<SimpleSettings>]: [None] is an [undefined] field. *)
Record SettingsPatch : Type := {
  patch_speed : option number;
  patch_rotationSpeed : option number;
  patch_mouseLocked : option bool;
  patch_cameraFov : option number
}.

Definition setCameraFOV (fov : number) (h : Hopalong) : Hopalong :=
  let cam := camera h in
  set_camera
    (Build_Camera (camera_x cam) (camera_y cam) (camera_z cam) fov) h.

Definition applyField {A : Type} (v : option A)
  (set : A -> Hopalong -> Hopalong) (h : Hopalong) : Hopalong :=
  match v with
  | Some a => set a h
  | None => h
  end.

Definition applySettings (s : SettingsPatch) (h : Hopalong) : Hopalong :=
  let h1 := applyField (patch_speed s) set_speed h in
  let h2 := applyField (patch_rotationSpeed s) set_rotationSpeed h1 in
  let h3 := applyField (patch_mouseLocked s) set_mouseLocked h2 in
  applyField (patch_cameraFov s) setCameraFOV h3.

Definition changeSpeed (delta : number) (h : Hopalong) : Hopalong :=
  let newSpeed := speed h + delta in
  if newSpeed >=? Fin 0 then set_speed newSpeed h
  else set_speed (Fin 0) h.

Definition changeRotationSpeed (delta : number) (h : Hopalong)
  : Hopalong :=
  set_rotationSpeed (rotationSpeed h + delta) h.

Definition resetDefaults (h : Hopalong) : Hopalong :=
  setCameraFOV (Defaults.fov defaults)
    (set_rotationSpeed (Defaults.rotation_speed defaults)
       (set_speed (Defaults.speed defaults) h)).

Definition setMouseLock (locked : option bool) (h : Hopalong)
  : Hopalong :=
  match locked with
  | None => set_mouseLocked (negb (mouseLocked h)) h
  | Some l => set_mouseLocked l h
  end.

Definition recenterCamera (h : Hopalong) : Hopalong :=
  let cam := camera h in
  setMouseLock None
    (set_mouseY (Fin 0)
       (set_mouseX (Fin 0)
          (set_camera
             (Build_Camera (Fin 0) (Fin 0) (camera_z cam)
                (camera_fov cam)) h))).

End Methods.

(** ** Sorting *)

(** [x] may stand before [y]: the comparison function does not ask for
    the opposite order. *)
Definition mayPrecede {A : Type} (cmp : A -> A -> number) (x y : A)
  : Prop :=
  Num.gt (cmp x y) (Fin 0) = false.

(** On the elements of [l] the comparison function orders any two elements
    and is transitive. *)
Definition totalPreorderOn {A : Type} (cmp : A -> A -> number)
  (l : list A) : Prop :=
  (forall x y, In x l -> In y l -> mayPrecede cmp x y \/ mayPrecede cmp y x)
  /\ (forall x y z, In x l -> In y l -> In z l ->
        mayPrecede cmp x y -> mayPrecede cmp y z -> mayPrecede cmp x z).

(** What is assumed of the engine's [sort]: it permutes the array, and the
    result is ordered wherever the comparison function is a total
    preorder.  (The comparison functions of this program never return 0, so
    the language standard leaves the order of ties to the engine.) *)
Definition sortContract {A : Type}
  (srt : (A -> A -> number) -> list A -> list A) : Prop :=
  forall cmp l,
    Permutation l (srt cmp l)
    /\ (totalPreorderOn cmp l -> StronglySorted (mayPrecede cmp) (srt cmp l)).

(** A sort that meets the contract: insertion from the right end. *)
Fixpoint insertBy {A : Type} (cmp : A -> A -> number) (x : A) (l : list A)
  : list A :=
  match l with
  | [] => [x]
  | y :: l' =>
      if Num.gt (cmp x y) (Fin 0) then y :: insertBy cmp x l' else x :: l
  end.

Fixpoint insertionSort {A : Type} (cmp : A -> A -> number) (l : list A)
  : list A :=
  match l with
  | [] => []
  | x :: l' => insertBy cmp x (insertionSort cmp l')
  end.

(** ** Iterated frames *)

Section Frames.
Variable defaults : Defaults.t.
Variable hsvToHsl : option number -> number -> number -> HSL.

(** [n] calls of [render] in a row. *)
Fixpoint frames (n : nat) (h : Hopalong) : Hopalong :=
  match n with
  | O => h
  | S n' => frames n' (render defaults hsvToHsl h)
  end.
(** The particle set [ps'] has taken over what is current in [h]: its
    geometry asks for a vertex update of its (shared) subset, its colour
    is [hsvToHsl(hueValues[mySubset], saturation, brightness)] with the
    hue that the table holds now for its subset, its parameters are the
    current ones. *)
Definition adopts (h : Hopalong) (ps ps' : ParticleSet) : Prop :=
  verticesNeedUpdate (geometry (particles ps')) = true
  /\ vertices (geometry (particles ps')) = vertices (geometry (particles ps))
  /\ mySubset ps' = mySubset ps
  /\ myMaterial ps'
     = hsvToHsl (nth_error (hueValues h) (mySubset ps))
         (Defaults.saturation defaults) (Defaults.brightness defaults)
  /\ params ps' = orbitParams h.
End Frames.

(** [n] selections of parameters in a row, stopping at the first one that
    throws. *)
Fixpoint selectMany (Math_random : nat -> R)
  (best_frames : list OrbitParams.t) (n : nat) (now : number)
  (h : Hopalong) : completion unit :=
  match n with
  | O => Return tt h
  | S n' =>
      andThen (shuffleParams Math_random best_frames now h)
        (fun _ h' => selectMany Math_random best_frames n' now h')
  end.

(** ** Explicit results in curated mode *)

Section Curated.
Variable Math_random : nat -> R.

(** The object after a selection that installs the catalog entry [p]. *)
Definition selected (p : OrbitParams.t) (h : Hopalong) : Hopalong :=
  pushHistory (set_orbitParams p (set_currentFrame (S (currentFrame h)) h)).

(** The object after a generation that installs the catalog entry [p]. *)
Definition generated (p : OrbitParams.t) (h : Hopalong) : Hopalong :=
  let h1 := selected p h in
  let c :=
    computeOrbit Math_random p (numPointsSubset h) (numSubsets h)
      (randomCalls h) in
  set_orbit (fst c) (set_randomCalls (snd c) h1).

(** The object after a regeneration that installs the catalog entry [p]. *)
Definition regenerated (p : OrbitParams.t) (h : Hopalong) : Hopalong :=
  let h2 := generateHues Math_random (generated p h) in
  set_particleSets (map flag (particleSets h2)) h2.
End Curated.

(** ** The bounding box, as a property *)

(** The point [xy] is finite and inside the box. *)
Definition inBox (lx hx ly hy : R) (xy : number * number) : Prop :=
  exists rx ry,
    xy = (Fin rx, Fin ry) /\ lx <= rx <= hx /\ ly <= ry <= hy.

(** The bound [v] is 0, where the running bounds start, or the coordinate
    of one of the points. *)
Definition attained (v : R) (coord : number * number -> number)
  (pts : list (number * number)) : Prop :=
  v = 0 \/ exists xy, In xy pts /\ coord xy = Fin v.

(** The running bounds [bs] are the box of the origin and the points
    [pts]. *)
Definition covers (bs : Bounds) (pts : list (number * number)) : Prop :=
  exists lx hx ly hy,
    bs = Build_Bounds (Fin lx) (Fin hx) (Fin ly) (Fin hy)
    /\ lx <= 0 <= hx /\ ly <= 0 <= hy
    /\ Forall (inBox lx hx ly hy) pts
    /\ attained lx fst pts /\ attained hx fst pts
    /\ attained ly snd pts /\ attained hy snd pts.

Definition raw (pt : SubsetPoint.t) : number * number :=
  (SubsetPoint.x pt, SubsetPoint.y pt).

(** All the points of an orbit, subset after subset. *)
Definition pointsOf (o : Orbit.t) : list SubsetPoint.t :=
  concat (Orbit.subsets o).



(** ** Concrete inputs *)

(** The parameters of the specification's worked example of one
    iteration. *)
Definition exampleParams : OrbitParams.t :=
  OrbitParams.mk (Fin 1) (Fin 1) (Fin 10) (Fin 0) (Fin 0) (Fin 0.3)
    (Fin 0) (Fin 0) None.

Definition zeroParams (t : option number) : OrbitParams.t :=
  OrbitParams.mk (Fin 0) (Fin 0) (Fin 0) (Fin 0) (Fin 0) (Fin 0)
    (Fin 0) (Fin 0) t.

(** A catalog of two entries. *)
Definition catalog2 : list OrbitParams.t :=
  [exampleParams; zeroParams None].

(** An object in curated mode with one subset of one point, no particle
    sets, the camera at depth 750 and nothing moving. *)
Definition blankState : Hopalong :=
  {| orbitParams := zeroParams (Some (Fin 1));
     orbitParamHistory := [];
     currentFrame := 0;
     vibeCheck := true;
     hueValues := [];
     mouseX := Fin 0;
     mouseY := Fin 0;
     mouseLocked := false;
     speed := Fin 0;
     rotationSpeed := Fin 0;
     numPointsSubset := 1;
     numSubsets := 1;
     numLevels := 1;
     orbit :=
       Orbit.mk [[blankPoint]] (Fin 0) (Fin 0) (Fin 0) (Fin 0) (Fin 0)
         (Fin 0);
     particleSets := [];
     camera := Build_Camera (Fin 0) (Fin 0) (Fin 750) (Fin 60);
     randomCalls := 0 |}.

(** A particle set of subset 0 at depth [z], flagged or not, carrying the
    parameters [p]. *)
Definition sampleSet (z : number) (flagged : bool) (p : OrbitParams.t)
  : ParticleSet :=
  {| myMaterial := (Fin 0, Fin 0, Fin 0);
     myLevel := 0;
     mySubset := 0;
     needsUpdate := flagged;
     particles :=
       {| position_z := z;
          rotation_z := Fin 0;
          geometry := {| vertices := 0; verticesNeedUpdate := false |} |};
     params := p |}.

(** The scenario of the level cycle: speed 2, three levels, the camera at
    depth 750, the hue 0.25 for subset 0 and one particle set [2 * 3]
    short of the camera. *)
Definition cycleState : Hopalong :=
  set_particleSets [sampleSet (Fin (750 - 2 * INR 3)) true exampleParams]
    (set_hueValues [Fin 0.25]
       (set_numLevels 3 (set_speed (Fin 2) blankState))).

Definition someDefaults : Defaults.t :=
  Defaults.mk (Fin 8) (Fin 0.005) 1 1 1 (Fin 60) (Fin 0.8) (Fin 1).

Definition plainHsl (hue : option number) (s v : number) : HSL :=
  (match hue with Some x => x | None => NaN end, s, v).

(** Two particle sets whose parameters were created at times 1 and 2, the
    older one first. *)
Definition olderSet : ParticleSet :=
  sampleSet (Fin 0) false (zeroParams (Some (Fin 1))).

Definition newerSet : ParticleSet :=
  sampleSet (Fin 0) false (zeroParams (Some (Fin 2))).

Definition ascendingState : Hopalong :=
  set_particleSets [olderSet; newerSet] blankState.

(** The same two sets, the newer one first. *)
Definition descendingState : Hopalong :=
  set_particleSets [newerSet; olderSet] blankState.

(** Every particle set of [h] carries a truthy creation time. *)
Definition truthyTimes (h : Hopalong) : Prop :=
  Forall
    (fun ps => falsyTime (OrbitParams.timeCreated (params ps)) = false)
    (particleSets h).

(** Parameters whose first point from the origin lies at (5, 3). *)
Definition offsetParams : OrbitParams.t :=
  OrbitParams.mk (Fin 3) (Fin 1) (Fin 10) (Fin 0) (Fin 5) (Fin 0.3)
    (Fin 0.5) (Fin 0.5) None.

(** Parameters under which the origin is a fixed point. *)
Definition stillParams : OrbitParams.t :=
  OrbitParams.mk (Fin 0) (Fin 1) (Fin 10) (Fin 5) (Fin 0) (Fin 0.3)
    (Fin 0.5) (Fin 0.5) None.

(** One subset of three points. *)
Definition threePoints : Hopalong :=
  set_orbit
    (Orbit.mk [repeat blankPoint 3] (Fin 0) (Fin 0) (Fin 0) (Fin 0) (Fin 0)
       (Fin 0))
    (set_numPointsSubset 3 blankState).

(** The parameters [p] with the creation time [t]. *)
Definition stamped (t : R) (p : OrbitParams.t) : OrbitParams.t :=
  OrbitParams.mk (OrbitParams.a p) (OrbitParams.b p) (OrbitParams.c p)
    (OrbitParams.d p) (OrbitParams.e p) (OrbitParams.choice p)
    (OrbitParams.xPreset p) (OrbitParams.yPreset p) (Some (Fin t)).

(** A catalog whose two entries were created at times 10 and 20. *)
Definition agedCatalog : list OrbitParams.t :=
  [stamped 10 offsetParams; stamped 20 exampleParams].


(** Every call to [Math.random] returns one half. *)
Definition halves : nat -> R := fun _ => 0.5%R.

(** *** A session

    The object is constructed at time 1 with one subset of one point and
    two levels over [agedCatalog]; at time 2 the orbit is regenerated;
    then 75 frames are rendered. *)

(** The object when [init] has placed the camera. *)
Definition prepared : Hopalong :=
  set_camera
    (Build_Camera (Fin 0) (Fin 0) (SCALE_FACTOR / Fin 2)%num
       (Defaults.fov someDefaults))
    (fresh someDefaults (Fin 1) (Some 1%nat) (Some 2%nat) (Some 1%nat)).

(** The object when [init] creates the particle sets. *)
Definition hued : Hopalong :=
  generateHues halves (generated halves (stamped 10 offsetParams) prepared).

(** The object that [init] leaves. *)
Definition laidOut : Hopalong :=
  set_particleSets
    (particleSets hued ++ newParticleSets someDefaults plainHsl hued) hued.

(** The object the constructor leaves, with the first frame rendered. *)
Definition built : Hopalong := render someDefaults plainHsl laidOut.

(** The object after the regeneration. *)
Definition rebuilt : Hopalong :=
  regenerated halves (stamped 20 exampleParams) built.



(** * Further parts of the program *)

(** ** The settings snapshot ([getSettings], lines 527-536) *)

Module SimpleSettings.
Record t : Type := mk {
  speed : number;
  rotationSpeed : number;
  mouseLocked : bool;
  cameraFov : number;
  vibeCheck : bool
}.
End SimpleSettings.

Definition getSettings (h : Hopalong) : SimpleSettings.t :=
  {| SimpleSettings.speed := speed h;
     SimpleSettings.rotationSpeed := rotationSpeed h;
     SimpleSettings.mouseLocked := mouseLocked h;
     SimpleSettings.cameraFov := camera_fov (camera h);
     SimpleSettings.vibeCheck := vibeCheck h |}.

(** A snapshot handed to [applySettings]: the four fields it reads are all
    defined. *)
Definition asPatch (s : SimpleSettings.t) : SettingsPatch :=
  {| patch_speed := Some (SimpleSettings.speed s);
     patch_rotationSpeed := Some (SimpleSettings.rotationSpeed s);
     patch_mouseLocked := Some (SimpleSettings.mouseLocked s);
     patch_cameraFov := Some (SimpleSettings.cameraFov s) |}.

(** ** The event handlers (lines 159-163, 268-278, 464-480, 560-590)

    The fields of the object that only the handlers use are kept beside
    the ones modelled so far; [hideCursor] is the presence of the class of
    that name on the document's body. *)

Record Page : Type := {
  hopalong : Hopalong;
  windowHalfX : number;
  windowHalfY : number;
  destroyed : bool;
  hideCursor : bool
}.

Definition onHopalong (f : Hopalong -> Hopalong) (p : Page) : Page :=
  {| hopalong := f (hopalong p);
     windowHalfX := windowHalfX p;
     windowHalfY := windowHalfY p;
     destroyed := destroyed p;
     hideCursor := hideCursor p |}.

(** [onDocumentMouseMove] with the event's [clientX] and [clientY]. *)
Definition onDocumentMouseMove (clientX clientY : number) (p : Page)
  : Page :=
  if mouseLocked (hopalong p) then p
  else
    onHopalong
      (fun h =>
         set_mouseY (clientY - windowHalfY p)%num
           (set_mouseX (clientX - windowHalfX p)%num h)) p.

(** [onDocumentTouch] with the [(pageX, pageY)] of the event's touches. *)
Definition onDocumentTouch (touches : list (number * number)) (p : Page)
  : Page :=
  if mouseLocked (hopalong p) then p
  else
    match touches with
    | [(pageX, pageY)] =>
        onHopalong
          (fun h =>
             set_mouseY (pageY - windowHalfY p)%num
               (set_mouseX (pageX - windowHalfX p)%num h)) p
    | _ => p
    end.

(** [onWindowResize] with the window's [innerWidth] and [innerHeight]; the
    camera's aspect and the renderer's size are not modelled. *)
Definition onWindowResize (innerWidth innerHeight : number) (p : Page)
  : Page :=
  {| hopalong := hopalong p;
     windowHalfX := (innerWidth / Fin 2)%num;
     windowHalfY := (innerHeight / Fin 2)%num;
     destroyed := destroyed p;
     hideCursor := hideCursor p |}.

(** [destroy] (lines 159-163) clears the interval of the regenerations and
    sets the flag that [animate] tests; the listeners stay installed. *)
Definition destroy (p : Page) : Page :=
  {| hopalong := hopalong p;
     windowHalfX := windowHalfX p;
     windowHalfY := windowHalfY p;
     destroyed := true;
     hideCursor := hideCursor p |}.

Section Handlers.
Variable defaults : Defaults.t.
Variable hsvToHsl : option number -> number -> number -> HSL.

(** [String.prototype.toUpperCase] of the engine. *)
Variable toUpperCase : String.string -> String.string.

(** One call of [animate]: the frame is rendered unless the object has
    been destroyed. *)
Definition animate (p : Page) : Page :=
  if destroyed p then p else onHopalong (render defaults hsvToHsl) p.

Fixpoint animateMany (n : nat) (p : Page) : Page :=
  match n with
  | O => p
  | S n' => animateMany n' (animate p)
  end.

Definition toggleHideCursor (p : Page) : Page :=
  {| hopalong := hopalong p;
     windowHalfX := windowHalfX p;
     windowHalfY := windowHalfY p;
     destroyed := destroyed p;
     hideCursor := negb (hideCursor p) |}.

(** [onKeyDown] with the event's [key]. *)
Definition onKeyDown (key : String.string) (p : Page) : Page :=
  let keyUpper := toUpperCase key in
  if String.eqb key "ArrowUp"%str || String.eqb keyUpper "W"%str then
    onHopalong (changeSpeed speedDelta) p
  else if String.eqb key "ArrowDown"%str || String.eqb keyUpper "S"%str then
    onHopalong (changeSpeed (Num.neg speedDelta)) p
  else if String.eqb key "ArrowLeft"%str || String.eqb keyUpper "A"%str then
    onHopalong (changeRotationSpeed rotationSpeedDelta) p
  else if String.eqb key "ArrowRight"%str || String.eqb keyUpper "D"%str
  then onHopalong (changeRotationSpeed (Num.neg rotationSpeedDelta)) p
  else if String.eqb keyUpper "R"%str then
    onHopalong (resetDefaults defaults) p
  else if String.eqb keyUpper "L"%str then
    onHopalong (setMouseLock None) p
  else if String.eqb keyUpper "H"%str then toggleHideCursor p
  else if String.eqb keyUpper "C"%str then onHopalong recenterCamera p
  else p.

Fixpoint pressKeys (keys : list String.string) (p : Page) : Page :=
  match keys with
  | [] => p
  | key :: keys' => pressKeys keys' (onKeyDown key p)
  end.
End Handlers.

(** Upper case of the letters a-z, every other character as it is. *)
Definition upperAscii (c : Ascii.ascii) : Ascii.ascii :=
  let n := Ascii.nat_of_ascii c in
  if Nat.leb 97 n && Nat.leb n 122 then Ascii.ascii_of_nat (n - 32) else c.

Fixpoint upperCase (s : String.string) : String.string :=
  match s with
  | String.EmptyString => String.EmptyString
  | String.String c s' => String.String (upperAscii c) (upperCase s')
  end.

(** ** The calls that can be made on the object, in any order

    The public methods, a frame, and [PointerAt], which stands for what a
    pointer listener writes ([mouseX] and [mouseY], here also under a
    lock, so that the sequences of calls include those of the page). *)

Inductive action : Type :=
| Render
| UpdateOrbit (now : number)
| ChangeSpeed (delta : number)
| ChangeRotationSpeed (delta : number)
| ApplySettings (s : SettingsPatch)
| ResetDefaults
| SetMouseLock (locked : option bool)
| RecenterCamera
| SetCameraFOV (fov : number)
| GetCurrentOrbitParams
| PointerAt (x y : number).

Section Actions.
Variable Math_random : nat -> R.
Variable best_frames : list OrbitParams.t.
Variable defaults : Defaults.t.
Variable hsvToHsl : option number -> number -> number -> HSL.
Variable Array_sort :
  (ParticleSet -> ParticleSet -> number) ->
  list ParticleSet -> list ParticleSet.

(** The object a call leaves, whether it returns or throws; [PointerAt] is
    a pointer event that is not ignored. *)
Definition perform (a : action) (h : Hopalong) : Hopalong :=
  match a with
  | Render => render defaults hsvToHsl h
  | UpdateOrbit now => state_of (updateOrbit Math_random best_frames now h)
  | ChangeSpeed delta => changeSpeed delta h
  | ChangeRotationSpeed delta => changeRotationSpeed delta h
  | ApplySettings s => applySettings s h
  | ResetDefaults => resetDefaults defaults h
  | SetMouseLock locked => setMouseLock locked h
  | RecenterCamera => recenterCamera h
  | SetCameraFOV fov => setCameraFOV fov h
  | GetCurrentOrbitParams => state_of (getCurrentOrbitParams Array_sort h)
  | PointerAt x y => set_mouseY y (set_mouseX x h)
  end.

Fixpoint performAll (l : list action) (h : Hopalong) : Hopalong :=
  match l with
  | [] => h
  | a :: l' => performAll l' (perform a h)
  end.
End Actions.

(** The arrays of the object have the sizes the loops assume: the orbit
    has [numSubsets] subsets of [numPointsSubset] points, there is a hue
    for every subset, and there is one particle set for every level and
    subset, whose geometry holds the vertices of its subset. *)
Definition wellFormed (h : Hopalong) : Prop :=
  length (Orbit.subsets (orbit h)) = numSubsets h
  /\ Forall (fun sub => length sub = numPointsSubset h)
       (Orbit.subsets (orbit h))
  /\ (numSubsets h <= length (hueValues h))%nat
  /\ length (particleSets h) = (numLevels h * numSubsets h)%nat
  /\ Forall
       (fun ps =>
          (myLevel ps < numLevels h)%nat
          /\ (mySubset ps < numSubsets h)%nat
          /\ vertices (geometry (particles ps)) = mySubset ps)
       (particleSets h)
  /\ NoDup (map (fun ps => (myLevel ps, mySubset ps)) (particleSets h)).

(** No particle set lies beyond the camera. *)
Definition behindCamera (h : Hopalong) : Prop :=
  Forall
    (fun ps =>
       Num.le (position_z (particles ps)) (camera_z (camera h)) = true)
    (particleSets h).

(** ** The rating of the current orbit ([addRating], App.tsx lines 58-67) *)

Module Rating.
Record t : Type := mk { rating : number; params : OrbitParams.t }.
End Rating.

(** The [ratings] array after the call and how the call ends: the query
    is evaluated before the push, so nothing is pushed when it throws. *)
Definition addRating
  (Array_sort :
     (ParticleSet -> ParticleSet -> number) ->
     list ParticleSet -> list ParticleSet)
  (rating : number) (ratings : list Rating.t) (h : Hopalong)
  : list Rating.t * completion unit :=
  match getCurrentOrbitParams Array_sort h with
  | Return p h' => (ratings ++ [Rating.mk rating p], Return tt h')
  | TypeError h' => (ratings, TypeError h')
  end.

(** ** The toolbar of the page (App.tsx lines 30-46) *)

Record AppState : Type := {
  toolbarVisible : bool;
  menuOpen : bool;
  statsOpen : bool
}.

Definition initialApp : AppState :=
  {| toolbarVisible := true; menuOpen := false; statsOpen := false |}.

Inductive appEvent : Type :=
| ShowToolbar
| HideToolbar
| UpdateMenuOpen
| UpdateStatsOpen.

(** [showToolbar] and [hideToolbar] both call [updateToolbarVisible(true)];
    the two toggles apply [invertCurrent]. *)
Definition appStep (e : appEvent) (a : AppState) : AppState :=
  match e with
  | ShowToolbar =>
      {| toolbarVisible := true;
         menuOpen := menuOpen a;
         statsOpen := statsOpen a |}
  | HideToolbar =>
      {| toolbarVisible := true;
         menuOpen := menuOpen a;
         statsOpen := statsOpen a |}
  | UpdateMenuOpen =>
      {| toolbarVisible := toolbarVisible a;
         menuOpen := negb (menuOpen a);
         statsOpen := statsOpen a |}
  | UpdateStatsOpen =>
      {| toolbarVisible := toolbarVisible a;
         menuOpen := menuOpen a;
         statsOpen := negb (statsOpen a) |}
  end.

Fixpoint appRun (l : list appEvent) (a : AppState) : AppState :=
  match l with
  | [] => a
  | e :: l' => appRun l' (appStep e a)
  end.

(** The opacity the toolbar is animated to. *)
Definition toolbarOpacity (a : AppState) : nat :=
  if toolbarVisible a then 1 else 0.

(** ** Properties of states used in the further results *)

(** The camera is at a finite place of the square of half-width
    [CAMERA_BOUND]. *)
Definition inSquare (cam : Camera) : Prop :=
  exists x y : R,
    camera_x cam = Fin x /\ camera_y cam = Fin y
    /\ -200 <= x <= 200 /\ -200 <= y <= 200.


(** The current parameters are the last entry of the history. *)
Definition historyCurrent (h : Hopalong) : Prop :=
  exists earlier, orbitParamHistory h = earlier ++ [orbitParams h].

(** Every read that [render] and [init] make through a particle set finds
    its element: the hue of the set's subset and the vertices of that
    subset. *)
Definition readsDefined (h : Hopalong) : Prop :=
  forall ps,
    In ps (particleSets h) ->
    (exists hue, nth_error (hueValues h) (mySubset ps) = Some hue)
    /\ (exists sub,
           nth_error (Orbit.subsets (orbit h))
             (vertices (geometry (particles ps))) = Some sub
           /\ length sub = numPointsSubset h).


(** The number of regenerations among the calls [l]. *)
Definition regenerations (l : list action) : nat :=
  length
    (filter (fun a => match a with UpdateOrbit _ => true | _ => false end) l).


(** An object with one subset of one point, one level, one hue and the
    particle set of level 0 and subset 0. *)
Definition fittedState : Hopalong :=
  set_hueValues [Fin 0.5]
    (set_particleSets [sampleSet (Fin 0) false exampleParams] blankState).


(** No particle set lies before the depth that a crossing sends it back
    to. *)
Definition aheadOfBack (h : Hopalong) : Prop :=
  Forall
    (fun ps =>
       Num.ge (position_z (particles ps)) (backDepth h) = true)
    (particleSets h).

(** The depth of every particle set is [NaN]. *)
Definition lostSets (h : Hopalong) : Prop :=
  Forall (fun ps => position_z (particles ps) = NaN) (particleSets h).


(** ** [new Hopalong(...)] (lines 142-157)

    The constructor again, now with the fields of the page: after [init],
    whose last steps install the listeners and call [onWindowResize], it
    calls [animate], which renders the first frame; [None] when [init]
    throws.  [innerWidth] and
    [innerHeight] are the window's, [cursorHidden] tells whether the body
    has the class [hideCursor]. *)
Definition newHopalong
  (Math_random : nat -> R) (best_frames : list OrbitParams.t)
  (defaults : Defaults.t)
  (hsvToHsl : option number -> number -> number -> HSL)
  (now : number) (subsetCount levelCount pointsPerSubset : option nat)
  (innerWidth innerHeight : number) (cursorHidden : bool)
  : option Page :=
  match
    init Math_random best_frames defaults hsvToHsl now
      (fresh defaults now subsetCount levelCount pointsPerSubset)
  with
  | Return _ h =>
      Some
        (animate defaults hsvToHsl
           (onWindowResize innerWidth innerHeight
              {| hopalong := h;
                 windowHalfX := (innerWidth / Fin 2)%num;
                 windowHalfY := (innerHeight / Fin 2)%num;
                 destroyed := false;
                 hideCursor := cursorHidden |}))
  | TypeError _ => None
  end.


(** ** The events of the page, in any order

    The listeners that [addEventListeners] installs (lines 258-266), the
    animation frames that [animate] requests, and [destroy].  The interval
    of the regenerations is not among them: [updateOrbit] is a call on the
    object, see [action]. *)

Inductive event : Type :=
| MouseMove (clientX clientY : number)
| TouchMove (touches : list (number * number))
| Resize (innerWidth innerHeight : number)
| KeyDown (key : String.string)
| AnimationFrame
| Destroy.

Section Events.
Variable defaults : Defaults.t.
Variable hsvToHsl : option number -> number -> number -> HSL.
Variable toUpperCase : String.string -> String.string.

Definition handle (e : event) (p : Page) : Page :=
  match e with
  | MouseMove clientX clientY => onDocumentMouseMove clientX clientY p
  | TouchMove touches => onDocumentTouch touches p
  | Resize innerWidth innerHeight => onWindowResize innerWidth innerHeight p
  | KeyDown key => onKeyDown defaults toUpperCase key p
  | AnimationFrame => animate defaults hsvToHsl p
  | Destroy => destroy p
  end.

Fixpoint handleAll (l : list event) (p : Page) : Page :=
  match l with
  | [] => p
  | e :: l' => handleAll l' (handle e p)
  end.
End Events.

(** The event is not a key press. *)
Definition notKey (e : event) : bool :=
  match e with
  | KeyDown _ => false
  | _ => true
  end.

(** A page around the object [h], with the window's centre at (400, 300). *)
Definition pageOf (h : Hopalong) : Page :=
  {| hopalong := h;
     windowHalfX := Fin 400;
     windowHalfY := Fin 300;
     destroyed := false;
     hideCursor := false |}.

(** * Proofs *)

(** ** Facts about numbers *)

Ltac rdecide :=
  repeat match goal with
    | |- context [Rlt_dec ?a ?b] =>
        destruct (Rlt_dec a b); try (exfalso; lra)
    | |- context [Rle_dec ?a ?b] =>
        destruct (Rle_dec a b); try (exfalso; lra)
    | |- context [Req_dec_T ?a ?b] =>
        destruct (Req_dec_T a b); try (exfalso; lra)
    end.

Ltac num_unfold :=
  unfold Num.ge, Num.gt, Num.le, Num.lt, Num.eq, Num.sub, Num.add, Num.mul,
    Num.div, Num.neg, Num.abs, Num.sqrt, Num.log, Num.falsy,
    Rltb, Rleb, Reqb in *.

Lemma Rltb_true (x y : R) : Rltb x y = true <-> x < y.
Proof. unfold Rltb; destruct (Rlt_dec x y); split; auto; discriminate. Qed.

Lemma Rltb_false (x y : R) : Rltb x y = false <-> y <= x.
Proof.
  unfold Rltb; destruct (Rlt_dec x y); split; auto; try discriminate; lra.
Qed.

Lemma Rleb_true (x y : R) : Rleb x y = true <-> x <= y.
Proof. unfold Rleb; destruct (Rle_dec x y); split; auto; discriminate. Qed.

Lemma Rleb_false (x y : R) : Rleb x y = false <-> y < x.
Proof.
  unfold Rleb; destruct (Rle_dec x y); split; auto; try discriminate; lra.
Qed.

Lemma Reqb_true (x y : R) : Reqb x y = true <-> x = y.
Proof. unfold Reqb; destruct (Req_dec_T x y); split; auto; discriminate. Qed.

Lemma Reqb_false_iff (x y : R) : Reqb x y = false <-> x <> y.
Proof.
  unfold Reqb; destruct (Req_dec_T x y); split; auto; try discriminate.
  intros Hne. contradiction.
Qed.

Lemma sqrt_fin (r : R) : 0 <= r -> Num.sqrt (Fin r) = Fin (sqrt r).
Proof. intros Hr; unfold Num.sqrt; rdecide; reflexivity. Qed.

Lemma sqrt_abs_fin (r : R) : Num.sqrt (Num.abs (Fin r)) = Fin (sqrt (Rabs r)).
Proof. apply sqrt_fin, Rabs_pos. Qed.

Lemma log_fin (r : R) : 0 < r -> Num.log (Fin r) = Fin (ln r).
Proof. intros Hr; unfold Num.log; rdecide; reflexivity. Qed.

Lemma sqrt_8_bounds : 2.828 < sqrt 8 < 2.829.
Proof.
  split.
  - rewrite <- (sqrt_square 2.828) by lra. apply sqrt_lt_1; lra.
  - rewrite <- (sqrt_square 2.829) by lra. apply sqrt_lt_1; lra.
Qed.

(** ** The iteration formula *)

Section IterationFacts.
Import OrbitParams.
Local Open Scope num_scope.

Lemma iter_z_branches (p : OrbitParams.t) (x : number) :
  let m := Num.abs (b p * x - c p) in
  ((choice p <? Fin 0.5) = true -> iter_z p x = d p + Num.sqrt m)
  /\ ((choice p >=? Fin 0.5) = true -> (choice p <? Fin 0.75) = true ->
      iter_z p x = d p + Num.sqrt (Num.sqrt m))
  /\ ((choice p >=? Fin 0.75) = true ->
      iter_z p x = d p + Num.log (Fin 2 + Num.sqrt m)).
Proof.
  unfold iter_z. cbv zeta. repeat split.
  - intros ->. reflexivity.
  - intros Hge Hlt. rewrite Hlt.
    destruct (choice p); simpl in *; try discriminate.
    apply Rleb_true in Hge.
    destruct (Rltb r 0.5) eqn:E; [apply Rltb_true in E; lra | reflexivity].
  - intros Hge.
    destruct (choice p); simpl in *; try discriminate; try reflexivity.
    apply Rleb_true in Hge.
    destruct (Rltb r 0.5) eqn:E1; [apply Rltb_true in E1; lra |].
    destruct (Rltb r 0.75) eqn:E2; [apply Rltb_true in E2; lra |].
    reflexivity.
Qed.

Lemma iter_x1_branches (x y z : number) :
  ((x >? Fin 0) = true -> iter_x1 x y z = y - z)
  /\ ((x ==? Fin 0) = true -> iter_x1 x y z = y)
  /\ ((x <? Fin 0) = true -> iter_x1 x y z = y + z).
Proof.
  unfold iter_x1. repeat split.
  - intros ->. reflexivity.
  - intros Heq. rewrite Heq.
    destruct x; simpl in *; try discriminate.
    apply Reqb_true in Heq. subst r.
    destruct (Rltb 0 0) eqn:E; [apply Rltb_true in E; lra | reflexivity].
  - intros Hlt.
    destruct x; simpl in *; try discriminate; try reflexivity.
    apply Rltb_true in Hlt.
    destruct (Rltb 0 r) eqn:E1; [apply Rltb_true in E1; lra |].
    destruct (Reqb r 0) eqn:E2; [apply Reqb_true in E2; lra |].
    reflexivity.
Qed.

Lemma example_z : iter_z exampleParams (Fin 2) = Fin (sqrt 8).
Proof.
  unfold iter_z, exampleParams; simpl.
  destruct (Rltb 0.3 0.5) eqn:E; [| apply Rltb_false in E; lra].
  replace (Rabs (1 * 2 + - (10))) with 8%R
    by (rewrite Rabs_left; lra).
  rdecide. f_equal. lra.
Qed.

Lemma example_step :
  iterate exampleParams (Fin 2, Fin 0) = (Fin (- sqrt 8), Fin (-1)).
Proof.
  unfold iterate. rewrite example_z.
  unfold iter_x1, exampleParams; simpl.
  destruct (Rltb 0 2) eqn:E; [| apply Rltb_false in E; lra].
  simpl. f_equal; f_equal; lra.
Qed.

(** C1.  One pass of the iteration formula: [z] is [d] plus the square
    root, the fourth root, or [log(2 + sqrt)] of [|b*x - c|] according to
    [choice < 0.5], [0.5 <= choice < 0.75], [choice >= 0.75]; [x1] is
    [y - z], [y], [y + z] according to [x > 0], [x == 0], [x < 0]; the new
    point is [(x1 + e, a - x)].  On the worked example (choice 0.3, a = 1,
    b = 1, c = 10, d = 0, e = 0, from (2, 0)) this gives z = sqrt 8 =
    2.828..., x1 = x' = -sqrt 8 and y' = -1. *)
Theorem iterate_formula :
  (forall (p : OrbitParams.t) (x y : number),
      let m := Num.abs (b p * x - c p) in
      let z := iter_z p x in
      let x1 := iter_x1 x y z in
      ((choice p <? Fin 0.5) = true -> z = d p + Num.sqrt m)
      /\ ((choice p >=? Fin 0.5) = true -> (choice p <? Fin 0.75) = true ->
          z = d p + Num.sqrt (Num.sqrt m))
      /\ ((choice p >=? Fin 0.75) = true ->
          z = d p + Num.log (Fin 2 + Num.sqrt m))
      /\ ((x >? Fin 0) = true -> x1 = y - z)
      /\ ((x ==? Fin 0) = true -> x1 = y)
      /\ ((x <? Fin 0) = true -> x1 = y + z)
      /\ iterate p (x, y) = (x1 + e p, a p - x))
  /\ iter_z exampleParams (Fin 2) = Fin (sqrt 8)
  /\ (2.828 < sqrt 8 < 2.829)%R
  /\ iter_x1 (Fin 2) (Fin 0) (Fin (sqrt 8)) = Fin (- sqrt 8)
  /\ iterate exampleParams (Fin 2, Fin 0) = (Fin (- sqrt 8), Fin (-1)).
Proof.
  split; [| split; [| split; [| split]]].
  - intros p x y m z x1.
    destruct (iter_z_branches p x) as (Hz1 & Hz2 & Hz3).
    destruct (iter_x1_branches x y z) as (Hx1 & Hx2 & Hx3).
    repeat split; auto.
  - exact example_z.
  - exact sqrt_8_bounds.
  - unfold iter_x1; simpl.
    destruct (Rltb 0 2) eqn:E; [| apply Rltb_false in E; lra].
    simpl. f_equal. lra.
  - exact example_step.
Qed.
End IterationFacts.

(** ** Parameter selection *)

Section Selection.
Variable Math_random : nat -> R.
Variable best_frames : list OrbitParams.t.
Variable now : number.

Lemma draw_in_range (r lo hi : R) :
  0 <= r < 1 -> lo <= hi -> lo <= lo + r * (hi + - lo) <= hi.
Proof. intros Hr Hle. nra. Qed.

(** C8.  In randomized mode a selection returns, and the parameters it
    installs have a in [-30,30], b in [0.2,1.8], c in [5,17], d in [0,10],
    e in [0,12] and choice, xPreset, yPreset in [0,1), whatever values in
    [0,1) the calls to [Math.random] return. *)
Theorem randomized_params_in_range :
  forall h : Hopalong,
    (forall k, 0 <= Math_random k < 1) ->
    vibeCheck h = false ->
    exists h' ra rb rc rd re rch rx ry,
      shuffleParams Math_random best_frames now h = Return tt h'
      /\ orbitParams h'
         = OrbitParams.mk (Fin ra) (Fin rb) (Fin rc) (Fin rd) (Fin re)
             (Fin rch) (Fin rx) (Fin ry) (Some now)
      /\ -30 <= ra <= 30 /\ 0.2 <= rb <= 1.8 /\ 5 <= rc <= 17
      /\ 0 <= rd <= 10 /\ 0 <= re <= 12
      /\ 0 <= rch < 1 /\ 0 <= rx < 1 /\ 0 <= ry < 1.
Proof.
  intros h Hrand Hmode.
  unfold shuffleParams. rewrite Hmode.
  eexists. do 8 eexists.
  split; [reflexivity |].
  split; [reflexivity |].
  repeat split;
    try apply Hrand;
    try (apply draw_in_range; [apply Hrand | lra]).
Qed.

(** *** Curated mode *)

Lemma skipn_cons_nth {A : Type} (l : list A) (i : nat) (x : A) :
  nth_error l i = Some x -> skipn i l = x :: skipn (S i) l.
Proof.
  revert i; induction l as [| y l IH]; intros [| i] H; simpl in *;
    try discriminate.
  - injection H as ->. reflexivity.
  - apply IH in H. rewrite H. reflexivity.
Qed.

(** A selection with the cursor on an entry of the catalog installs that
    entry and moves the cursor on by one. *)
Lemma shuffle_inside (h : Hopalong) (p : OrbitParams.t) :
  vibeCheck h = true ->
  nth_error best_frames (currentFrame h) = Some p ->
  shuffleParams Math_random best_frames now h
  = Return tt
      (pushHistory
         (set_orbitParams p (set_currentFrame (S (currentFrame h)) h))).
Proof.
  intros Hmode Hp. unfold shuffleParams, nextFrame. rewrite Hmode.
  assert (Hlt : (currentFrame h < length best_frames)%nat)
    by (apply nth_error_Some; congruence).
  destruct (Nat.ltb_spec (length best_frames) (currentFrame h)); [lia |].
  rewrite Hp. reflexivity.
Qed.

(** With the cursor equal to the length of the catalog the guard
    [currentFrame > best_frames.length] does not fire: the index is out of
    range and the read of [.params] throws, the cursor already moved. *)
Lemma shuffle_at_length (h : Hopalong) :
  vibeCheck h = true ->
  currentFrame h = length best_frames ->
  shuffleParams Math_random best_frames now h
  = TypeError (set_currentFrame (S (length best_frames)) h).
Proof.
  intros Hmode Hc. unfold shuffleParams, nextFrame. rewrite Hmode, Hc.
  rewrite Nat.ltb_irrefl.
  assert (Hnone : nth_error best_frames (length best_frames) = None)
    by (apply nth_error_None; lia).
  rewrite Hnone. reflexivity.
Qed.

(** With the cursor beyond the length the guard fires: index 0 is read
    and the cursor stays at 0. *)
Lemma shuffle_beyond_length (h : Hopalong) (p : OrbitParams.t) :
  vibeCheck h = true ->
  (length best_frames < currentFrame h)%nat ->
  nth_error best_frames 0 = Some p ->
  shuffleParams Math_random best_frames now h
  = Return tt (pushHistory (set_orbitParams p (set_currentFrame 0 h))).
Proof.
  intros Hmode Hc Hp. unfold shuffleParams, nextFrame. rewrite Hmode.
  destruct (Nat.ltb_spec (length best_frames) (currentFrame h)); [| lia].
  rewrite Hp. reflexivity.
Qed.

(** [n] selections that stay inside the catalog all return; they append
    the entries under the cursor to the history, in order. *)
Lemma selectMany_inside (n : nat) :
  forall h : Hopalong,
    vibeCheck h = true ->
    (currentFrame h + n <= length best_frames)%nat ->
    exists h',
      selectMany Math_random best_frames n now h = Return tt h'
      /\ vibeCheck h' = true
      /\ currentFrame h' = (currentFrame h + n)%nat
      /\ orbitParamHistory h'
         = orbitParamHistory h
             ++ firstn n (skipn (currentFrame h) best_frames).
Proof.
  induction n as [| n IH]; intros h Hmode Hle.
  - exists h. simpl. rewrite Nat.add_0_r, app_nil_r. auto.
  - destruct (nth_error best_frames (currentFrame h)) as [p |] eqn:Hp;
      [| apply nth_error_None in Hp; lia].
    simpl. rewrite (shuffle_inside h p Hmode Hp). simpl.
    destruct (IH (pushHistory
                    (set_orbitParams p
                       (set_currentFrame (S (currentFrame h)) h))))
      as (h' & Hrun & Hmode' & Hc' & Hhist).
    + exact Hmode.
    + simpl. lia.
    + exists h'. split; [exact Hrun |]. split; [exact Hmode' |].
      split; [simpl in Hc'; lia |].
      rewrite Hhist. simpl.
      rewrite (skipn_cons_nth best_frames (currentFrame h) p Hp).
      simpl. rewrite <- app_assoc. simpl.
      destruct h; reflexivity.
Qed.

(** C3 (what the code does).  In curated mode, from cursor 0, the first K
    selections return and read the entries 0..K-1 of the catalog in order;
    selection K+1 finds the cursor equal to K, which the guard
    [currentFrame > best_frames.length] lets through: it reads index K,
    outside the catalog, and throws, leaving the cursor at K+1 and the
    parameters and the history as the K-th selection left them. *)
Theorem curated_selection_overruns :
  forall h : Hopalong,
    vibeCheck h = true ->
    currentFrame h = 0%nat ->
    exists h',
      selectMany Math_random best_frames (length best_frames) now h
      = Return tt h'
      /\ orbitParamHistory h' = orbitParamHistory h ++ best_frames
      /\ currentFrame h' = length best_frames
      /\ nth_error best_frames (currentFrame h') = None
      /\ selectMany Math_random best_frames (S (length best_frames)) now h
         = TypeError (set_currentFrame (S (length best_frames)) h').
Proof.
  intros h Hmode Hc.
  destruct (selectMany_inside (length best_frames) h Hmode)
    as (h' & Hrun & Hmode' & Hc' & Hhist); [lia |].
  rewrite Hc in Hc', Hhist. simpl in Hc', Hhist.
  rewrite firstn_all in Hhist.
  exists h'. repeat split; auto.
  - rewrite Hc'. apply nth_error_None. lia.
  - clear Hhist. revert h h' Hmode Hc Hrun Hmode' Hc'.
    assert (Hgen : forall n h h',
               selectMany Math_random best_frames n now h = Return tt h' ->
               selectMany Math_random best_frames (S n) now h
               = andThen (Return tt h')
                   (fun _ => shuffleParams Math_random best_frames now)).
    { induction n as [| n IH]; intros h h' Hrun.
      - simpl in Hrun. injection Hrun as <-. simpl.
        destruct (shuffleParams Math_random best_frames now h)
          as [[] h1 | h1]; reflexivity.
      - change (selectMany Math_random best_frames (S (S n)) now h)
          with (andThen (shuffleParams Math_random best_frames now h)
                  (fun _ h1 =>
                     selectMany Math_random best_frames (S n) now h1)).
        simpl in Hrun.
        destruct (shuffleParams Math_random best_frames now h)
          as [[] h1 | h1]; simpl in *; [| discriminate].
        apply IH. exact Hrun. }
    intros h h' Hmode Hc Hrun Hmode' Hc'.
    rewrite (Hgen _ _ _ Hrun). simpl.
    apply shuffle_at_length; assumption.
Qed.

End Selection.

Lemma randomized_params_in_range_witness :
  exists h' ra rb rc rd re rch rx ry,
    shuffleParams halves catalog2 (Fin 5) (set_vibeCheck false blankState)
    = Return tt h'
    /\ orbitParams h'
       = OrbitParams.mk (Fin ra) (Fin rb) (Fin rc) (Fin rd) (Fin re)
           (Fin rch) (Fin rx) (Fin ry) (Some (Fin 5))
    /\ -30 <= ra <= 30 /\ 0.2 <= rb <= 1.8 /\ 5 <= rc <= 17
    /\ 0 <= rd <= 10 /\ 0 <= re <= 12
    /\ 0 <= rch < 1 /\ 0 <= rx < 1 /\ 0 <= ry < 1.
Proof.
  apply (randomized_params_in_range halves catalog2 (Fin 5)
           (set_vibeCheck false blankState)).
  - intros k. unfold halves. lra.
  - reflexivity.
Defined.

Lemma curated_selection_overruns_witness :
  exists h',
    selectMany halves catalog2 2 (Fin 5) blankState = Return tt h'
    /\ orbitParamHistory h' = orbitParamHistory blankState ++ catalog2
    /\ currentFrame h' = 2%nat
    /\ nth_error catalog2 (currentFrame h') = None
    /\ selectMany halves catalog2 3 (Fin 5) blankState
       = TypeError (set_currentFrame 3 h').
Proof.
  apply (curated_selection_overruns halves catalog2 (Fin 5) blankState);
    reflexivity.
Defined.

(** ** Settings *)

Section SettingsFacts.
Local Open Scope num_scope.

Lemma ge_zero_refl : (Fin 0 >=? Fin 0) = true.
Proof. apply Rleb_true. lra. Qed.

(** [changeSpeed] installs the sum when it is [>= 0] and 0 otherwise, so
    the speed it leaves is never below 0 (whatever the speed before and
    the delta, non-finite values included). *)
Lemma changeSpeed_clamps (delta : number) (h : Hopalong) :
  speed (changeSpeed delta h)
  = (if speed h + delta >=? Fin 0 then speed h + delta else Fin 0)
  /\ (speed (changeSpeed delta h) >=? Fin 0) = true.
Proof.
  unfold changeSpeed.
  destruct (speed h + delta >=? Fin 0) eqn:E; simpl; split; auto.
  apply ge_zero_refl.
Qed.

(** C7 (what the code does).  [changeSpeed] clamps at 0 and
    [resetDefaults] installs the default speed, but [applySettings]
    assigns the speed of the patch as it is: with [speed: -1] it leaves a
    speed of -1, below 0, from every state. *)
Theorem applySettings_speed_unclamped :
  (forall (delta : number) (h : Hopalong),
      speed (changeSpeed delta h)
      = (if speed h + delta >=? Fin 0 then speed h + delta else Fin 0)
      /\ (speed (changeSpeed delta h) >=? Fin 0) = true)
  /\ (forall (defaults : Defaults.t) (h : Hopalong),
         speed (resetDefaults defaults h) = Defaults.speed defaults)
  /\ (forall (v : number) (r : option number) (l : option bool)
        (f : option number) (h : Hopalong),
         speed (applySettings (Build_SettingsPatch (Some v) r l f) h) = v)
  /\ (forall h : Hopalong,
         let h' :=
           applySettings
             (Build_SettingsPatch (Some (Fin (-1))) None None None) h in
         speed h' = Fin (-1)
         /\ (speed h' <? Fin 0) = true
         /\ (speed h' >=? Fin 0) = false).
Proof.
  split; [| split; [| split]].
  - intros delta h. apply changeSpeed_clamps.
  - intros defaults h. reflexivity.
  - intros v [r |] [l |] [f |] h; reflexivity.
  - intros h. cbv zeta. simpl. repeat split.
    + apply Rltb_true. lra.
    + apply Rleb_false. lra.
Qed.

End SettingsFacts.

(** ** The level cycler *)

Section Cycler.
Local Open Scope num_scope.
Variable defaults : Defaults.t.
Variable hsvToHsl : option number -> number -> number -> HSL.

(** One frame changes, of what a particle set's step reads, nothing. *)
Lemma renderSet_ext (h1 h2 : Hopalong) (ps : ParticleSet) :
  speed h1 = speed h2 ->
  rotationSpeed h1 = rotationSpeed h2 ->
  camera_z (camera h1) = camera_z (camera h2) ->
  numLevels h1 = numLevels h2 ->
  hueValues h1 = hueValues h2 ->
  orbitParams h1 = orbitParams h2 ->
  renderSet defaults hsvToHsl h1 ps = renderSet defaults hsvToHsl h2 ps.
Proof.
  intros Hs Hr Hc Hn Hh Ho.
  unfold renderSet, backDepth, hueColor.
  rewrite Hs, Hr, Hc, Hn, Hh, Ho. reflexivity.
Qed.

Lemma render_sets (h : Hopalong) :
  particleSets (render defaults hsvToHsl h)
  = map (renderSet defaults hsvToHsl h) (particleSets h).
Proof.
  unfold render. simpl. apply map_ext. intros ps.
  apply renderSet_ext; reflexivity.
Qed.

(** What a frame leaves alone. *)
Lemma render_frame (h : Hopalong) :
  let h' := render defaults hsvToHsl h in
  speed h' = speed h /\ rotationSpeed h' = rotationSpeed h
  /\ camera_z (camera h') = camera_z (camera h)
  /\ numLevels h' = numLevels h /\ hueValues h' = hueValues h
  /\ orbitParams h' = orbitParams h.
Proof. repeat split. Qed.

Lemma frames_sets (n : nat) :
  forall (h : Hopalong) (i : nat),
    nth_error (particleSets (frames defaults hsvToHsl n h)) i
    = option_map (Nat.iter n (renderSet defaults hsvToHsl h))
        (nth_error (particleSets h) i).
Proof.
  induction n as [| n IH]; intros h i.
  - simpl. destruct (nth_error (particleSets h) i); reflexivity.
  - simpl frames. rewrite IH, render_sets, nth_error_map.
    destruct (nth_error (particleSets h) i) as [ps |]; [| reflexivity].
    simpl option_map. f_equal.
    change (renderSet defaults hsvToHsl h
              (Nat.iter n (renderSet defaults hsvToHsl h) ps))
      with (Nat.iter (S n) (renderSet defaults hsvToHsl h) ps).
    rewrite Nat.iter_succ_r.
    assert (Hext : forall q,
               renderSet defaults hsvToHsl (render defaults hsvToHsl h) q
               = renderSet defaults hsvToHsl h q)
      by (intros q; apply renderSet_ext; reflexivity).
    generalize (renderSet defaults hsvToHsl h ps). intros q.
    clear IH. induction n as [| n IHn]; simpl; [reflexivity |].
    rewrite IHn. apply Hext.
Qed.

(** The step of one particle set: depth and spin advance; the depth is
    reset exactly when the advanced depth exceeds the camera's. *)
Lemma renderSet_motion (h : Hopalong) (ps : ParticleSet) :
  let ps' := renderSet defaults hsvToHsl h ps in
  let z1 := position_z (particles ps) + speed h in
  rotation_z (particles ps') = rotation_z (particles ps) + rotationSpeed h
  /\ ((z1 >? camera_z (camera h)) = true ->
      position_z (particles ps') = backDepth h)
  /\ ((z1 >? camera_z (camera h)) = false ->
      position_z (particles ps') = z1).
Proof.
  unfold renderSet. cbv zeta.
  destruct (position_z (particles ps) + speed h >? camera_z (camera h));
    destruct (needsUpdate ps); simpl; repeat split; auto; discriminate.
Qed.

Lemma renderSet_subset (h : Hopalong) (ps : ParticleSet) :
  mySubset (renderSet defaults hsvToHsl h ps) = mySubset ps.
Proof.
  unfold renderSet.
  destruct (position_z (particles ps) + speed h >? camera_z (camera h));
    destruct (needsUpdate ps); reflexivity.
Qed.

(** The scenario of the specification, for one particle set. *)
Lemma approach (h : Hopalong) (k : nat) :
  speed h = Fin 2 ->
  camera_z (camera h) = Fin 750 ->
  forall (j : nat) (ps : ParticleSet),
    (j <= k)%nat ->
    position_z (particles ps) = Fin (750 - 2 * INR k) ->
    position_z (particles (Nat.iter j (renderSet defaults hsvToHsl h) ps))
    = Fin (750 - 2 * INR k + 2 * INR j).
Proof.
  intros Hs Hc. induction j as [| j IH]; intros ps Hj Hz.
  - simpl. rewrite Hz. f_equal. lra.
  - simpl Nat.iter.
    specialize (IH ps ltac:(lia) Hz).
    destruct (renderSet_motion h
                (Nat.iter j (renderSet defaults hsvToHsl h) ps))
      as (_ & _ & Hstay).
    rewrite Hstay.
    + rewrite IH, Hs. unfold Num.add. f_equal. rewrite S_INR. lra.
    + rewrite IH, Hs, Hc. unfold Num.add, Num.gt, Num.lt.
      apply Rltb_false.
      assert (Hle : (INR (S j) <= INR k)%R) by (apply le_INR; lia).
      rewrite S_INR in Hle. lra.
Qed.

(** The back depth, computed. *)
Lemma backDepth_formula (h : Hopalong) :
  backDepth h = Fin (- (INR (numLevels h) - 1) * 600).
Proof.
  unfold backDepth, LEVEL_DEPTH.
  unfold Num.sub, Num.neg, Num.add, Num.mul. reflexivity.
Qed.

Lemma backDepth_3 (h : Hopalong) :
  numLevels h = 3%nat -> backDepth h = Fin (-1200).
Proof.
  intros Hn. unfold backDepth, LEVEL_DEPTH. rewrite Hn.
  unfold Num.sub, Num.neg, Num.add, Num.mul. f_equal. simpl INR. lra.
Qed.

(** C5.  In one frame every particle set advances its depth by the speed
    and its spin by the rotation speed; it crosses exactly when the
    advanced depth exceeds the camera's depth, and is then sent back to
    [-(numLevels - 1) * LEVEL_DEPTH], that is to [-(numLevels - 1) * 600],
    whatever the number of levels.  With speed 2, three levels and the
    camera at 750, a set at depth [750 - 2k] is at [750 - 2k + 2j] after
    [j <= k] frames, so at 750 after exactly [k] frames, where the next
    frame crosses and resets it to -1200. *)
Theorem level_cycle_tick :
  (forall (h : Hopalong) (ps : ParticleSet),
      let ps' := renderSet defaults hsvToHsl h ps in
      let z1 := position_z (particles ps) + speed h in
      rotation_z (particles ps')
      = rotation_z (particles ps) + rotationSpeed h
      /\ ((z1 >? camera_z (camera h)) = true ->
          position_z (particles ps')
          = Fin (- (INR (numLevels h) - 1) * 600))
      /\ ((z1 >? camera_z (camera h)) = false ->
          position_z (particles ps') = z1))
  /\ (forall h : Hopalong,
         particleSets (render defaults hsvToHsl h)
         = map (renderSet defaults hsvToHsl h) (particleSets h))
  /\ (forall (h : Hopalong) (i k : nat) (ps : ParticleSet),
         speed h = Fin 2 ->
         numLevels h = 3%nat ->
         camera_z (camera h) = Fin 750 ->
         nth_error (particleSets h) i = Some ps ->
         position_z (particles ps) = Fin (750 - 2 * INR k) ->
         (forall j : nat,
             (j <= k)%nat ->
             exists q,
               nth_error (particleSets (frames defaults hsvToHsl j h)) i
               = Some q
               /\ position_z (particles q)
                  = Fin (750 - 2 * INR k + 2 * INR j))
         /\ (exists q,
               nth_error (particleSets (frames defaults hsvToHsl k h)) i
               = Some q
               /\ position_z (particles q) = Fin 750
               /\ (position_z (particles q) + speed h
                   >? camera_z (camera h)) = true)
         /\ (exists q,
               nth_error
                 (particleSets (frames defaults hsvToHsl (S k) h)) i
               = Some q
               /\ position_z (particles q) = Fin (-1200))).
Proof.
  split; [| split; [exact render_sets |]].
  { intros h ps. cbv zeta.
    destruct (renderSet_motion h ps) as (Hspin & Hback & Hon).
    split; [exact Hspin |]. split; [| exact Hon].
    intros Hx. rewrite (Hback Hx). apply backDepth_formula. }
  intros h i k ps Hs Hn Hc Hi Hz.
  assert (Hat : forall j : nat,
             (j <= k)%nat ->
             nth_error (particleSets (frames defaults hsvToHsl j h)) i
             = Some (Nat.iter j (renderSet defaults hsvToHsl h) ps)
             /\ position_z
                  (particles (Nat.iter j (renderSet defaults hsvToHsl h) ps))
                = Fin (750 - 2 * INR k + 2 * INR j)).
  { intros j Hj. split.
    - rewrite frames_sets, Hi. reflexivity.
    - apply approach; assumption. }
  assert (Hk : position_z
                 (particles (Nat.iter k (renderSet defaults hsvToHsl h) ps))
               = Fin 750).
  { destruct (Hat k (le_n k)) as (_ & ->). f_equal. lra. }
  split; [| split].
  - intros j Hj. destruct (Hat j Hj) as (Hnth & Hpos). eauto.
  - exists (Nat.iter k (renderSet defaults hsvToHsl h) ps).
    destruct (Hat k (le_n k)) as (Hnth & _).
    repeat split; auto.
    rewrite Hk, Hs, Hc. apply Rltb_true. lra.
  - exists (Nat.iter (S k) (renderSet defaults hsvToHsl h) ps). split.
    + rewrite frames_sets, Hi. reflexivity.
    + simpl Nat.iter.
      destruct (renderSet_motion h
                  (Nat.iter k (renderSet defaults hsvToHsl h) ps))
        as (_ & Hback & _).
      rewrite Hback.
      * apply backDepth_3. exact Hn.
      * rewrite Hk, Hs, Hc. apply Rltb_true. lra.
Qed.

End Cycler.

Lemma level_cycle_tick_witness :
  exists q3 q4,
    nth_error (particleSets (frames someDefaults plainHsl 3 cycleState)) 0
    = Some q3
    /\ position_z (particles q3) = Fin 750
    /\ nth_error (particleSets (frames someDefaults plainHsl 4 cycleState)) 0
       = Some q4
    /\ position_z (particles q4) = Fin (-1200).
Proof.
  destruct (proj2 (proj2 (level_cycle_tick someDefaults plainHsl))
              cycleState 0%nat 3%nat
              (sampleSet (Fin (750 - 2 * INR 3)) true exampleParams)
              eq_refl eq_refl eq_refl eq_refl eq_refl)
    as (_ & (q3 & H3 & Hz3 & _) & (q4 & H4 & Hz4)).
  exists q3, q4. auto.
Defined.

(** ** The repaint flag *)

Section Repaint.
Local Open Scope num_scope.
Variable Math_random : nat -> R.
Variable best_frames : list OrbitParams.t.
Variable defaults : Defaults.t.
Variable hsvToHsl : option number -> number -> number -> HSL.

(** A regeneration that gets its parameters completes. *)
Lemma updateOrbit_returns (now : number) (h h1 : Hopalong) :
  shuffleParams Math_random best_frames now h = Return tt h1 ->
  exists h',
    updateOrbit Math_random best_frames now h = Return tt h'
    /\ orbitParams h' = orbitParams h1
    /\ particleSets h' = map flag (particleSets h).
Proof.
  intros Hsel.
  assert (Hsets : particleSets h1 = particleSets h).
  { unfold shuffleParams in Hsel.
    destruct (vibeCheck h).
    - destruct (nextFrame best_frames (currentFrame h)) as [index cursor].
      destruct (nth_error best_frames index); [| discriminate].
      injection Hsel as <-. reflexivity.
    - injection Hsel as <-. reflexivity. }
  unfold updateOrbit, generateOrbit, prepareOrbit. rewrite Hsel. simpl.
  destruct (computeOrbit _ _ _ _ _) as [o calls]. simpl.
  eexists. split; [reflexivity |]. simpl. rewrite Hsets. auto.
Qed.

(** A regeneration that does not get its parameters flags nothing. *)
Lemma updateOrbit_throws (now : number) (h h1 : Hopalong) :
  shuffleParams Math_random best_frames now h = TypeError h1 ->
  updateOrbit Math_random best_frames now h = TypeError h1.
Proof.
  intros Hsel. unfold updateOrbit, generateOrbit, prepareOrbit.
  rewrite Hsel. reflexivity.
Qed.

Lemma flag_all (l : list ParticleSet) :
  Forall (fun ps => needsUpdate ps = true) (map flag l).
Proof. induction l; simpl; constructor; auto. Qed.

(** The step of a flagged particle set: the flag falls exactly when the
    set crosses, and then the set adopts what is current. *)
Lemma renderSet_flagged (h : Hopalong) (ps : ParticleSet) :
  needsUpdate ps = true ->
  let ps' := renderSet defaults hsvToHsl h ps in
  (crosses h ps = true ->
   needsUpdate ps' = false /\ adopts defaults hsvToHsl h ps ps')
  /\ (crosses h ps = false ->
      needsUpdate ps' = true
      /\ myMaterial ps' = myMaterial ps
      /\ params ps' = params ps
      /\ geometry (particles ps') = geometry (particles ps)).
Proof.
  intros Hflag. unfold renderSet, crosses, adopts. cbv zeta.
  rewrite Hflag.
  destruct (position_z (particles ps) + speed h >? camera_z (camera h));
    simpl; split; intros; try discriminate; repeat split; auto.
Qed.

(** The step of a particle set that is not flagged repaints nothing. *)
Lemma renderSet_unflagged (h : Hopalong) (ps : ParticleSet) :
  needsUpdate ps = false ->
  let ps' := renderSet defaults hsvToHsl h ps in
  needsUpdate ps' = false
  /\ myMaterial ps' = myMaterial ps
  /\ params ps' = params ps
  /\ geometry (particles ps') = geometry (particles ps).
Proof.
  intros Hflag. unfold renderSet. cbv zeta. rewrite Hflag.
  destruct (position_z (particles ps) + speed h >? camera_z (camera h));
    simpl; repeat split; auto.
Qed.

(** A flagged set that has not crossed yet is still flagged. *)
Lemma flag_waits (h : Hopalong) (ps : ParticleSet) (n : nat) :
  needsUpdate ps = true ->
  (forall j : nat,
      (j < n)%nat ->
      crosses h (Nat.iter j (renderSet defaults hsvToHsl h) ps) = false) ->
  needsUpdate (Nat.iter n (renderSet defaults hsvToHsl h) ps) = true.
Proof.
  intros Hflag. induction n as [| n IH]; intros Hno; [exact Hflag |].
  simpl Nat.iter.
  destruct (renderSet_flagged h
              (Nat.iter n (renderSet defaults hsvToHsl h) ps))
    as (_ & Hstay).
  - apply IH. intros j Hj. apply Hno. lia.
  - apply Hstay. apply Hno. lia.
Qed.

(** C6.  A regeneration that completes flags every particle set; it
    completes whenever the selection of parameters does, which is always
    the case in randomized mode.  In a frame, a flagged set
    loses its flag exactly when it crosses, and in that same step it
    adopts the current vertices, hue and parameters; a set that is not
    flagged stays so.  Over the frames that follow, a flagged set keeps
    its flag as long as it has not crossed, and the frame of its first
    crossing clears the flag and adopts. *)
Theorem repaint_flag_protocol :
  (forall (now : number) (h h' : Hopalong),
      updateOrbit Math_random best_frames now h = Return tt h' ->
      Forall (fun ps => needsUpdate ps = true) (particleSets h')
      /\ length (particleSets h') = length (particleSets h))
  /\ (forall (now : number) (h h1 : Hopalong),
         shuffleParams Math_random best_frames now h = Return tt h1 ->
         exists h',
           updateOrbit Math_random best_frames now h = Return tt h'
           /\ orbitParams h' = orbitParams h1
           /\ particleSets h' = map flag (particleSets h))
  /\ (forall (now : number) (h : Hopalong),
         vibeCheck h = false ->
         exists h', updateOrbit Math_random best_frames now h = Return tt h')
  /\ (forall (h : Hopalong) (ps : ParticleSet),
         let ps' := renderSet defaults hsvToHsl h ps in
         (needsUpdate ps = true -> crosses h ps = true ->
          needsUpdate ps' = false /\ adopts defaults hsvToHsl h ps ps')
         /\ (needsUpdate ps = true -> crosses h ps = false ->
             needsUpdate ps' = true)
         /\ (needsUpdate ps = false -> needsUpdate ps' = false)
         /\ (needsUpdate ps = true -> needsUpdate ps' = false ->
             crosses h ps = true /\ adopts defaults hsvToHsl h ps ps'))
  /\ (forall (h : Hopalong) (i n : nat) (ps : ParticleSet),
         nth_error (particleSets h) i = Some ps ->
         needsUpdate ps = true ->
         (forall j : nat,
             (j < n)%nat ->
             crosses h (Nat.iter j (renderSet defaults hsvToHsl h) ps)
             = false) ->
         exists q,
           nth_error (particleSets (frames defaults hsvToHsl n h)) i
           = Some q
           /\ needsUpdate q = true
           /\ (crosses h q = true ->
               exists q',
                 nth_error
                   (particleSets (frames defaults hsvToHsl (S n) h)) i
                 = Some q'
                 /\ needsUpdate q' = false
                 /\ adopts defaults hsvToHsl h q q')).
Proof.
  split; [| split; [exact updateOrbit_returns | split; [| split]]].
  - intros now h h' Hrun.
    destruct (shuffleParams Math_random best_frames now h)
      as [[] h1 | h1] eqn:Hsel.
    + destruct (updateOrbit_returns now h h1 Hsel) as (h2 & Hrun2 & _ & Hs).
      rewrite Hrun in Hrun2. injection Hrun2 as <-. rewrite Hs. split.
      * apply flag_all.
      * apply length_map.
    + rewrite (updateOrbit_throws now h h1 Hsel) in Hrun. discriminate.
  - intros now h Hmode.
    destruct (updateOrbit_returns now h
                (pushHistory
                   (set_orbitParams (randomParams Math_random now (randomCalls h))
                      (set_randomCalls (randomCalls h + 8) h))))
      as (h' & Hrun & _).
    + unfold shuffleParams. rewrite Hmode. reflexivity.
    + eauto.
  - intros h ps. cbv zeta. split; [| split; [| split]].
    + intros Hflag Hx. apply renderSet_flagged; assumption.
    + intros Hflag Hx. apply renderSet_flagged; assumption.
    + intros Hflag. apply renderSet_unflagged; assumption.
    + intros Hflag Hclear. destruct (crosses h ps) eqn:Hx.
      * split; [reflexivity |]. apply renderSet_flagged; assumption.
      * destruct (renderSet_flagged h ps Hflag) as (_ & Hstay).
        destruct (Hstay Hx) as (Hkeep & _). congruence.
  - intros h i n ps Hi Hflag Hno.
    exists (Nat.iter n (renderSet defaults hsvToHsl h) ps).
    split; [rewrite frames_sets, Hi; reflexivity |].
    assert (Hn : needsUpdate (Nat.iter n (renderSet defaults hsvToHsl h) ps)
                 = true) by (apply flag_waits; assumption).
    split; [exact Hn |].
    intros Hx.
    exists (Nat.iter (S n) (renderSet defaults hsvToHsl h) ps).
    split; [rewrite frames_sets, Hi; reflexivity |].
    simpl Nat.iter. apply renderSet_flagged; assumption.
Qed.

End Repaint.

(** ** The repaint protocol on the level-cycle scenario *)

Lemma repaint_flag_protocol_witness :
  exists q q',
    nth_error (particleSets (frames someDefaults plainHsl 3 cycleState)) 0
    = Some q
    /\ needsUpdate q = true
    /\ nth_error (particleSets (frames someDefaults plainHsl 4 cycleState)) 0
       = Some q'
    /\ needsUpdate q' = false
    /\ adopts someDefaults plainHsl cycleState q q'
    /\ myMaterial q' = (Fin 0.25, Fin 0.8, Fin 1)
    /\ params q' = orbitParams cycleState.
Proof.
  pose (ps := sampleSet (Fin (750 - 2 * INR 3)) true exampleParams).
  assert (Hpos : forall j : nat,
             (j <= 3)%nat ->
             position_z
               (particles
                  (Nat.iter j (renderSet someDefaults plainHsl cycleState) ps))
             = Fin (750 - 2 * INR 3 + 2 * INR j))
    by (intros j Hj; apply approach; auto).
  destruct (proj2 (proj2 (proj2 (proj2
              (repaint_flag_protocol halves catalog2 someDefaults plainHsl))))
              cycleState 0%nat 3%nat ps eq_refl eq_refl)
    as (q & Hq & Hflag & Hnext).
  - intros j Hj. unfold crosses. rewrite Hpos by lia.
    apply Rltb_false.
    assert (Hle : (INR j <= INR 2)%R) by (apply le_INR; lia).
    simpl in Hle |- *. lra.
  - destruct Hnext as (q' & Hq' & Hclear & Hadopt).
    + rewrite frames_sets in Hq.
      change (Some
                (Nat.iter 3 (renderSet someDefaults plainHsl cycleState) ps)
              = Some q) in Hq.
      injection Hq as <-. unfold crosses.
      pose proof (Hpos 3%nat (le_n 3)) as H3. simpl Nat.iter in H3.
      rewrite H3.
      apply Rltb_true. simpl. lra.
    + assert (Hsub : mySubset q = 0%nat).
      { rewrite frames_sets in Hq.
        change (Some
                  (Nat.iter 3 (renderSet someDefaults plainHsl cycleState) ps)
                = Some q) in Hq.
        injection Hq as <-. simpl Nat.iter.
        rewrite !renderSet_subset. reflexivity. }
      exists q, q'. do 4 (split; [assumption |]).
      split; [exact Hadopt |].
      destruct Hadopt as (_ & _ & _ & Hmat & Hpar).
      split; [rewrite Hmat, Hsub; reflexivity | exact Hpar].
Defined.

(** ** Sorting facts *)

Section SortFacts.
Context {A : Type}.
Variable cmp : A -> A -> number.

Lemma insertBy_perm (x : A) (l : list A) :
  Permutation (x :: l) (insertBy cmp x l).
Proof.
  induction l as [| y l IH]; cbn [insertBy]; [reflexivity |].
  destruct (Num.gt (cmp x y) (Fin 0)); [| reflexivity].
  rewrite perm_swap. constructor. exact IH.
Qed.

Lemma insertionSort_perm (l : list A) :
  Permutation l (insertionSort cmp l).
Proof.
  induction l as [| x l IH]; simpl; [reflexivity |].
  rewrite <- insertBy_perm. constructor. exact IH.
Qed.

Lemma insertBy_sorted (L : list A) (x : A) (l : list A) :
  totalPreorderOn cmp L ->
  In x L -> incl l L ->
  StronglySorted (mayPrecede cmp) l ->
  StronglySorted (mayPrecede cmp) (insertBy cmp x l).
Proof.
  intros [Htotal Htrans] Hx.
  induction l as [| y l IH]; intros Hl Hs; cbn [insertBy].
  - repeat constructor.
  - assert (Hy : In y L) by (apply Hl; left; reflexivity).
    assert (Hl' : incl l L) by (intros z Hz; apply Hl; right; exact Hz).
    inversion Hs as [| ? ? Hs' Hall]; subst.
    destruct (Num.gt (cmp x y) (Fin 0)) eqn:E.
    + constructor; [apply IH; assumption |].
      apply Forall_forall. intros z Hz.
      apply (Permutation_in _ (Permutation_sym (insertBy_perm x l))) in Hz.
      destruct Hz as [<- | Hz].
      * destruct (Htotal x y Hx Hy) as [Hxy | Hyx]; [| exact Hyx].
        unfold mayPrecede in Hxy. congruence.
      * rewrite Forall_forall in Hall. apply Hall. exact Hz.
    + constructor; [exact Hs |].
      constructor; [exact E |].
      apply Forall_forall. intros z Hz.
      rewrite Forall_forall in Hall.
      apply (Htrans x y z); auto.
Qed.

Lemma insertionSort_sorted (l : list A) :
  totalPreorderOn cmp l ->
  StronglySorted (mayPrecede cmp) (insertionSort cmp l).
Proof.
  intros Hpre.
  assert (Hgen : forall l', incl l' l ->
             StronglySorted (mayPrecede cmp) (insertionSort cmp l')).
  { induction l' as [| x l' IH]; intros Hincl; simpl; [constructor |].
    apply (insertBy_sorted l); auto.
    - apply Hincl. left. reflexivity.
    - intros z Hz. apply Hincl. right.
      apply (Permutation_in _ (Permutation_sym (insertionSort_perm l'))).
      exact Hz.
    - apply IH. intros z Hz. apply Hincl. right. exact Hz. }
  apply Hgen. apply incl_refl.
Qed.

(** In a sorted list every element may precede the last one. *)
Lemma sorted_before_last (l : list A) (x : A) :
  StronglySorted (mayPrecede cmp) (l ++ [x]) ->
  Forall (fun y => mayPrecede cmp y x) l.
Proof.
  induction l as [| y l IH]; intros Hs; [constructor |].
  simpl in Hs. inversion Hs as [| ? ? Hs' Hall]; subst.
  constructor; [| apply IH; exact Hs'].
  rewrite Forall_forall in Hall. apply Hall.
  apply in_or_app. right. left. reflexivity.
Qed.

End SortFacts.

Lemma insertionSort_contract {A : Type} :
  sortContract (@insertionSort A).
Proof.
  intros cmp l. split.
  - apply insertionSort_perm.
  - apply insertionSort_sorted.
Qed.

Lemma last_index {A : Type} (l : list A) (x : A) :
  nth_error (l ++ [x]) (length (l ++ [x]) - 1) = Some x.
Proof.
  rewrite length_app. simpl.
  replace (length l + 1 - 1)%nat with (length l) by lia.
  rewrite nth_error_app2 by lia. rewrite Nat.sub_diag. reflexivity.
Qed.

(** ** The comparison of particle sets *)

Section CompareFacts.
Local Open Scope num_scope.

Lemma lt_total (x y : number) : (x <? y) = false \/ (y <? x) = false.
Proof.
  destruct x as [rx | | |], y as [ry | | |]; simpl; auto.
  destruct (Rltb rx ry) eqn:E; [| auto]. right.
  apply Rltb_true in E. apply Rltb_false. lra.
Qed.

Lemma lt_trans_neg (x y z : number) :
  Num.falsy y = false ->
  (x <? y) = false -> (y <? z) = false -> (x <? z) = false.
Proof.
  destruct x as [rx | | |], y as [ry | | |], z as [rz | | |]; simpl;
    intros Hy Hxy Hyz; try discriminate; try reflexivity.
  apply Rltb_false in Hxy. apply Rltb_false in Hyz. apply Rltb_false. lra.
Qed.

(** Between particle sets with truthy creation times, [a] may precede [b]
    exactly when [a] is not older than [b]. *)
Lemma mayPrecede_compareSets (a b : ParticleSet) :
  falsyTime (OrbitParams.timeCreated (params a)) = false ->
  falsyTime (OrbitParams.timeCreated (params b)) = false ->
  mayPrecede compareSets a b
  <-> timeLt (OrbitParams.timeCreated (params a))
        (OrbitParams.timeCreated (params b)) = false.
Proof.
  intros Ha Hb. unfold mayPrecede, compareSets. rewrite Ha, Hb. simpl.
  destruct (timeLt _ _); simpl; split; intros H; auto; try discriminate.
  - apply Rltb_false in H. lra.
  - apply Rltb_false. lra.
Qed.

Lemma compareSets_preorder (l : list ParticleSet) :
  Forall
    (fun ps => falsyTime (OrbitParams.timeCreated (params ps)) = false) l ->
  totalPreorderOn compareSets l.
Proof.
  intros Hall. rewrite Forall_forall in Hall. split.
  - intros x y Hx Hy.
    rewrite !mayPrecede_compareSets by auto.
    pose proof (Hall x Hx) as Hfx. pose proof (Hall y Hy) as Hfy.
    destruct (OrbitParams.timeCreated (params x)) as [tx |];
      destruct (OrbitParams.timeCreated (params y)) as [ty |];
      simpl in *; auto.
    apply lt_total.
  - intros x y z Hx Hy Hz.
    rewrite !mayPrecede_compareSets by auto.
    pose proof (Hall y Hy) as Hfy.
    destruct (OrbitParams.timeCreated (params x)) as [tx |];
      destruct (OrbitParams.timeCreated (params y)) as [ty |];
      destruct (OrbitParams.timeCreated (params z)) as [tz |];
      simpl in *; auto; try discriminate.
    apply lt_trans_neg. exact Hfy.
Qed.

End CompareFacts.

(** Any sort that meets the contract puts the newer of two particle sets
    with truthy creation times first, in whichever order they come. *)
Lemma sort_pair
  (s : (ParticleSet -> ParticleSet -> number) ->
       list ParticleSet -> list ParticleSet)
  (newer older : ParticleSet) :
  sortContract s ->
  falsyTime (OrbitParams.timeCreated (params newer)) = false ->
  falsyTime (OrbitParams.timeCreated (params older)) = false ->
  timeLt (OrbitParams.timeCreated (params older))
    (OrbitParams.timeCreated (params newer)) = true ->
  s compareSets [older; newer] = [newer; older]
  /\ s compareSets [newer; older] = [newer; older].
Proof.
  intros Hs Hn Ho Hlt.
  assert (Hbad : ~ StronglySorted (mayPrecede compareSets) [older; newer]).
  { intros Hsorted.
    inversion Hsorted as [| ? ? _ Hall]; subst.
    inversion Hall as [| ? ? Hpre _]; subst.
    apply mayPrecede_compareSets in Hpre; auto. congruence. }
  assert (Hpre : forall l, incl l [older; newer] ->
             totalPreorderOn compareSets l).
  { intros l Hincl. apply compareSets_preorder.
    apply Forall_forall. intros ps Hps.
    destruct (Hincl ps Hps) as [<- | [<- | []]]; assumption. }
  split.
  - destruct (Hs compareSets [older; newer]) as [Hperm Hsorted].
    apply Permutation_length_2_inv in Hperm.
    destruct Hperm as [Heq | Heq]; [| exact Heq].
    exfalso. apply Hbad. rewrite <- Heq. apply Hsorted.
    apply Hpre, incl_refl.
  - destruct (Hs compareSets [newer; older]) as [Hperm Hsorted].
    apply Permutation_length_2_inv in Hperm.
    destruct Hperm as [Heq | Heq]; [exact Heq |].
    exfalso. apply Hbad. rewrite <- Heq. apply Hsorted.
    apply Hpre. intros ps [<- | [<- | []]]; simpl; auto.
Qed.

Lemma sort_two_sets
  (s : (ParticleSet -> ParticleSet -> number) ->
       list ParticleSet -> list ParticleSet) :
  sortContract s ->
  s compareSets [olderSet; newerSet] = [newerSet; olderSet]
  /\ s compareSets [newerSet; olderSet] = [newerSet; olderSet].
Proof.
  intros Hs. apply sort_pair; auto.
  - simpl. apply Reqb_false_iff. lra.
  - simpl. apply Reqb_false_iff. lra.
  - simpl. apply Rltb_true. lra.
Qed.

(** ** The query for the current parameters *)

Section CurrentParams.
Local Open Scope num_scope.

Variable srt :
  (ParticleSet -> ParticleSet -> number) ->
  list ParticleSet -> list ParticleSet.

Lemma timeLt_irrefl (t : option number) : timeLt t t = false.
Proof.
  destruct t as [x |]; simpl; [| reflexivity].
  destruct (lt_total x x); assumption.
Qed.

(** The query stores the sorted array and touches nothing else. *)
Lemma getCurrentOrbitParams_state (h : Hopalong) :
  state_of (getCurrentOrbitParams srt h)
  = set_particleSets (srt compareSets (particleSets h)) h.
Proof.
  unfold getCurrentOrbitParams.
  destruct (nth_error _ _); reflexivity.
Qed.

(** What the sorted array looks like when the creation times are truthy:
    it ends with a set that no other set is older than. *)
Lemma sorted_sets_end (l : list ParticleSet) :
  sortContract srt ->
  l <> [] ->
  Forall
    (fun ps => falsyTime (OrbitParams.timeCreated (params ps)) = false) l ->
  exists front x,
    srt compareSets l = front ++ [x]
    /\ In x l
    /\ forall q, In q l ->
         timeLt (OrbitParams.timeCreated (params q))
           (OrbitParams.timeCreated (params x)) = false.
Proof.
  intros Hsrt Hne Htimes.
  destruct (Hsrt compareSets l) as [Hperm Hsorted].
  specialize (Hsorted (compareSets_preorder l Htimes)).
  destruct (exists_last (l := srt compareSets l)) as (front & x & Heq).
  { intros Hnil. rewrite Hnil in Hperm.
    apply Permutation_sym, Permutation_nil in Hperm. contradiction. }
  exists front, x. split; [exact Heq |].
  assert (Hx : In x l).
  { apply (Permutation_in _ (Permutation_sym Hperm)). rewrite Heq.
    apply in_or_app. right. left. reflexivity. }
  split; [exact Hx |].
  intros q Hq.
  rewrite Heq in Hsorted. apply sorted_before_last in Hsorted.
  apply (Permutation_in _ Hperm) in Hq. rewrite Heq in Hq.
  rewrite Forall_forall in Htimes.
  apply in_app_or in Hq. destruct Hq as [Hq | [<- | []]].
  - rewrite Forall_forall in Hsorted. specialize (Hsorted q Hq).
    apply mayPrecede_compareSets in Hsorted; auto.
    apply Htimes. apply (Permutation_in _ (Permutation_sym Hperm)).
    rewrite Heq. apply in_or_app. left. exact Hq.
  - apply timeLt_irrefl.
Qed.


(** C10.  The query is not a pure read: it leaves in [particleSets] the
    array as [sort] ordered it, a permutation of the array before.  On two
    particle sets created at times 1 and 2, stored in that order, the array
    after the query is the reverse of the array before, whatever the
    engine's sort. *)
Theorem getCurrentOrbitParams_reorders :
  (forall h : Hopalong,
      particleSets (state_of (getCurrentOrbitParams srt h))
      = srt compareSets (particleSets h))
  /\ (sortContract srt ->
      forall h : Hopalong,
        Permutation (particleSets h)
          (particleSets (state_of (getCurrentOrbitParams srt h))))
  /\ (sortContract srt ->
      particleSets (state_of (getCurrentOrbitParams srt ascendingState))
      = [newerSet; olderSet]
      /\ particleSets (state_of (getCurrentOrbitParams srt ascendingState))
         <> particleSets ascendingState)
  /\ particleSets
       (state_of (getCurrentOrbitParams insertionSort ascendingState))
     <> particleSets ascendingState.
Proof.
  assert (Hstate : forall s (h : Hopalong),
             particleSets (state_of (getCurrentOrbitParams s h))
             = s compareSets (particleSets h)).
  { intros s h. unfold getCurrentOrbitParams.
    destruct (nth_error _ _); reflexivity. }
  assert (Hneq : [newerSet; olderSet] <> [olderSet; newerSet]).
  { intros Heq. injection Heq. intros. lra. }
  split; [exact (Hstate srt) |]. split; [| split].
  - intros Hsrt h. rewrite Hstate. apply Hsrt.
  - intros Hsrt. rewrite Hstate. simpl particleSets.
    rewrite (proj1 (sort_two_sets srt Hsrt)). split; [reflexivity | exact Hneq].
  - rewrite Hstate. simpl particleSets.
    rewrite (proj1 (sort_two_sets _ insertionSort_contract)). exact Hneq.
Qed.

End CurrentParams.



(** Of two particle sets created at times 1 and 2, in either order, the
    query returns the parameters created at time 1. *)
Lemma query_two_sets
  (s : (ParticleSet -> ParticleSet -> number) ->
       list ParticleSet -> list ParticleSet) :
  sortContract s ->
  returned (getCurrentOrbitParams s ascendingState) = Some (params olderSet)
  /\ returned (getCurrentOrbitParams s descendingState)
     = Some (params olderSet).
Proof.
  intros Hs. destruct (sort_two_sets s Hs) as [Hasc Hdesc].
  unfold getCurrentOrbitParams. simpl particleSets.
  rewrite Hasc, Hdesc. split; reflexivity.
Qed.

(** ** Orbit generation *)

Section OrbitFacts.
Local Open Scope num_scope.
Variable Math_random : nat -> R.
Variable p : OrbitParams.t.
Hypothesis p_finite : OrbitParams.finite p.

Lemma div_fin (x y : R) : y <> 0%R -> Fin x / Fin y = Fin (x / y).
Proof. intros Hy. unfold Num.div. rdecide; try contradiction; reflexivity. Qed.

Lemma div_zero_pos (x : R) : (0 < x)%R -> Fin x / Fin 0 = PInf.
Proof.
  intros Hx. unfold Num.div, Num.sign_of, Num.inf_of. rdecide; reflexivity.
Qed.

(** The iteration formula keeps finite points finite. *)
Lemma iterate_finite (rx ry : R) :
  exists rx' ry', iterate p (Fin rx, Fin ry) = (Fin rx', Fin ry').
Proof.
  destruct p_finite
    as (ra & rb & rc & rd & re & rch & rxp & ryp
        & Ha & Hb & Hc & Hd & He & Hch & _ & _).
  unfold iterate, iter_z, iter_x1. rewrite Ha, Hb, Hc, Hd, He, Hch.
  assert (Hm : Num.sqrt (Num.abs (Fin rb * Fin rx - Fin rc))
               = Fin (sqrt (Rabs (rb * rx + - rc)))) by apply sqrt_abs_fin.
  rewrite Hm.
  assert (Hz : exists rz,
             (if Fin rch <? Fin 0.5
              then Fin rd + Fin (sqrt (Rabs (rb * rx + - rc)))
              else
                if Fin rch <? Fin 0.75
                then Fin rd + Num.sqrt (Fin (sqrt (Rabs (rb * rx + - rc))))
                else
                  Fin rd
                  + Num.log (Fin 2 + Fin (sqrt (Rabs (rb * rx + - rc)))))
             = Fin rz).
  { pose proof (sqrt_pos (Rabs (rb * rx + - rc))) as Hpos.
    destruct (Fin rch <? Fin 0.5); [eexists; reflexivity |].
    destruct (Fin rch <? Fin 0.75).
    - rewrite sqrt_fin by exact Hpos. eexists; reflexivity.
    - change (Fin 2 + Fin (sqrt (Rabs (rb * rx + - rc))))
        with (Fin (2 + sqrt (Rabs (rb * rx + - rc)))).
      rewrite log_fin by lra. eexists; reflexivity. }
  destruct Hz as (rz & ->).
  destruct (Fin rx >? Fin 0); [do 2 eexists; reflexivity |].
  destruct (Fin rx ==? Fin 0); do 2 eexists; reflexivity.
Qed.

Lemma startPoint_finite (s calls : nat) :
  exists rx ry, startPoint Math_random p s calls = (Fin rx, Fin ry).
Proof.
  destruct p_finite
    as (ra & rb & rc & rd & re & rch & rxp & ryp
        & _ & _ & _ & _ & _ & _ & Hxp & Hyp).
  unfold startPoint, random. rewrite Hxp, Hyp.
  rewrite !div_fin by lra. do 2 eexists; reflexivity.
Qed.

(** [track] widens a finite interval to a finite one that holds the new
    value. *)
Lemma track_fin (lo hi v : R) :
  (lo <= hi)%R ->
  exists lo' hi',
    track (Fin lo) (Fin hi) (Fin v) = (Fin lo', Fin hi')
    /\ (lo' <= lo)%R /\ (hi <= hi')%R /\ (lo' <= v <= hi')%R
    /\ (lo' = lo \/ lo' = v) /\ (hi' = hi \/ hi' = v).
Proof.
  intros Hle. unfold track, Num.gt, Num.lt.
  destruct (Rltb v lo) eqn:E1.
  - apply Rltb_true in E1. exists v, hi. repeat split; auto; lra.
  - apply Rltb_false in E1. destruct (Rltb hi v) eqn:E2.
    + apply Rltb_true in E2. exists lo, v. repeat split; auto; lra.
    + apply Rltb_false in E2. exists lo, hi. repeat split; auto; lra.
Qed.

Lemma attained_more (v : R) (coord : number * number -> number)
  (pts more : list (number * number)) :
  attained v coord pts -> attained v coord (pts ++ more).
Proof.
  intros [H0 | (xy & Hin & Hxy)]; [left; exact H0 |].
  right. exists xy. split; [apply in_or_app; left; exact Hin | exact Hxy].
Qed.

Lemma attained_step (v v' w : R) (coord : number * number -> number)
  (pts : list (number * number)) (xy : number * number) :
  coord xy = Fin w ->
  attained v coord pts ->
  v' = v \/ v' = w ->
  attained v' coord (pts ++ [xy]).
Proof.
  intros Hxy Hold [-> | ->].
  - apply attained_more. exact Hold.
  - right. exists xy. split; [| exact Hxy].
    apply in_or_app. right. left. reflexivity.
Qed.

Lemma trackPoint_covers (bs : Bounds) (pts : list (number * number))
  (rx ry : R) :
  covers bs pts ->
  covers (trackPoint bs (Fin rx, Fin ry)) (pts ++ [(Fin rx, Fin ry)]).
Proof.
  intros (lx & hx & ly & hy & -> & Hx & Hy & Hin & Alx & Ahx & Aly & Ahy).
  destruct (track_fin lx hx rx ltac:(lra))
    as (lx' & hx' & Htx & Hlx & Hhx & Hrx & Clx & Chx).
  destruct (track_fin ly hy ry ltac:(lra))
    as (ly' & hy' & Hty & Hly & Hhy & Hry & Cly & Chy).
  exists lx', hx', ly', hy'.
  split; [unfold trackPoint; simpl; rewrite Htx, Hty; reflexivity |].
  split; [lra |]. split; [lra |].
  split.
  { apply Forall_app. split.
    - eapply Forall_impl; [| exact Hin].
      intros xy (qx & qy & -> & Hqx & Hqy).
      exists qx, qy. repeat split; lra.
    - constructor; [| constructor].
      exists rx, ry. repeat split; lra. }
  split; [| split; [| split]].
  - apply (attained_step lx lx' rx fst); auto.
  - apply (attained_step hx hx' rx fst); auto.
  - apply (attained_step ly ly' ry snd); auto.
  - apply (attained_step hy hy' ry snd); auto.
Qed.

(** The inner loop keeps the bounds the box of the origin and of all the
    points written so far. *)
Lemma pointsLoop_covers (n : nat) :
  forall (rx ry : R) (bs : Bounds) (seen : list (number * number)),
    covers bs seen ->
    covers (snd (pointsLoop p n (Fin rx, Fin ry) bs))
      (seen ++ fst (pointsLoop p n (Fin rx, Fin ry) bs)).
Proof.
  induction n as [| n IH]; intros rx ry bs seen Hcov.
  - simpl. rewrite app_nil_r. exact Hcov.
  - cbn [pointsLoop]. destruct (iterate_finite rx ry) as (rx' & ry' & Hit).
    rewrite Hit.
    specialize (IH rx' ry' (trackPoint bs (Fin rx', Fin ry'))
                  (seen ++ [(Fin rx', Fin ry')])
                  (trackPoint_covers bs seen rx' ry' Hcov)).
    destruct (pointsLoop p n (Fin rx', Fin ry')
                (trackPoint bs (Fin rx', Fin ry'))) as [rest bs'].
    simpl in *. rewrite <- app_assoc in IH. exact IH.
Qed.

(** So does the outer loop. *)
Lemma subsetsLoop_covers (points n : nat) :
  forall (s calls : nat) (bs : Bounds) (seen : list (number * number)),
    covers bs seen ->
    covers (snd (fst (subsetsLoop Math_random p points n s calls bs)))
      (seen
       ++ concat (fst (fst (subsetsLoop Math_random p points n s calls bs)))).
Proof.
  induction n as [| n IH]; intros s calls bs seen Hcov.
  - simpl. rewrite app_nil_r. exact Hcov.
  - cbn [subsetsLoop].
    destruct (startPoint_finite s calls) as (rx & ry & Hstart).
    rewrite Hstart.
    pose proof (pointsLoop_covers points rx ry bs seen Hcov) as Hpts.
    destruct (pointsLoop p points (Fin rx, Fin ry) bs) as [pts bs1].
    simpl in Hpts.
    specialize (IH (S s) (calls + 2)%nat bs1 (seen ++ pts) Hpts).
    destruct (subsetsLoop Math_random p points n (S s) (calls + 2) bs1)
      as [[rest bs2] calls'].
    simpl in *. rewrite <- app_assoc in IH. exact IH.
Qed.

(** The orbit computed from finite parameters: finite bounds that are the
    box of the origin and of the raw points, the two scale factors, and
    every raw point normalized with them. *)
Lemma computeOrbit_box (points subsets calls : nat) :
  exists lx hx ly hy rawl calls',
    covers (Build_Bounds (Fin lx) (Fin hx) (Fin ly) (Fin hy)) (concat rawl)
    /\ computeOrbit Math_random p points subsets calls
       = (Orbit.mk
            (map
               (map
                  (normalize
                     ((Fin 2 * SCALE_FACTOR) / (Fin hx - Fin lx))
                     ((Fin 2 * SCALE_FACTOR) / (Fin hy - Fin ly))
                     (Fin lx) (Fin ly)))
               rawl)
            (Fin lx) (Fin hx) (Fin ly) (Fin hy)
            ((Fin 2 * SCALE_FACTOR) / (Fin hx - Fin lx))
            ((Fin 2 * SCALE_FACTOR) / (Fin hy - Fin ly)),
          calls').
Proof.
  unfold computeOrbit.
  pose proof (subsetsLoop_covers points subsets 0 calls
                (Build_Bounds (Fin 0) (Fin 0) (Fin 0) (Fin 0)) []) as Hcov.
  destruct (subsetsLoop Math_random p points subsets 0 calls
              (Build_Bounds (Fin 0) (Fin 0) (Fin 0) (Fin 0)))
    as [[rawl bs] calls'].
  simpl in Hcov.
  destruct Hcov as (lx & hx & ly & hy & Hbs & Hrest).
  { exists 0%R, 0%R, 0%R, 0%R.
    split; [reflexivity |]. split; [lra |]. split; [lra |].
    split; [constructor |]. repeat split; left; reflexivity. }
  exists lx, hx, ly, hy, rawl, calls'. split.
  - exists lx, hx, ly, hy. split; [reflexivity | exact Hrest].
  - rewrite Hbs. reflexivity.
Qed.

End OrbitFacts.

Section DisplayFacts.
Local Open Scope num_scope.


(** The display coordinate on an axis whose bounds coincide: the scale is
    [+Infinity] and the coordinate is [NaN]. *)
Lemma display_collapsed (lo hi r : R) :
  lo = hi -> (lo <= r <= hi)%R ->
  (Fin 2 * SCALE_FACTOR) / (Fin hi - Fin lo) = PInf
  /\ display ((Fin 2 * SCALE_FACTOR) / (Fin hi - Fin lo)) (Fin lo) (Fin r)
     = NaN.
Proof.
  intros -> Hr.
  assert (Hscale : (Fin 2 * SCALE_FACTOR) / (Fin hi - Fin hi) = PInf).
  { unfold SCALE_FACTOR.
    change (Fin 2 * Fin 1500) with (Fin (2 * 1500)).
    change (Fin hi - Fin hi) with (Fin (hi + - hi)).
    replace (hi + - hi)%R with 0%R by lra.
    apply div_zero_pos. lra. }
  split; [exact Hscale |].
  unfold display. rewrite Hscale.
  change (Fin r - Fin hi) with (Fin (r + - hi)).
  replace (r + - hi)%R with 0%R by lra.
  unfold Num.mul, Num.sign_of, Num.inf_of. rdecide. reflexivity.
Qed.

End DisplayFacts.


(** ** The generated orbit *)

Section GeneratedOrbit.
Local Open Scope num_scope.
Variable Math_random : nat -> R.
Variable best_frames : list OrbitParams.t.
Variable now : number.

(** A generation that returns has selected parameters and computed the
    orbit from them. *)
Lemma generateOrbit_returns (h h' : Hopalong) :
  generateOrbit Math_random best_frames now h = Return tt h' ->
  exists h1,
    shuffleParams Math_random best_frames now h = Return tt h1
    /\ orbitParams h' = orbitParams h1
    /\ orbit h'
       = fst (computeOrbit Math_random (orbitParams h1)
                (numPointsSubset h1) (numSubsets h1) (randomCalls h1)).
Proof.
  unfold generateOrbit, prepareOrbit.
  destruct (shuffleParams Math_random best_frames now h)
    as [[] h1 | h1]; simpl; [| discriminate].
  destruct (computeOrbit _ _ _ _ _) as [o calls] eqn:Ho.
  intros Hret. injection Hret as <-. exists h1.
  split; [reflexivity |]. split; [reflexivity |].
  simpl in *. rewrite Ho. reflexivity.
Qed.

(** A selection that returns makes the generation return. *)
Lemma generateOrbit_total (h h1 : Hopalong) :
  shuffleParams Math_random best_frames now h = Return tt h1 ->
  exists h',
    generateOrbit Math_random best_frames now h = Return tt h'
    /\ orbitParams h' = orbitParams h1
    /\ orbit h'
       = fst (computeOrbit Math_random (orbitParams h1)
                (numPointsSubset h1) (numSubsets h1) (randomCalls h1)).
Proof.
  intros Hsel. unfold generateOrbit, prepareOrbit. rewrite Hsel. simpl.
  destruct (computeOrbit _ _ _ _ _) as [o calls].
  eexists. split; [reflexivity |]. auto.
Qed.


(** The shape of a generated orbit. *)
Lemma generateOrbit_shape (h h' : Hopalong) :
  generateOrbit Math_random best_frames now h = Return tt h' ->
  OrbitParams.finite (orbitParams h') ->
  exists lx hx ly hy pts,
    covers (Build_Bounds (Fin lx) (Fin hx) (Fin ly) (Fin hy)) pts
    /\ pointsOf (orbit h')
       = map
           (normalize
              ((Fin 2 * SCALE_FACTOR) / (Fin hx - Fin lx))
              ((Fin 2 * SCALE_FACTOR) / (Fin hy - Fin ly))
              (Fin lx) (Fin ly))
           pts
    /\ Orbit.xMin (orbit h') = Fin lx /\ Orbit.xMax (orbit h') = Fin hx
    /\ Orbit.yMin (orbit h') = Fin ly /\ Orbit.yMax (orbit h') = Fin hy
    /\ Orbit.scaleX (orbit h')
       = (Fin 2 * SCALE_FACTOR) / (Fin hx - Fin lx)
    /\ Orbit.scaleY (orbit h')
       = (Fin 2 * SCALE_FACTOR) / (Fin hy - Fin ly).
Proof.
  intros Hret Hfin.
  destruct (generateOrbit_returns h h' Hret) as (h1 & _ & Hp & Ho).
  rewrite Hp in Hfin.
  destruct (computeOrbit_box Math_random (orbitParams h1) Hfin
              (numPointsSubset h1) (numSubsets h1) (randomCalls h1))
    as (lx & hx & ly & hy & rawl & calls' & Hcov & Hcomp).
  rewrite Hcomp in Ho. simpl in Ho.
  exists lx, hx, ly, hy, (concat rawl).
  split; [exact Hcov |].
  rewrite Ho. unfold pointsOf. simpl.
  split; [symmetry; apply concat_map |].
  repeat split.
Qed.

End GeneratedOrbit.

Section Normalization.
Local Open Scope num_scope.
Variable Math_random : nat -> R.
Variable best_frames : list OrbitParams.t.
Variable now : number.





(** C9 (as the code has it).  No fallback is applied: the scale factors
    are [2 * 1500 / (max - min)] whatever the bounds.  On an axis whose
    bounds coincide, which is the case exactly when every raw coordinate
    of the orbit on that axis is 0, the scale factor is [+Infinity] and
    every display coordinate is [NaN]: not every generated orbit has
    finite display coordinates. *)
Theorem generateOrbit_degenerate_unguarded :
  forall h h' : Hopalong,
    generateOrbit Math_random best_frames now h = Return tt h' ->
    OrbitParams.finite (orbitParams h') ->
    Orbit.scaleX (orbit h')
    = (Fin 2 * Fin 1500) / (Orbit.xMax (orbit h') - Orbit.xMin (orbit h'))
    /\ Orbit.scaleY (orbit h')
       = (Fin 2 * Fin 1500)
         / (Orbit.yMax (orbit h') - Orbit.yMin (orbit h'))
    /\ (Orbit.xMax (orbit h') = Orbit.xMin (orbit h') <->
        forall pt, In pt (pointsOf (orbit h')) -> SubsetPoint.x pt = Fin 0)
    /\ (Orbit.yMax (orbit h') = Orbit.yMin (orbit h') <->
        forall pt, In pt (pointsOf (orbit h')) -> SubsetPoint.y pt = Fin 0)
    /\ (Orbit.xMax (orbit h') = Orbit.xMin (orbit h') ->
        Orbit.scaleX (orbit h') = PInf
        /\ forall pt, In pt (pointsOf (orbit h')) ->
             Vector3.x (SubsetPoint.vertex pt) = NaN
             /\ Num.isFinite (Vector3.x (SubsetPoint.vertex pt)) = false)
    /\ (Orbit.yMax (orbit h') = Orbit.yMin (orbit h') ->
        Orbit.scaleY (orbit h') = PInf
        /\ forall pt, In pt (pointsOf (orbit h')) ->
             Vector3.y (SubsetPoint.vertex pt) = NaN
             /\ Num.isFinite (Vector3.y (SubsetPoint.vertex pt)) = false).
Proof.
  intros h h' Hret Hfin.
  destruct (generateOrbit_shape Math_random best_frames now h h' Hret Hfin)
    as (lx & hx & ly & hy & pts & Hcov & Hpts
        & Hxmin & Hxmax & Hymin & Hymax & Hsx & Hsy).
  destruct Hcov
    as (lx0 & hx0 & ly0 & hy0 & Hbs & Hx & Hy & Hin
        & Alx & Ahx & Aly & Ahy).
  injection Hbs as <- <- <- <-.
  rewrite Forall_forall in Hin.
  assert (Hpt : forall pt, In pt (pointsOf (orbit h')) ->
             exists rx ry,
               In (Fin rx, Fin ry) pts
               /\ SubsetPoint.x pt = Fin rx /\ SubsetPoint.y pt = Fin ry
               /\ (lx <= rx <= hx)%R /\ (ly <= ry <= hy)%R
               /\ Vector3.x (SubsetPoint.vertex pt)
                  = display ((Fin 2 * SCALE_FACTOR) / (Fin hx - Fin lx))
                      (Fin lx) (Fin rx)
               /\ Vector3.y (SubsetPoint.vertex pt)
                  = display ((Fin 2 * SCALE_FACTOR) / (Fin hy - Fin ly))
                      (Fin ly) (Fin ry)).
  { intros pt Hpt. rewrite Hpts in Hpt. apply in_map_iff in Hpt.
    destruct Hpt as (xy & <- & Hxy).
    destruct (Hin xy Hxy) as (rx & ry & Heq & Hrx & Hry).
    subst xy. exists rx, ry. simpl. auto 10. }
  assert (Hraw : forall xy, In xy pts ->
             In (normalize
                   ((Fin 2 * SCALE_FACTOR) / (Fin hx - Fin lx))
                   ((Fin 2 * SCALE_FACTOR) / (Fin hy - Fin ly))
                   (Fin lx) (Fin ly) xy)
               (pointsOf (orbit h'))).
  { intros xy Hxy. rewrite Hpts. apply in_map. exact Hxy. }
  rewrite Hxmin, Hxmax, Hymin, Hymax, Hsx, Hsy.
  split; [reflexivity |]. split; [reflexivity |].
  split; [| split; [| split]].
  - split.
    + intros Heq pt Hin'. injection Heq as Heq.
      destruct (Hpt pt Hin') as (rx & ry & _ & -> & _ & Hrx & _).
      f_equal. lra.
    + intros Hzero. f_equal.
      assert (Hl : lx = 0%R).
      { destruct Alx as [H0 | (xy & Hxy & Hlo)]; [exact H0 |].
        pose proof (Hzero _ (Hraw xy Hxy)) as Hz. cbn in Hz.
        rewrite Hlo in Hz. injection Hz as Hz. exact Hz. }
      assert (Hh : hx = 0%R).
      { destruct Ahx as [H0 | (xy & Hxy & Hhi)]; [exact H0 |].
        pose proof (Hzero _ (Hraw xy Hxy)) as Hz. cbn in Hz.
        rewrite Hhi in Hz. injection Hz as Hz. exact Hz. }
      lra.
  - split.
    + intros Heq pt Hin'. injection Heq as Heq.
      destruct (Hpt pt Hin') as (rx & ry & _ & _ & -> & _ & Hry & _).
      f_equal. lra.
    + intros Hzero. f_equal.
      assert (Hl : ly = 0%R).
      { destruct Aly as [H0 | (xy & Hxy & Hlo)]; [exact H0 |].
        pose proof (Hzero _ (Hraw xy Hxy)) as Hz. cbn in Hz.
        rewrite Hlo in Hz. injection Hz as Hz. exact Hz. }
      assert (Hh : hy = 0%R).
      { destruct Ahy as [H0 | (xy & Hxy & Hhi)]; [exact H0 |].
        pose proof (Hzero _ (Hraw xy Hxy)) as Hz. cbn in Hz.
        rewrite Hhi in Hz. injection Hz as Hz. exact Hz. }
      lra.
  - intros Heq. injection Heq as Heq. symmetry in Heq. split.
    + apply (display_collapsed lx hx lx Heq). lra.
    + intros pt Hin'.
      destruct (Hpt pt Hin') as (rx & ry & _ & _ & _ & Hrx & _ & -> & _).
      rewrite (proj2 (display_collapsed lx hx rx Heq Hrx)).
      split; reflexivity.
  - intros Heq. injection Heq as Heq. symmetry in Heq. split.
    + apply (display_collapsed ly hy ly Heq). lra.
    + intros pt Hin'.
      destruct (Hpt pt Hin') as (rx & ry & _ & _ & _ & _ & Hry & _ & ->).
      rewrite (proj2 (display_collapsed ly hy ry Heq Hry)).
      split; reflexivity.
Qed.

End Normalization.

(** ** Orbits that start at the origin *)

Section FromOrigin.
Local Open Scope num_scope.
Variable Math_random : nat -> R.

(** Subset 0 starts at the origin, whatever the draws. *)
Lemma startPoint_0 (p : OrbitParams.t) (calls : nat) :
  OrbitParams.finite p ->
  startPoint Math_random p 0 calls = (Fin 0, Fin 0).
Proof.
  intros (ra & rb & rc & rd & re & rch & rxp & ryp
          & _ & _ & _ & _ & _ & _ & Hxp & Hyp).
  unfold startPoint, random. rewrite Hxp, Hyp.
  rewrite !div_fin by lra. simpl. f_equal; f_equal; lra.
Qed.

(** From the origin the formula goes to [(e, a)]: [x == 0] selects
    [x1 = y]. *)
Lemma iterate_origin (p : OrbitParams.t) (ra re : R) :
  OrbitParams.a p = Fin ra ->
  OrbitParams.e p = Fin re ->
  iterate p (Fin 0, Fin 0) = (Fin re, Fin ra).
Proof.
  intros Ha He. unfold iterate, iter_x1. rewrite Ha, He.
  assert (Hgt : (Fin 0 >? Fin 0) = false) by (apply Rltb_false; lra).
  assert (Heq : (Fin 0 ==? Fin 0) = true) by (apply Reqb_true; lra).
  rewrite Hgt, Heq. simpl. f_equal; f_equal; lra.
Qed.

Lemma trackPoint_origin :
  trackPoint (Build_Bounds (Fin 0) (Fin 0) (Fin 0) (Fin 0)) (Fin 0, Fin 0)
  = Build_Bounds (Fin 0) (Fin 0) (Fin 0) (Fin 0).
Proof.
  unfold trackPoint, track. simpl. num_unfold. rdecide. reflexivity.
Qed.

(** With [a = e = 0] the orbit of subset 0 never leaves the origin. *)
Lemma pointsLoop_still (p : OrbitParams.t) (n : nat) :
  OrbitParams.a p = Fin 0 ->
  OrbitParams.e p = Fin 0 ->
  pointsLoop p n (Fin 0, Fin 0) (Build_Bounds (Fin 0) (Fin 0) (Fin 0) (Fin 0))
  = (repeat (Fin 0, Fin 0) n, Build_Bounds (Fin 0) (Fin 0) (Fin 0) (Fin 0)).
Proof.
  intros Ha He. induction n as [| n IH]; [reflexivity |].
  cbn [pointsLoop]. rewrite (iterate_origin p 0 0 Ha He).
  rewrite trackPoint_origin, IH. reflexivity.
Qed.

End FromOrigin.

Lemma offsetParams_finite : OrbitParams.finite offsetParams.
Proof. do 8 eexists. repeat split; reflexivity. Qed.

Lemma stillParams_finite : OrbitParams.finite stillParams.
Proof. do 8 eexists. repeat split; reflexivity. Qed.

(** The orbit of one subset of one point under [offsetParams]. *)
Lemma offset_orbit (calls : nat) :
  fst (computeOrbit halves offsetParams 1 1 calls)
  = Orbit.mk
      [[SubsetPoint.mk (Fin 5) (Fin 3)
          (Vector3.mk (Fin 1500) (Fin 1500) (Fin 0))]]
      (Fin 0) (Fin 5) (Fin 0) (Fin 3) (Fin 600) (Fin 1000).
Proof.
  unfold computeOrbit. cbn [subsetsLoop pointsLoop].
  rewrite (startPoint_0 halves offsetParams calls offsetParams_finite).
  rewrite (iterate_origin offsetParams 3 5 eq_refl eq_refl).
  assert (Htrack :
            trackPoint (Build_Bounds (Fin 0) (Fin 0) (Fin 0) (Fin 0))
              (Fin 5, Fin 3)
            = Build_Bounds (Fin 0) (Fin 5) (Fin 0) (Fin 3)).
  { unfold trackPoint, track. simpl. num_unfold. rdecide. reflexivity. }
  rewrite Htrack. cbn [fst snd b_xMin b_xMax b_yMin b_yMax map].
  unfold normalize, display, SCALE_FACTOR. cbn [fst snd].
  change (Fin 2 * Fin 1500)%num with (Fin (2 * 1500)).
  change (Fin 5 - Fin 0)%num with (Fin (5 + - 0)).
  change (Fin 3 - Fin 0)%num with (Fin (3 + - 0)).
  rewrite !div_fin by lra.
  unfold Num.sub, Num.mul, Num.add, Num.neg.
  replace (5 + - 0)%R with 5%R by lra.
  replace (3 + - 0)%R with 3%R by lra.
  replace (2 * 1500 / 5 * 5 + - (1500))%R with 1500%R by lra.
  replace (2 * 1500 / 3 * 3 + - (1500))%R with 1500%R by lra.
  replace (2 * 1500 / 5)%R with 600%R by lra.
  replace (2 * 1500 / 3)%R with 1000%R by lra.
  reflexivity.
Qed.

(** The orbit of one subset of three points under [stillParams]. *)
Lemma still_orbit (calls : nat) :
  fst (computeOrbit halves stillParams 3 1 calls)
  = Orbit.mk
      [repeat
         (SubsetPoint.mk (Fin 0) (Fin 0) (Vector3.mk NaN NaN (Fin 0))) 3]
      (Fin 0) (Fin 0) (Fin 0) (Fin 0) PInf PInf.
Proof.
  unfold computeOrbit. cbn [subsetsLoop].
  rewrite (startPoint_0 halves stillParams calls stillParams_finite).
  rewrite (pointsLoop_still stillParams 3 eq_refl eq_refl).
  cbn [fst snd b_xMin b_xMax b_yMin b_yMax map repeat].
  destruct (display_collapsed 0 0 0 eq_refl ltac:(lra)) as [Hscale Hnan].
  unfold normalize. cbn [fst snd]. rewrite Hnan, Hscale. reflexivity.
Qed.




(** The first selection from a one-entry catalog, in curated mode. *)
Lemma first_selection (p : OrbitParams.t) (h : Hopalong) :
  vibeCheck h = true ->
  currentFrame h = 0%nat ->
  exists h',
    generateOrbit halves [p] (Fin 1) h = Return tt h'
    /\ orbitParams h' = p
    /\ orbit h'
       = fst (computeOrbit halves p (numPointsSubset h) (numSubsets h)
                (randomCalls h)).
Proof.
  intros Hmode Hc.
  destruct (generateOrbit_total halves [p] (Fin 1) h
              (pushHistory
                 (set_orbitParams p (set_currentFrame (S (currentFrame h)) h))))
    as (h' & Hret & Hp & Ho).
  - apply shuffle_inside; [exact Hmode |]. rewrite Hc. reflexivity.
  - exists h'. auto.
Qed.


(** The object built by the constructor from a one-entry catalog. *)
Lemma constructor_orbit (p : OrbitParams.t)
  (subsetCount levelCount pointsPerSubset : option nat) :
  exists h',
    constructor halves [p] someDefaults plainHsl (Fin 1)
      subsetCount levelCount pointsPerSubset
    = Return tt h'
    /\ orbitParams h' = p
    /\ orbit h'
       = fst (computeOrbit halves p (orDefault pointsPerSubset 1)
                (orDefault subsetCount 1) 0).
Proof.
  unfold constructor, init.
  destruct (first_selection p
              (set_camera
                 (Build_Camera (Fin 0) (Fin 0) (SCALE_FACTOR / Fin 2)%num
                    (Defaults.fov someDefaults))
                 (fresh someDefaults (Fin 1) subsetCount levelCount
                    pointsPerSubset))
              eq_refl eq_refl)
    as (h1 & Hret & Hp & Ho).
  rewrite Hret. cbn [andThen].
  eexists. split; [reflexivity |]. split; [exact Hp | exact Ho].
Qed.


Lemma generateOrbit_degenerate_unguarded_witness :
  exists h',
    generateOrbit halves [stillParams] (Fin 1) threePoints = Return tt h'
    /\ Orbit.xMax (orbit h') = Orbit.xMin (orbit h')
    /\ Orbit.scaleX (orbit h') = PInf
    /\ forall pt, In pt (pointsOf (orbit h')) ->
         Vector3.x (SubsetPoint.vertex pt) = NaN
         /\ Num.isFinite (Vector3.x (SubsetPoint.vertex pt)) = false.
Proof.
  destruct (first_selection stillParams threePoints eq_refl eq_refl)
    as (h' & Hret & Hp & Ho).
  assert (Hdeg : Orbit.xMax (orbit h') = Orbit.xMin (orbit h')).
  { rewrite Ho.
    change (numPointsSubset threePoints) with 3%nat.
    change (numSubsets threePoints) with 1%nat.
    rewrite still_orbit. reflexivity. }
  destruct (generateOrbit_degenerate_unguarded halves [stillParams] (Fin 1)
              threePoints h' Hret)
    as (_ & _ & _ & _ & Hx & _).
  - rewrite Hp. exact stillParams_finite.
  - exists h'. split; [exact Hret |]. split; [exact Hdeg |].
    exact (Hx Hdeg).
Defined.

(** C9, refuted as stated: an object constructed with one subset of
    three points and [stillParams] (a = e = 0) as the first catalog entry
    has an orbit that never leaves the origin; the bounding box is
    degenerate, both scale factors are [+Infinity] and every display
    coordinate of the three points is [NaN]. *)
Lemma degenerate_orbit_is_NaN :
  exists h',
    constructor halves [stillParams] someDefaults plainHsl (Fin 1)
      (Some 1%nat) (Some 1%nat) (Some 3%nat)
    = Return tt h'
    /\ Orbit.xMax (orbit h') = Orbit.xMin (orbit h')
    /\ Orbit.yMax (orbit h') = Orbit.yMin (orbit h')
    /\ Orbit.scaleX (orbit h') = PInf
    /\ Orbit.scaleY (orbit h') = PInf
    /\ pointsOf (orbit h')
       = repeat
           (SubsetPoint.mk (Fin 0) (Fin 0) (Vector3.mk NaN NaN (Fin 0))) 3
    /\ Num.isFinite NaN = false.
Proof.
  destruct (constructor_orbit stillParams (Some 1%nat) (Some 1%nat)
              (Some 3%nat))
    as (h' & Hret & _ & Ho).
  change (orbit h' = fst (computeOrbit halves stillParams 3 1 0)) in Ho.
  rewrite still_orbit in Ho.
  exists h'. split; [exact Hret |].
  rewrite Ho. unfold pointsOf. cbn. repeat split; reflexivity.
Qed.

(** ** The depths at which the particle sets start *)

Section InitialDepths.
Local Open Scope num_scope.
Variable defaults : Defaults.t.
Variable hsvToHsl : option number -> number -> number -> HSL.

(** The set of level [k] and subset [s] starts [600 * k + 600 * s / S]
    behind the camera's depth 750, [S] being the number of subsets; the
    set of level 0 and subset 0 starts at 750. *)
Lemma newParticleSet_depth (h : Hopalong) (k s : nat) :
  numSubsets h <> 0%nat ->
  position_z (particles (newParticleSet defaults hsvToHsl h k s))
  = Fin (- 600 * INR k + - (INR s * 600 / INR (numSubsets h)) + 1500 / 2).
Proof.
  intros Hn. unfold newParticleSet. cbn [particles position_z].
  unfold LEVEL_DEPTH, SCALE_FACTOR.
  change (Fin (INR s) * Fin 600) with (Fin (INR s * 600)).
  rewrite !div_fin; [reflexivity | lra | apply not_0_INR; exact Hn].
Qed.

Lemma newParticleSet_front (h : Hopalong) :
  numSubsets h <> 0%nat ->
  position_z (particles (newParticleSet defaults hsvToHsl h 0 0)) = Fin 750.
Proof.
  intros Hn. rewrite newParticleSet_depth by exact Hn.
  f_equal. simpl INR. unfold Rdiv. rewrite !Rmult_0_l, Rmult_0_r. lra.
Qed.

End InitialDepths.

(** ** Runs in curated mode *)

Section CuratedRuns.
Variable Math_random : nat -> R.
Variable best_frames : list OrbitParams.t.
Variable now : number.

Lemma generateOrbit_curated (h : Hopalong) (p : OrbitParams.t) :
  vibeCheck h = true ->
  nth_error best_frames (currentFrame h) = Some p ->
  generateOrbit Math_random best_frames now h
  = Return tt (generated Math_random p h).
Proof.
  intros Hmode Hp. unfold generateOrbit, prepareOrbit.
  rewrite (shuffle_inside Math_random best_frames now h p Hmode Hp).
  cbn [andThen]. unfold generated, selected.
  match goal with
  | |- context [let '(o, calls) := ?c in _] =>
      rewrite (surjective_pairing c)
  end.
  reflexivity.
Qed.

Lemma updateOrbit_curated (h : Hopalong) (p : OrbitParams.t) :
  vibeCheck h = true ->
  nth_error best_frames (currentFrame h) = Some p ->
  updateOrbit Math_random best_frames now h
  = Return tt (regenerated Math_random p h).
Proof.
  intros Hmode Hp. unfold updateOrbit.
  rewrite (generateOrbit_curated h p Hmode Hp). reflexivity.
Qed.

End CuratedRuns.

Lemma set_currentFrame_sets (n : nat) (h : Hopalong) :
  particleSets (set_currentFrame n h) = particleSets h.
Proof. reflexivity. Qed.

(** In the same session the cursor has reached the length of the catalog
    after the first regeneration: the second regeneration throws and flags
    nothing. *)
Lemma session_overrun :
  updateOrbit halves agedCatalog (Fin 3) rebuilt
  = TypeError (set_currentFrame 3 rebuilt)
  /\ particleSets (set_currentFrame 3 rebuilt) = particleSets rebuilt.
Proof.
  split; [| apply set_currentFrame_sets].
  apply updateOrbit_throws.
  apply (shuffle_at_length halves agedCatalog (Fin 3) rebuilt); reflexivity.
Qed.

(** * Further results *)

(** ** The camera ([render], lines 281-298) *)

Section CameraFacts.
Local Open Scope num_scope.
Variable defaults : Defaults.t.
Variable hsvToHsl : option number -> number -> number -> HSL.

Lemma ease_in_range (r : R) (target : number) :
  (-200 <= r <= 200)%R ->
  target <> NaN ->
  exists r', ease (Fin r) target = Fin r' /\ (-200 <= r' <= 200)%R.
Proof.
  intros Hr Ht. unfold ease, CAMERA_BOUND.
  assert (Hin : (Fin r >=? - Fin 200) && Num.le (Fin r) (Fin 200) = true).
  { apply andb_true_intro. split; apply Rleb_true; lra. }
  rewrite Hin.
  destruct target as [t | | |]; [| | | contradiction].
  - cbn [Num.sub Num.add Num.neg Num.mul Num.lt Num.gt].
    destruct (Rltb (r + (t + - r) * 0.05) (- (200))) eqn:E1.
    + destruct (Rltb 200 (- (200))) eqn:E2;
        [apply Rltb_true in E2; lra |].
      eexists. split; [reflexivity | lra].
    + apply Rltb_false in E1.
      destruct (Rltb 200 (r + (t + - r) * 0.05)) eqn:E2.
      * eexists. split; [reflexivity | lra].
      * apply Rltb_false in E2. eexists. split; [reflexivity | lra].
  - cbn. unfold Num.sign_of, Rltb. rdecide. cbn. unfold Rltb. rdecide.
    eexists. split; [reflexivity | lra].
  - cbn. unfold Num.sign_of, Rltb. rdecide. cbn. unfold Rltb. rdecide.
    eexists. split; [reflexivity | lra].
Qed.

(** Inside the square and with a target inside it, one step covers a
    twentieth of the way to the target. *)
Lemma ease_inside (r t : R) :
  (-200 <= r <= 200)%R -> (-200 <= t <= 200)%R ->
  ease (Fin r) (Fin t) = Fin (r + (t - r) * 0.05).
Proof.
  intros Hr Ht. unfold ease, CAMERA_BOUND.
  assert (Hin : (Fin r >=? - Fin 200) && Num.le (Fin r) (Fin 200) = true).
  { apply andb_true_intro. split; apply Rleb_true; lra. }
  rewrite Hin. cbn [Num.sub Num.add Num.neg Num.mul Num.lt Num.gt].
  destruct (Rltb (r + (t + - r) * 0.05) (- (200))) eqn:E1;
    [apply Rltb_true in E1; lra |].
  destruct (Rltb 200 (r + (t + - r) * 0.05)) eqn:E2;
    [apply Rltb_true in E2; lra |].
  reflexivity.
Qed.

(** A camera outside the square, or at [NaN], is left where it is. *)
Lemma ease_outside (pos target : number) :
  (pos >=? - CAMERA_BOUND) && Num.le pos CAMERA_BOUND = false ->
  ease pos target = pos.
Proof. intros H. unfold ease. rewrite H. reflexivity. Qed.

(** X1.  A frame keeps the camera at a finite place inside the square of
    half-width 200, whatever the pointer position, as long as that is not
    [NaN]; it never moves the camera in depth nor changes its field of
    view.  A [NaN] pointer coordinate makes the camera coordinate [NaN],
    and no later frame moves it again. *)
Theorem camera_stays_in_square :
  (forall h : Hopalong,
      inSquare (camera h) ->
      mouseX h <> NaN -> mouseY h <> NaN ->
      inSquare (camera (render defaults hsvToHsl h)))
  /\ (forall h : Hopalong,
         camera_z (camera (render defaults hsvToHsl h)) = camera_z (camera h)
         /\ camera_fov (camera (render defaults hsvToHsl h))
            = camera_fov (camera h))
  /\ (forall (h : Hopalong) (r : R),
         camera_x (camera h) = Fin r -> (-200 <= r <= 200)%R ->
         mouseX h = NaN ->
         camera_x (camera (render defaults hsvToHsl h)) = NaN)
  /\ (forall (h : Hopalong) (n : nat),
         camera_x (camera h) = NaN ->
         camera_x (camera (frames defaults hsvToHsl n h)) = NaN).
Proof.
  split; [| split; [| split]].
  - intros h (x & y & Hx & Hy & Hrx & Hry) Hmx Hmy.
    destruct (ease_in_range x (mouseX h) Hrx Hmx) as (x' & Hx' & Hrx').
    assert (Hmy' : - mouseY h <> NaN)
      by (destruct (mouseY h); simpl; congruence).
    destruct (ease_in_range y (- mouseY h) Hry Hmy') as (y' & Hy' & Hry').
    exists x', y'. unfold render, moveCamera. simpl.
    rewrite Hx, Hy, Hx', Hy'. auto.
  - intros h. split; reflexivity.
  - intros h r Hx Hr Hm. unfold render, moveCamera. simpl.
    rewrite Hx, Hm. unfold ease, CAMERA_BOUND.
    assert (Hin : (Fin r >=? - Fin 200) && Num.le (Fin r) (Fin 200) = true).
    { apply andb_true_intro. split; apply Rleb_true; lra. }
    rewrite Hin. reflexivity.
  - intros h n. revert h. induction n as [| n IH]; intros h Hx; [exact Hx |].
    simpl frames. apply IH. unfold render, moveCamera. simpl.
    rewrite Hx. reflexivity.
Qed.

End CameraFacts.

Lemma camera_stays_in_square_witness :
  inSquare (camera (render someDefaults plainHsl blankState)).
Proof.
  apply (proj1 (camera_stays_in_square someDefaults plainHsl) blankState).
  - exists 0%R, 0%R. repeat split; try reflexivity; lra.
  - discriminate.
  - discriminate.
Defined.

Section CameraApproach.
Local Open Scope num_scope.
Variable defaults : Defaults.t.
Variable hsvToHsl : option number -> number -> number -> HSL.

(** X2.  With the pointer at rest inside the square, the camera closes in
    on it geometrically: after [n] frames a fraction [0.95 ^ n] of the
    distance is left, on x towards [mouseX] and on y towards [- mouseY]. *)
Theorem camera_approaches_pointer :
  forall (n : nat) (h : Hopalong) (x y tx ty : R),
    camera_x (camera h) = Fin x -> camera_y (camera h) = Fin y ->
    mouseX h = Fin tx -> mouseY h = Fin ty ->
    (-200 <= x <= 200)%R -> (-200 <= y <= 200)%R ->
    (-200 <= tx <= 200)%R -> (-200 <= ty <= 200)%R ->
    camera_x (camera (frames defaults hsvToHsl n h))
    = Fin (tx - 0.95 ^ n * (tx - x))
    /\ camera_y (camera (frames defaults hsvToHsl n h))
       = Fin (- ty - 0.95 ^ n * (- ty - y)).
Proof.
  induction n as [| n IH]; intros h x y tx ty Hx Hy Htx Hty Rx Ry Rtx Rty.
  - simpl. rewrite Hx, Hy. split; f_equal; lra.
  - simpl frames.
    assert (Hx1 : camera_x (camera (render defaults hsvToHsl h))
                  = Fin (x + (tx - x) * 0.05)).
    { unfold render, moveCamera. simpl. rewrite Hx, Htx.
      apply ease_inside; assumption. }
    assert (Hy1 : camera_y (camera (render defaults hsvToHsl h))
                  = Fin (y + (- ty - y) * 0.05)).
    { unfold render, moveCamera. simpl. rewrite Hy, Hty.
      change (- Fin ty) with (Fin (- ty)).
      apply ease_inside; [assumption | lra]. }
    destruct (IH (render defaults hsvToHsl h)
                (x + (tx - x) * 0.05)%R (y + (- ty - y) * 0.05)%R tx ty
                Hx1 Hy1 Htx Hty) as [Hcx Hcy]; try lra.
    rewrite Hcx, Hcy. split; f_equal; simpl pow; lra.
Qed.

End CameraApproach.

Lemma camera_approaches_pointer_witness :
  camera_x
    (camera
       (frames someDefaults plainHsl 2
          (set_mouseX (Fin 100) blankState)))
  = Fin (100 - 0.95 ^ 2 * (100 - 0))
  /\ camera_y
       (camera
          (frames someDefaults plainHsl 2
             (set_mouseX (Fin 100) blankState)))
     = Fin (- 0 - 0.95 ^ 2 * (- 0 - 0)).
Proof.
  apply (camera_approaches_pointer someDefaults plainHsl 2
           (set_mouseX (Fin 100) blankState) 0 0 100 0);
    try reflexivity; lra.
Defined.

(** ** The hues ([generateHues], lines 341-345) *)

Section HueFacts.
Variable Math_random : nat -> R.

Lemma draws_length (n calls : nat) :
  length (draws Math_random n calls) = n.
Proof.
  revert calls. induction n as [| n IH]; intros calls; simpl; auto.
Qed.

Lemma draws_nth (n : nat) :
  forall calls i : nat,
    (i < n)%nat ->
    nth_error (draws Math_random n calls) i
    = Some (Fin (Math_random (calls + i))).
Proof.
  induction n as [| n IH]; intros calls i Hi; [lia |].
  destruct i as [| i]; simpl.
  - rewrite Nat.add_0_r. reflexivity.
  - rewrite IH by lia. do 3 f_equal. lia.
Qed.

(** The length of the hue array after [generateHues]. *)
Lemma generateHues_length (h : Hopalong) :
  length (hueValues (generateHues Math_random h))
  = Nat.max (numSubsets h) (length (hueValues h)).
Proof.
  unfold generateHues. simpl.
  rewrite length_app, draws_length, length_skipn. lia.
Qed.

(** X3.  After [generateHues] there is one fresh draw for every subset, in
    the order of the subsets, and later entries of the array, if any, are
    as before; the array is as long as the larger of the number of subsets
    and its length before, and the call consumes one draw per subset.
    When the draws lie in [0,1) so do the hues of all the subsets. *)
Theorem generateHues_table :
  forall h : Hopalong,
    let h' := generateHues Math_random h in
    length (hueValues h')
    = Nat.max (numSubsets h) (length (hueValues h))
    /\ (forall s : nat,
           (s < numSubsets h)%nat ->
           nth_error (hueValues h') s
           = Some (Fin (Math_random (randomCalls h + s))))
    /\ (forall s : nat,
           (numSubsets h <= s)%nat ->
           nth_error (hueValues h') s = nth_error (hueValues h) s)
    /\ randomCalls h' = (randomCalls h + numSubsets h)%nat
    /\ ((forall k, 0 <= Math_random k < 1) ->
        forall s : nat,
          (s < numSubsets h)%nat ->
          exists r, nth_error (hueValues h') s = Some (Fin r) /\ 0 <= r < 1).
Proof.
  intros h. cbv zeta. unfold generateHues. simpl.
  assert (Hnth : forall s : nat,
             (s < numSubsets h)%nat ->
             nth_error
               (draws Math_random (numSubsets h) (randomCalls h)
                ++ skipn (numSubsets h) (hueValues h)) s
             = Some (Fin (Math_random (randomCalls h + s)))).
  { intros s Hs. rewrite nth_error_app1 by (rewrite draws_length; exact Hs).
    apply draws_nth. exact Hs. }
  split; [| split; [exact Hnth | split; [| split]]].
  - rewrite length_app, draws_length, length_skipn. lia.
  - intros s Hs.
    rewrite nth_error_app2 by (rewrite draws_length; exact Hs).
    rewrite draws_length, nth_error_skipn. f_equal. lia.
  - reflexivity.
  - intros Hrange s Hs. eexists. split; [apply Hnth; exact Hs |].
    apply Hrange.
Qed.

End HueFacts.

(** ** The shape of the generated orbit ([generateOrbit], lines 347-429) *)

Section ShapeFacts.
Local Open Scope num_scope.
Variable Math_random : nat -> R.
Variable best_frames : list OrbitParams.t.
Variable now : number.

(** The three ways a selection ends. *)
Lemma shuffle_cases (h : Hopalong) :
  (exists p cursor,
      vibeCheck h = true
      /\ shuffleParams Math_random best_frames now h
         = Return tt
             (pushHistory (set_orbitParams p (set_currentFrame cursor h))))
  \/ (exists cursor,
         vibeCheck h = true
         /\ shuffleParams Math_random best_frames now h
            = TypeError (set_currentFrame cursor h))
  \/ (vibeCheck h = false
      /\ shuffleParams Math_random best_frames now h
         = Return tt
             (pushHistory
                (set_orbitParams
                   (randomParams Math_random now (randomCalls h))
                   (set_randomCalls (randomCalls h + 8) h)))).
Proof.
  unfold shuffleParams. destruct (vibeCheck h).
  - destruct (nextFrame best_frames (currentFrame h)) as [index cursor].
    destruct (nth_error best_frames index) as [p |].
    + left. exists p, cursor. auto.
    + right. left. exists cursor. auto.
  - right. right. auto.
Qed.

Lemma pointsLoop_length (p : OrbitParams.t) (n : nat) :
  forall (xy : number * number) (bs : Bounds),
    length (fst (pointsLoop p n xy bs)) = n.
Proof.
  induction n as [| n IH]; intros xy bs; [reflexivity |].
  cbn [pointsLoop]. specialize (IH (iterate p xy) (trackPoint bs (iterate p xy))).
  destruct (pointsLoop p n (iterate p xy) (trackPoint bs (iterate p xy))).
  simpl in *. lia.
Qed.

Lemma subsetsLoop_shape (p : OrbitParams.t) (points n : nat) :
  forall (s calls : nat) (bs : Bounds),
    length (fst (fst (subsetsLoop Math_random p points n s calls bs))) = n
    /\ Forall (fun sub => length sub = points)
         (fst (fst (subsetsLoop Math_random p points n s calls bs)))
    /\ snd (subsetsLoop Math_random p points n s calls bs)
       = (calls + 2 * n)%nat.
Proof.
  induction n as [| n IH]; intros s calls bs.
  - simpl. repeat split; [constructor | lia].
  - cbn [subsetsLoop].
    pose proof (pointsLoop_length p points
                  (startPoint Math_random p s calls) bs) as Hlen.
    destruct (pointsLoop p points (startPoint Math_random p s calls) bs)
      as [pts bs1].
    specialize (IH (S s) (calls + 2)%nat bs1).
    destruct (subsetsLoop Math_random p points n (S s) (calls + 2) bs1)
      as [[rest bs2] calls'].
    simpl in *. destruct IH as (Hn & Hall & Hcalls).
    repeat split; [lia | constructor; assumption | lia].
Qed.

Lemma computeOrbit_shape (p : OrbitParams.t) (points subsets calls : nat) :
  let o := fst (computeOrbit Math_random p points subsets calls) in
  length (Orbit.subsets o) = subsets
  /\ Forall (fun sub => length sub = points) (Orbit.subsets o)
  /\ Forall (fun pt => Vector3.z (SubsetPoint.vertex pt) = Fin 0)
       (pointsOf o)
  /\ snd (computeOrbit Math_random p points subsets calls)
     = (calls + 2 * subsets)%nat.
Proof.
  unfold computeOrbit.
  pose proof (subsetsLoop_shape p points subsets 0 calls
                (Build_Bounds (Fin 0) (Fin 0) (Fin 0) (Fin 0)))
    as (Hn & Hall & Hcalls).
  destruct (subsetsLoop Math_random p points subsets 0 calls
              (Build_Bounds (Fin 0) (Fin 0) (Fin 0) (Fin 0)))
    as [[rawl bs] calls'].
  cbn [fst snd] in *. unfold pointsOf. cbn [Orbit.subsets].
  split; [rewrite length_map; exact Hn |].
  split; [| split; [| exact Hcalls]].
  - apply Forall_map. eapply Forall_impl; [| exact Hall].
    intros sub Hsub. rewrite length_map. exact Hsub.
  - rewrite <- concat_map. apply Forall_map.
    apply Forall_forall. intros xy _. reflexivity.
Qed.

(** What a generation that returns has written and what it has left, as
    far as the invariants of the object need it. *)
Lemma generateOrbit_frame :
  forall h h' : Hopalong,
    generateOrbit Math_random best_frames now h = Return tt h' ->
    length (Orbit.subsets (orbit h')) = numSubsets h
    /\ Forall (fun sub => length sub = numPointsSubset h)
         (Orbit.subsets (orbit h'))
    /\ orbitParamHistory h' = orbitParamHistory h ++ [orbitParams h']
    /\ (numSubsets h', numPointsSubset h', numLevels h', vibeCheck h')
       = (numSubsets h, numPointsSubset h, numLevels h, vibeCheck h)
    /\ (hueValues h', particleSets h', camera h')
       = (hueValues h, particleSets h, camera h).

Proof.
  intros h h' Hret. unfold generateOrbit, prepareOrbit in Hret.
  destruct (shuffle_cases h)
    as [(p & cursor & Hmode & Hsel) | [(cursor & _ & Hsel) | (Hmode & Hsel)]];
    rewrite Hsel in Hret; cbn [andThen] in Hret; try discriminate.
  - match type of Hret with
    | context [computeOrbit ?r ?q ?a ?b ?c] =>
        pose proof (computeOrbit_shape q a b c) as Hshape;
        destruct (computeOrbit r q a b c) as [o calls]
    end.
    injection Hret as <-. cbn in Hshape |- *.
    destruct Hshape as (H1 & H2 & H3 & H4). rewrite Hmode.
    repeat split; auto.
  - match type of Hret with
    | context [computeOrbit ?r ?q ?a ?b ?c] =>
        pose proof (computeOrbit_shape q a b c) as Hshape;
        destruct (computeOrbit r q a b c) as [o calls]
    end.
    injection Hret as <-. cbn in Hshape |- *.
    destruct Hshape as (H1 & H2 & H3 & H4). rewrite Hmode.
    repeat split; auto.
Qed.

(** X4.  A generation that returns has rewritten the whole orbit: it has
    [numSubsets] subsets of [numPointsSubset] points each, every vertex at
    depth 0; it has appended the parameters it installed to the history
    and consumed two draws per subset (and eight more in randomized mode);
    it has not touched the counts, the hues, the particle sets, the
    camera, the pointer or the speeds. *)
Theorem generateOrbit_rewrites_orbit :
  forall h h' : Hopalong,
    generateOrbit Math_random best_frames now h = Return tt h' ->
    length (Orbit.subsets (orbit h')) = numSubsets h
    /\ Forall (fun sub => length sub = numPointsSubset h)
         (Orbit.subsets (orbit h'))
    /\ Forall (fun pt => Vector3.z (SubsetPoint.vertex pt) = Fin 0)
         (pointsOf (orbit h'))
    /\ orbitParamHistory h' = orbitParamHistory h ++ [orbitParams h']
    /\ randomCalls h'
       = (randomCalls h + 2 * numSubsets h
          + (if vibeCheck h then 0 else 8))%nat
    /\ (numSubsets h', numPointsSubset h', numLevels h', vibeCheck h')
       = (numSubsets h, numPointsSubset h, numLevels h, vibeCheck h)
    /\ (hueValues h', particleSets h', camera h')
       = (hueValues h, particleSets h, camera h)
    /\ (mouseX h', mouseY h', mouseLocked h', speed h', rotationSpeed h')
       = (mouseX h, mouseY h, mouseLocked h, speed h, rotationSpeed h).
Proof.
  intros h h' Hret. unfold generateOrbit, prepareOrbit in Hret.
  destruct (shuffle_cases h)
    as [(p & cursor & Hmode & Hsel) | [(cursor & _ & Hsel) | (Hmode & Hsel)]];
    rewrite Hsel in Hret; cbn [andThen] in Hret; try discriminate.
  - match type of Hret with
    | context [computeOrbit ?r ?q ?a ?b ?c] =>
        pose proof (computeOrbit_shape q a b c) as Hshape;
        destruct (computeOrbit r q a b c) as [o calls]
    end.
    injection Hret as <-. cbn in Hshape |- *.
    destruct Hshape as (H1 & H2 & H3 & H4). rewrite Hmode, H4.
    repeat split; auto; lia.
  - match type of Hret with
    | context [computeOrbit ?r ?q ?a ?b ?c] =>
        pose proof (computeOrbit_shape q a b c) as Hshape;
        destruct (computeOrbit r q a b c) as [o calls]
    end.
    injection Hret as <-. cbn in Hshape |- *.
    destruct Hshape as (H1 & H2 & H3 & H4). rewrite Hmode, H4.
    repeat split; auto; lia.
Qed.

(** A regeneration that throws has only moved the cursor. *)
Lemma updateOrbit_throw_state (h h1 : Hopalong) :
  updateOrbit Math_random best_frames now h = TypeError h1 ->
  exists cursor : nat, h1 = set_currentFrame cursor h.
Proof.
  intros Hthrow. unfold updateOrbit, generateOrbit, prepareOrbit in Hthrow.
  destruct (shuffle_cases h)
    as [(p & cursor & _ & Hsel) | [(cursor & _ & Hsel) | (_ & Hsel)]];
    rewrite Hsel in Hthrow; cbn [andThen] in Hthrow.
  - destruct (computeOrbit _ _ _ _ _) as [o calls]. discriminate.
  - injection Hthrow as <-. exists cursor. reflexivity.
  - destruct (computeOrbit _ _ _ _ _) as [o calls]. discriminate.
Qed.

(** X5.  A regeneration that throws leaves everything but the cursor as
    it was: the orbit, the parameters, the history, the hues, the particle
    sets and their flags, and the count of draws. *)
Theorem updateOrbit_failure_is_clean :
  forall h h1 : Hopalong,
    updateOrbit Math_random best_frames now h = TypeError h1 ->
    exists cursor : nat,
      h1 = set_currentFrame cursor h
      /\ vibeCheck h = true
      /\ nth_error best_frames
           (fst (nextFrame best_frames (currentFrame h))) = None.
Proof.
  intros h h1 Hthrow.
  unfold updateOrbit, generateOrbit, prepareOrbit in Hthrow.
  destruct (shuffleParams Math_random best_frames now h)
    as [[] h2 | h2] eqn:Hsel; cbn [andThen] in Hthrow.
  - destruct (computeOrbit _ _ _ _ _) as [o calls]. discriminate.
  - injection Hthrow as <-. unfold shuffleParams in Hsel.
    destruct (vibeCheck h); [| discriminate].
    destruct (nextFrame best_frames (currentFrame h)) as [index cursor].
    destruct (nth_error best_frames index) eqn:Hnth; [discriminate |].
    injection Hsel as <-. exists cursor. auto.
Qed.

End ShapeFacts.

Lemma generateOrbit_rewrites_orbit_witness :
  length (Orbit.subsets (orbit (generated halves offsetParams blankState)))
  = numSubsets blankState.
Proof.
  exact (proj1
           (generateOrbit_rewrites_orbit halves [offsetParams] (Fin 1)
              blankState (generated halves offsetParams blankState)
              (generateOrbit_curated halves [offsetParams] (Fin 1)
                 blankState offsetParams eq_refl eq_refl))).
Defined.

Lemma updateOrbit_failure_is_clean_witness :
  exists cursor : nat,
    set_currentFrame 3 rebuilt = set_currentFrame cursor rebuilt
    /\ vibeCheck rebuilt = true
    /\ nth_error agedCatalog
         (fst (nextFrame agedCatalog (currentFrame rebuilt))) = None.
Proof.
  exact (updateOrbit_failure_is_clean halves agedCatalog (Fin 3) rebuilt
           (set_currentFrame 3 rebuilt) (proj1 session_overrun)).
Defined.

(** ** Where the orbits start ([generateOrbit], lines 367-393) *)

Section StartFacts.
Local Open Scope num_scope.
Variable Math_random : nat -> R.
Variable best_frames : list OrbitParams.t.
Variable now : number.

(** X18.  With presets in [0,1] and draws in [0,1), subset [s] starts at
    a finite point of the square from 0 to [0.0025 * s] in both
    coordinates, and off both axes when [s] is not 0: the orbits of the
    subsets start next to the origin, the further from it the higher the
    subset. *)
Theorem startPoint_range :
  forall (p : OrbitParams.t) (s calls : nat) (xp yp : R),
    OrbitParams.xPreset p = Fin xp -> OrbitParams.yPreset p = Fin yp ->
    (0 <= xp <= 1)%R -> (0 <= yp <= 1)%R ->
    (forall k, 0 <= Math_random k < 1)%R ->
    exists x y : R,
      startPoint Math_random p s calls = (Fin x, Fin y)
      /\ (0 <= x <= 0.0025 * INR s)%R /\ (0 <= y <= 0.0025 * INR s)%R
      /\ ((0 < s)%nat -> (0 < x)%R /\ (0 < y)%R).
Proof.
  intros p s calls xp yp Hxp Hyp Rxp Ryp Hrand.
  unfold startPoint, random. rewrite Hxp, Hyp.
  rewrite !div_fin by lra.
  cbn [Num.mul Num.sub Num.add Num.neg].
  pose proof (Hrand calls) as Hr1. pose proof (Hrand (calls + 1)%nat) as Hr2.
  pose proof (pos_INR s) as Hs.
  set (r1 := Math_random calls) in *.
  set (r2 := Math_random (calls + 1)) in *.
  assert (H1 : (0 <= xp * (r1 / 2) < 0.5)%R) by (split; nra).
  assert (H2 : (0 <= yp * (r2 / 2) < 0.5)%R) by (split; nra).
  do 2 eexists. split; [reflexivity |].
  split; [split; nra |]. split; [split; nra |].
  intros Hpos. assert (Hs' : (0 < INR s)%R) by (apply lt_0_INR; exact Hpos).
  split; nra.
Qed.

(** X6.  Whatever the draws, subset 0 starts at the origin, where the
    branch [x == 0] applies: the first point of every generated orbit is
    [(e, a)], whatever [b], [c], [d] and [choice] are. *)
Theorem first_point_is_e_a :
  forall h h' : Hopalong,
    generateOrbit Math_random best_frames now h = Return tt h' ->
    OrbitParams.finite (orbitParams h') ->
    (0 < numSubsets h)%nat -> (0 < numPointsSubset h)%nat ->
    exists pt rest more,
      Orbit.subsets (orbit h') = (pt :: rest) :: more
      /\ SubsetPoint.x pt = OrbitParams.e (orbitParams h')
      /\ SubsetPoint.y pt = OrbitParams.a (orbitParams h').
Proof.
  intros h h' Hret Hfin HS HP.
  destruct (generateOrbit_returns Math_random best_frames now h h' Hret)
    as (h1 & Hsel & Hp & Ho).
  assert (Hcounts : numSubsets h1 = numSubsets h
                    /\ numPointsSubset h1 = numPointsSubset h).
  { destruct (shuffle_cases Math_random best_frames now h)
      as [(p & c & _ & Hs) | [(c & _ & Hs) | (_ & Hs)]];
      rewrite Hs in Hsel; try discriminate;
      injection Hsel as <-; auto. }
  destruct Hcounts as [HS1 HP1]. rewrite HS1, HP1, <- Hp in Ho.
  destruct (numSubsets h) as [| S']; [lia |].
  destruct (numPointsSubset h) as [| P']; [lia |].
  destruct Hfin as (ra & rb & rc & rd & re & rch & rxp & ryp
                    & Ha & Hb & Hc & Hd & He & Hch & Hxp & Hyp).
  assert (Hfin : OrbitParams.finite (orbitParams h'))
    by (exists ra, rb, rc, rd, re, rch, rxp, ryp; auto 10).
  rewrite Ho. unfold computeOrbit. cbn [subsetsLoop pointsLoop].
  rewrite (startPoint_0 Math_random (orbitParams h') (randomCalls h1) Hfin).
  rewrite (iterate_origin (orbitParams h') ra re Ha He).
  destruct (pointsLoop (orbitParams h') P' (Fin re, Fin ra) _)
    as [rest bs1].
  destruct (subsetsLoop Math_random (orbitParams h') (S P') S' 1 _ bs1)
    as [[more bs2] calls'].
  cbn. do 3 eexists. split; [reflexivity |]. rewrite Ha, He. auto.
Qed.

End StartFacts.

Lemma startPoint_range_witness :
  exists x y : R,
    startPoint halves offsetParams 3 0 = (Fin x, Fin y)
    /\ (0 <= x <= 0.0025 * INR 3)%R /\ (0 <= y <= 0.0025 * INR 3)%R
    /\ ((0 < 3)%nat -> (0 < x)%R /\ (0 < y)%R).
Proof.
  apply (startPoint_range halves offsetParams 3 0 0.5 0.5).
  - reflexivity.
  - reflexivity.
  - lra.
  - lra.
  - intros k. unfold halves. lra.
Defined.

Lemma first_point_is_e_a_witness :
  exists pt rest more,
    Orbit.subsets (orbit (generated halves offsetParams blankState))
    = (pt :: rest) :: more
    /\ SubsetPoint.x pt
       = OrbitParams.e (orbitParams (generated halves offsetParams blankState))
    /\ SubsetPoint.y pt
       = OrbitParams.a (orbitParams (generated halves offsetParams blankState)).
Proof.
  apply (first_point_is_e_a halves [offsetParams] (Fin 1) blankState
           (generated halves offsetParams blankState)
           (generateOrbit_curated halves [offsetParams] (Fin 1)
              blankState offsetParams eq_refl eq_refl)).
  - exact offsetParams_finite.
  - simpl. lia.
  - simpl. lia.
Defined.

(** ** The particle sets that [init] creates (lines 210-249) *)

Section InitLayout.
Local Open Scope num_scope.
Variable defaults : Defaults.t.
Variable hsvToHsl : option number -> number -> number -> HSL.

Lemma grid_nth {A : Type} (g : nat -> nat -> A) (S0 : nat) (L : nat) :
  forall a k s : nat,
    (k < L)%nat -> (s < S0)%nat ->
    nth_error
      (flat_map (fun k => map (g k) (seq 0 S0)) (seq a L)) (k * S0 + s)
    = Some (g (a + k)%nat s).
Proof.
  induction L as [| L IH]; intros a k s Hk Hs; [lia |].
  cbn [seq flat_map]. destruct k as [| k].
  - rewrite nth_error_app1 by (rewrite length_map, length_seq; lia).
    simpl. rewrite nth_error_map, nth_error_seq.
    destruct (Nat.ltb_spec s S0); [| lia].
    rewrite Nat.add_0_r. reflexivity.
  - rewrite nth_error_app2 by (rewrite length_map, length_seq; simpl; lia).
    rewrite length_map, length_seq.
    replace (S k * S0 + s - S0)%nat with (k * S0 + s)%nat by (simpl; lia).
    rewrite IH by lia. do 2 f_equal. lia.
Qed.

Lemma grid_length {A : Type} (g : nat -> nat -> A) (S0 L : nat) :
  forall a : nat,
    length (flat_map (fun k => map (g k) (seq 0 S0)) (seq a L))
    = (L * S0)%nat.
Proof.
  induction L as [| L IH]; intros a; [reflexivity |].
  cbn [seq flat_map]. rewrite length_app, length_map, length_seq, IH.
  simpl. lia.
Qed.

Lemma NoDup_map_injective {A B : Type} (f : A -> B) (l : list A) :
  (forall x y, f x = f y -> x = y) -> NoDup l -> NoDup (map f l).
Proof.
  intros Hinj Hl. induction Hl as [| x l Hx Hl IH]; simpl; constructor.
  - intros Hin. apply in_map_iff in Hin. destruct Hin as (y & Hy & Hin).
    apply Hinj in Hy. subst y. contradiction.
  - exact IH.
Qed.

Lemma grid_keys (h : Hopalong) (S0 L : nat) :
  forall a : nat,
    NoDup
      (map (fun ps => (myLevel ps, mySubset ps))
         (flat_map
            (fun k => map (newParticleSet defaults hsvToHsl h k) (seq 0 S0))
            (seq a L)))
    /\ forall ps,
         In ps
           (flat_map
              (fun k => map (newParticleSet defaults hsvToHsl h k) (seq 0 S0))
              (seq a L)) ->
         exists k s,
           (a <= k < a + L)%nat /\ (s < S0)%nat
           /\ ps = newParticleSet defaults hsvToHsl h k s.
Proof.
  assert (Hin : forall a L ps,
             In ps
               (flat_map
                  (fun k =>
                     map (newParticleSet defaults hsvToHsl h k) (seq 0 S0))
                  (seq a L)) ->
             exists k s,
               (a <= k < a + L)%nat /\ (s < S0)%nat
               /\ ps = newParticleSet defaults hsvToHsl h k s).
  { intros a L' ps Hps. apply in_flat_map in Hps.
    destruct Hps as (k & Hk & Hps). apply in_map_iff in Hps.
    destruct Hps as (s & <- & Hs). apply in_seq in Hk. apply in_seq in Hs.
    exists k, s. repeat split; lia. }
  induction L as [| L IH]; intros a.
  - split; [constructor | intros ps []].
  - split; [| apply Hin].
    cbn [seq flat_map]. rewrite map_app. apply NoDup_app.
    + rewrite map_map. cbn [myLevel mySubset newParticleSet].
      apply NoDup_map_injective; [| apply seq_NoDup].
      intros x y Hxy. congruence.
    + apply IH.
    + intros key Hkey1 Hkey2.
      apply in_map_iff in Hkey1. destruct Hkey1 as (ps1 & <- & Hps1).
      apply in_map_iff in Hps1. destruct Hps1 as (s1 & <- & _).
      apply in_map_iff in Hkey2. destruct Hkey2 as (ps2 & Hkey & Hps2).
      apply Hin in Hps2. destruct Hps2 as (k2 & s2 & Hk2 & _ & ->).
      cbn in Hkey. injection Hkey as Hk _. lia.
Qed.

(** X7.  [init] creates one particle set per level and subset, level
    after level: with [L] levels and [S > 0] subsets there are [L * S]
    sets, and the set at index [i] is that of level [i / S] and subset
    [i mod S]; it starts [600 / S * i] behind the camera's depth 750, so
    the sets are evenly spaced, no two at the same depth, none beyond the
    camera and all within [600 * L] of it; it is not flagged, holds the
    vertices of its subset and carries the current parameters.  No two
    sets have the same level and subset. *)
Theorem initial_particle_sets :
  forall h : Hopalong,
    (0 < numSubsets h)%nat ->
    length (newParticleSets defaults hsvToHsl h)
    = (numLevels h * numSubsets h)%nat
    /\ NoDup
         (map (fun ps => (myLevel ps, mySubset ps))
            (newParticleSets defaults hsvToHsl h))
    /\ forall i : nat,
         (i < numLevels h * numSubsets h)%nat ->
         exists ps,
           nth_error (newParticleSets defaults hsvToHsl h) i = Some ps
           /\ myLevel ps = (i / numSubsets h)%nat
           /\ mySubset ps = (i mod numSubsets h)%nat
           /\ vertices (geometry (particles ps)) = mySubset ps
           /\ needsUpdate ps = false
           /\ params ps = orbitParams h
           /\ myMaterial ps
              = hsvToHsl (nth_error (hueValues h) (mySubset ps))
                  (Defaults.saturation defaults)
                  (Defaults.brightness defaults)
           /\ position_z (particles ps)
              = Fin (750 - 600 / INR (numSubsets h) * INR i)
           /\ (750 - 600 * INR (numLevels h)
               < 750 - 600 / INR (numSubsets h) * INR i <= 750)%R.
Proof.
  intros h HS. unfold newParticleSets.
  split; [apply grid_length |].
  split; [apply (grid_keys h (numSubsets h) (numLevels h) 0) |].
  intros i Hi.
  set (S0 := numSubsets h) in *. set (L := numLevels h) in *.
  assert (Hdiv : (i = (i / S0) * S0 + i mod S0)%nat).
  { rewrite (Nat.mul_comm (i / S0) S0). apply Nat.div_mod_eq. }
  assert (Hk : (i / S0 < L)%nat)
    by (apply Nat.Div0.div_lt_upper_bound; lia).
  assert (Hs : (i mod S0 < S0)%nat) by (apply Nat.mod_upper_bound; lia).
  exists (newParticleSet defaults hsvToHsl h (i / S0) (i mod S0)).
  split.
  { rewrite Hdiv at 1. rewrite grid_nth by assumption. reflexivity. }
  do 6 (split; [reflexivity |]).
  assert (HS0 : (0 < INR S0)%R) by (apply lt_0_INR; exact HS).
  assert (Hi' : INR i = (INR (i / S0) * INR S0 + INR (i mod S0))%R).
  { rewrite Hdiv at 1. rewrite plus_INR, mult_INR. reflexivity. }
  split.
  - rewrite newParticleSet_depth by (fold S0; lia). fold S0.
    f_equal. rewrite Hi'. field. lra.
  - assert (Hlt : (INR i < INR L * INR S0)%R).
    { rewrite <- mult_INR. apply lt_INR. exact Hi. }
    pose proof (pos_INR i) as Hpos.
    assert (Hq : (0 <= 600 / INR S0 * INR i < 600 * INR L)%R).
    { unfold Rdiv. pose proof (Rinv_0_lt_compat _ HS0) as Hinv.
      assert (Hinv1 : (/ INR S0 * INR S0 = 1)%R) by (apply Rinv_l; lra).
      split; [nra |].
      assert (Hmul : (/ INR S0 * INR i < / INR S0 * (INR L * INR S0))%R)
        by (apply Rmult_lt_compat_l; assumption).
      nra. }
    lra.
Qed.

End InitLayout.

Lemma initial_particle_sets_witness :
  length (newParticleSets someDefaults plainHsl hued) = 2%nat
  /\ exists ps,
       nth_error (newParticleSets someDefaults plainHsl hued) 1 = Some ps
       /\ (myLevel ps, mySubset ps) = (1%nat, 0%nat)
       /\ myMaterial ps = (Fin 0.5, Fin 0.8, Fin 1)
       /\ position_z (particles ps) = Fin (750 - 600 / INR 1 * INR 1).
Proof.
  destruct (initial_particle_sets someDefaults plainHsl hued)
    as (Hlen & _ & Hat).
  - unfold hued. simpl. lia.
  - split; [exact Hlen |].
    destruct (Hat 1%nat) as (ps & Hps & Hl & Hs & _ & _ & _ & Hm & Hz & _).
    + unfold hued. simpl. lia.
    + exists ps. split; [exact Hps |].
      split; [rewrite Hl, Hs; reflexivity |].
      split; [rewrite Hm, Hs; reflexivity | exact Hz].
Defined.

(** ** What every call preserves *)

Section Invariants.
Local Open Scope num_scope.
Variable Math_random : nat -> R.
Variable best_frames : list OrbitParams.t.
Variable defaults : Defaults.t.
Variable hsvToHsl : option number -> number -> number -> HSL.
Variable srt :
  (ParticleSet -> ParticleSet -> number) ->
  list ParticleSet -> list ParticleSet.
Hypothesis srt_contract : sortContract srt.

Lemma renderSet_keys (h : Hopalong) (ps : ParticleSet) :
  myLevel (renderSet defaults hsvToHsl h ps) = myLevel ps
  /\ mySubset (renderSet defaults hsvToHsl h ps) = mySubset ps
  /\ vertices (geometry (particles (renderSet defaults hsvToHsl h ps)))
     = vertices (geometry (particles ps)).
Proof.
  unfold renderSet.
  destruct (position_z (particles ps) + speed h >? camera_z (camera h));
    destruct (needsUpdate ps); repeat split.
Qed.

(** How a regeneration ends, in terms of the generation. *)
Lemma updateOrbit_cases (now : number) (h : Hopalong) :
  (exists hg,
      generateOrbit Math_random best_frames now h = Return tt hg
      /\ updateOrbit Math_random best_frames now h
         = Return tt
             (set_particleSets
                (map flag (particleSets (generateHues Math_random hg)))
                (generateHues Math_random hg)))
  \/ (exists cursor,
         updateOrbit Math_random best_frames now h
         = TypeError (set_currentFrame cursor h)).
Proof.
  destruct (updateOrbit Math_random best_frames now h) as [[] h' | h1] eqn:E.
  - left. unfold updateOrbit in E.
    destruct (generateOrbit Math_random best_frames now h)
      as [[] hg | h1]; cbn [andThen] in E; [| discriminate].
    exists hg. split; [reflexivity | symmetry; exact E].
  - right.
    destruct (updateOrbit_throw_state Math_random best_frames now h h1 E)
      as (cursor & ->).
    exists cursor. reflexivity.
Qed.

(** The shape of the arrays that the keys of a list of particle sets
    must fit. *)
Lemma sets_shape_transfer (l l' : list ParticleSet) (L S0 : nat) :
  map (fun ps => (myLevel ps, mySubset ps, vertices (geometry (particles ps))))
    l'
  = map (fun ps => (myLevel ps, mySubset ps, vertices (geometry (particles ps))))
      l ->
  length l = (L * S0)%nat
  /\ Forall
       (fun ps =>
          (myLevel ps < L)%nat /\ (mySubset ps < S0)%nat
          /\ vertices (geometry (particles ps)) = mySubset ps) l
  /\ NoDup (map (fun ps => (myLevel ps, mySubset ps)) l) ->
  length l' = (L * S0)%nat
  /\ Forall
       (fun ps =>
          (myLevel ps < L)%nat /\ (mySubset ps < S0)%nat
          /\ vertices (geometry (particles ps)) = mySubset ps) l'
  /\ NoDup (map (fun ps => (myLevel ps, mySubset ps)) l').
Proof.
  intros Hkeys (Hlen & Hall & Hnd).
  assert (Hlen' : length l' = length l).
  { rewrite <- (length_map
                  (fun ps => (myLevel ps, mySubset ps,
                              vertices (geometry (particles ps)))) l'),
      Hkeys, length_map. reflexivity. }
  assert (Hpair : map (fun ps => (myLevel ps, mySubset ps)) l'
                  = map (fun ps => (myLevel ps, mySubset ps)) l).
  { transitivity
      (map fst
         (map (fun ps => (myLevel ps, mySubset ps,
                          vertices (geometry (particles ps)))) l')).
    - rewrite map_map. reflexivity.
    - rewrite Hkeys, map_map. reflexivity. }
  split; [lia |]. split; [| rewrite Hpair; exact Hnd].
  rewrite Forall_forall in *. intros ps' Hps'.
  apply (in_map (fun ps => (myLevel ps, mySubset ps,
                            vertices (geometry (particles ps))))) in Hps'.
  rewrite Hkeys in Hps'. apply in_map_iff in Hps'.
  destruct Hps' as (ps & Heq & Hps). injection Heq as H1 H2 H3.
  rewrite <- H1, <- H2, <- H3. apply Hall. exact Hps.
Qed.

Lemma wellFormed_same (h h' : Hopalong) :
  orbit h' = orbit h ->
  hueValues h' = hueValues h ->
  particleSets h' = particleSets h ->
  (numSubsets h', numPointsSubset h', numLevels h')
  = (numSubsets h, numPointsSubset h, numLevels h) ->
  wellFormed h -> wellFormed h'.
Proof.
  unfold wellFormed. intros -> -> -> Heq. injection Heq as -> -> ->.
  intros H. exact H.
Qed.

Lemma wellFormed_perform (a : action) (h : Hopalong) :
  wellFormed h ->
  wellFormed
    (perform Math_random best_frames defaults hsvToHsl srt a h).
Proof.
  intros Hwf.
  destruct a as [| now | delta | delta | s | | locked | | fov | | x y];
    cbn [perform].
  - (* Render *)
    destruct Hwf as (Ho & Hsub & Hhue & Hsets).
    unfold wellFormed. rewrite render_sets.
    split; [exact Ho |]. split; [exact Hsub |]. split; [exact Hhue |].
    apply (sets_shape_transfer (particleSets h)); [| exact Hsets].
    rewrite map_map. apply map_ext. intros ps.
    destruct (renderSet_keys h ps) as (-> & -> & ->). reflexivity.
  - (* UpdateOrbit *)
    destruct (updateOrbit_cases now h) as [(hg & Hgen & ->) | (c & ->)];
      [| cbn [state_of]; apply (wellFormed_same h); [reflexivity .. | exact Hwf]].
    destruct Hwf as (Ho & Hsub & Hhue & Hsets).
    cbn [state_of].
    destruct (generateOrbit_frame Math_random best_frames now h hg
                Hgen)
      as (G1 & G2 & _ & Gc & Gs).
    injection Gc as GS GP GL _. injection Gs as Gh Gp _.
    pose proof (generateHues_length Math_random hg) as Hl.
    unfold wellFormed. cbn.
    rewrite GS, GP, GL, Gp.
    split; [exact G1 |]. split; [exact G2 |].
    split; [rewrite length_app, draws_length; lia |].
    apply (sets_shape_transfer (particleSets h)); [| exact Hsets].
    rewrite map_map. reflexivity.
  - unfold changeSpeed.
    destruct (speed h + delta >=? Fin 0);
      apply (wellFormed_same h); try reflexivity; exact Hwf.
  - apply (wellFormed_same h); [reflexivity .. | exact Hwf].
  - destruct s as [[v |] [r |] [l |] [f |]];
      apply (wellFormed_same h); try reflexivity; exact Hwf.
  - apply (wellFormed_same h); [reflexivity .. | exact Hwf].
  - destruct locked;
      apply (wellFormed_same h); try reflexivity; exact Hwf.
  - apply (wellFormed_same h); [reflexivity .. | exact Hwf].
  - apply (wellFormed_same h); [reflexivity .. | exact Hwf].
  - (* GetCurrentOrbitParams *)
    destruct Hwf as (Ho & Hsub & Hhue & Hsets).
    rewrite getCurrentOrbitParams_state.
    destruct (srt_contract compareSets (particleSets h)) as [Hperm _].
    destruct Hsets as (Hlen & Hall & Hnd).
    unfold wellFormed. cbn.
    split; [exact Ho |]. split; [exact Hsub |]. split; [exact Hhue |].
    split; [rewrite <- (Permutation_length Hperm); exact Hlen |].
    split.
    + rewrite Forall_forall in *. intros ps Hps. apply Hall.
      apply (Permutation_in _ (Permutation_sym Hperm)). exact Hps.
    + apply (Permutation_NoDup
               (Permutation_map (fun ps => (myLevel ps, mySubset ps)) Hperm)).
      exact Hnd.
  - apply (wellFormed_same h); [reflexivity .. | exact Hwf].
Qed.

Lemma wellFormed_reads (h : Hopalong) : wellFormed h -> readsDefined h.
Proof.
  intros (Ho & Hsub & Hhue & _ & Hall & _) ps Hps.
  rewrite Forall_forall in Hall. destruct (Hall ps Hps) as (_ & Hs & Hv).
  split.
  - destruct (nth_error (hueValues h) (mySubset ps)) as [hue |] eqn:E;
      [eauto |].
    apply nth_error_None in E. lia.
  - rewrite Hv.
    destruct (nth_error (Orbit.subsets (orbit h)) (mySubset ps))
      as [sub |] eqn:E.
    + exists sub. split; [reflexivity |].
      rewrite Forall_forall in Hsub. apply Hsub.
      apply (nth_error_In _ _ E).
    + apply nth_error_None in E. lia.
Qed.

(** X8.  The sizes of the arrays fit together after every call.  If the
    orbit has [numSubsets] subsets of [numPointsSubset] points, there is a
    hue per subset and one particle set per level and subset holding the
    vertices of its subset, then the same holds after any sequence of
    calls (frames, regenerations that return or throw, settings changes,
    pointer events, queries), and the three counts and the mode never
    change.  So no frame ever reads a hue or a subset of vertices that
    does not exist. *)
Theorem arrays_always_fit :
  forall (l : list action) (h : Hopalong),
    wellFormed h ->
    wellFormed (performAll Math_random best_frames defaults hsvToHsl srt l h)
    /\ readsDefined
         (performAll Math_random best_frames defaults hsvToHsl srt l h)
    /\ (numSubsets
          (performAll Math_random best_frames defaults hsvToHsl srt l h),
        numPointsSubset
          (performAll Math_random best_frames defaults hsvToHsl srt l h),
        numLevels
          (performAll Math_random best_frames defaults hsvToHsl srt l h),
        vibeCheck
          (performAll Math_random best_frames defaults hsvToHsl srt l h))
       = (numSubsets h, numPointsSubset h, numLevels h, vibeCheck h).
Proof.
  induction l as [| a l IH]; intros h Hwf; cbn [performAll].
  - split; [exact Hwf |]. split; [apply wellFormed_reads; exact Hwf |].
    reflexivity.
  - destruct (IH _ (wellFormed_perform a h Hwf)) as (H1 & H2 & H3).
    split; [exact H1 |]. split; [exact H2 |].
    rewrite H3. clear.
    destruct a as [| now | delta | delta | s | | locked | | fov | | x y];
      cbn [perform]; try reflexivity.
    + destruct (updateOrbit_cases now h) as [(hg & Hgen & ->) | (c & ->)];
        [| reflexivity].
      cbn [state_of].
      destruct (generateOrbit_frame Math_random best_frames now h
                  hg Hgen) as (_ & _ & _ & Gc & _).
      exact Gc.
    + unfold changeSpeed. destruct (speed h + delta >=? Fin 0); reflexivity.
    + destruct s as [[v |] [r |] [lk |] [f |]]; reflexivity.
    + destruct locked; reflexivity.
    + rewrite getCurrentOrbitParams_state. reflexivity.
Qed.

End Invariants.

(** ** The constructor *)

Section ConstructorFacts.
Local Open Scope num_scope.
Variable Math_random : nat -> R.
Variable best_frames : list OrbitParams.t.
Variable defaults : Defaults.t.
Variable hsvToHsl : option number -> number -> number -> HSL.

Lemma newParticleSets_sets (l : list ParticleSet) (h : Hopalong) :
  newParticleSets defaults hsvToHsl (set_particleSets l h)
  = newParticleSets defaults hsvToHsl h.
Proof. reflexivity. Qed.

Lemma newParticleSets_wellFormed (h : Hopalong) :
  length (newParticleSets defaults hsvToHsl h)
  = (numLevels h * numSubsets h)%nat
  /\ Forall
       (fun ps =>
          (myLevel ps < numLevels h)%nat /\ (mySubset ps < numSubsets h)%nat
          /\ vertices (geometry (particles ps)) = mySubset ps)
       (newParticleSets defaults hsvToHsl h)
  /\ NoDup
       (map (fun ps => (myLevel ps, mySubset ps))
          (newParticleSets defaults hsvToHsl h)).
Proof.
  unfold newParticleSets.
  destruct (grid_keys defaults hsvToHsl h (numSubsets h) (numLevels h) 0)
    as [Hnd Hin].
  split; [apply grid_length |]. split; [| exact Hnd].
  apply Forall_forall. intros ps Hps.
  destruct (Hin ps Hps) as (k & s & Hk & Hs & ->).
  cbn. repeat split; lia.
Qed.

Lemma wellFormed_sets (l : list ParticleSet) (h : Hopalong) :
  length (Orbit.subsets (orbit h)) = numSubsets h ->
  Forall (fun sub => length sub = numPointsSubset h)
    (Orbit.subsets (orbit h)) ->
  (numSubsets h <= length (hueValues h))%nat ->
  length l = (numLevels h * numSubsets h)%nat
  /\ Forall
       (fun ps =>
          (myLevel ps < numLevels h)%nat /\ (mySubset ps < numSubsets h)%nat
          /\ vertices (geometry (particles ps)) = mySubset ps) l
  /\ NoDup (map (fun ps => (myLevel ps, mySubset ps)) l) ->
  wellFormed (set_particleSets l h).
Proof.
  intros H1 H2 H3 H4. unfold wellFormed. cbn. auto.
Qed.

(** What [init] leaves when the constructor has called it. *)
Lemma init_outcome :
  forall (now : number) (subsetCount levelCount pointsPerSubset : option nat),
    (best_frames = [] ->
     exists h,
       init Math_random best_frames defaults hsvToHsl now
         (fresh defaults now subsetCount levelCount pointsPerSubset)
       = TypeError h)
    /\ (forall p rest,
          best_frames = p :: rest ->
          exists h,
            init Math_random best_frames defaults hsvToHsl now
              (fresh defaults now subsetCount levelCount pointsPerSubset)
            = Return tt h
            /\ wellFormed h
            /\ orbitParams h = p
            /\ orbitParamHistory h = [p]
            /\ currentFrame h = 1%nat
            /\ vibeCheck h = true
            /\ numSubsets h
               = orDefault subsetCount (Defaults.subsets defaults)
            /\ numLevels h = orDefault levelCount (Defaults.levels defaults)
            /\ numPointsSubset h
               = orDefault pointsPerSubset (Defaults.points_subset defaults)
            /\ camera h
               = Build_Camera (Fin 0) (Fin 0) (Fin 750)
                   (Defaults.fov defaults)
            /\ (mouseX h, mouseY h, mouseLocked h) = (Fin 0, Fin 0, false)
            /\ (speed h, rotationSpeed h)
               = (Defaults.speed defaults, Defaults.rotation_speed defaults)
            /\ particleSets h = newParticleSets defaults hsvToHsl h).
Proof.
  intros now sc lc pc. unfold init.
  match goal with
  | |- context [generateOrbit _ _ _ ?h0] => set (start := h0)
  end.
  split.
  - intros ->. unfold generateOrbit, prepareOrbit.
    rewrite (shuffle_at_length Math_random [] now start eq_refl eq_refl).
    cbn [andThen]. eexists. reflexivity.
  - intros p rest ->.
    rewrite (generateOrbit_curated Math_random (p :: rest) now start p
               eq_refl eq_refl).
    cbn [andThen]. eexists. split; [reflexivity |].
    pose proof (generateOrbit_frame Math_random (p :: rest) now
                  start (generated Math_random p start)
                  (generateOrbit_curated Math_random (p :: rest) now start p
                     eq_refl eq_refl))
      as (G1 & G2 & _).
    pose proof (generateHues_length Math_random
                  (generated Math_random p start)) as Hl.
    split.
    { apply wellFormed_sets.
      - exact G1.
      - exact G2.
      - rewrite Hl. apply Nat.le_max_l.
      - apply (newParticleSets_wellFormed
                 (generateHues Math_random (generated Math_random p start))). }
    do 7 (split; [reflexivity |]).
    split; [| split; [reflexivity | split; reflexivity]].
    change (Build_Camera (Fin 0) (Fin 0) (SCALE_FACTOR / Fin 2)
              (Defaults.fov defaults)
            = Build_Camera (Fin 0) (Fin 0) (Fin 750) (Defaults.fov defaults)).
    unfold SCALE_FACTOR. rewrite div_fin by lra.
    do 2 f_equal. lra.
Qed.

Lemma ease_rest : ease (Fin 0) (Fin 0) = Fin 0 /\ ease (Fin 0) (- Fin 0) = Fin 0.
Proof.
  change (- Fin 0) with (Fin (- 0)).
  rewrite (ease_inside 0 0), (ease_inside 0 (- 0)) by lra.
  split; f_equal; lra.
Qed.

(** X9.  What [new Hopalong(...)] leaves.  With an empty catalog it throws
    (the first selection reads [best_frames[0].params]).  With a catalog
    that has a first entry [p] it returns: the parameters are [p], the
    history is [[p]], the cursor is 1, the mode is curated; each count is
    its argument when that is a positive number and the default when the
    argument is missing or 0; the camera is at (0, 0, 750) with the
    default field of view; the pointer is at the centre and not locked;
    the speeds are the defaults; the arrays fit together; the particle
    sets are those of [init] after the first frame, which the
    constructor's call of [animate] has rendered.  With a positive default
    speed that frame has already sent the first particle set, which
    [init] puts at the camera's depth, back to
    [-(numLevels - 1) * 600]. *)
Theorem newHopalong_outcome :
  forall (now : number) (subsetCount levelCount pointsPerSubset : option nat)
         (innerWidth innerHeight : number) (cursorHidden : bool),
    (best_frames = [] ->
     newHopalong Math_random best_frames defaults hsvToHsl now
       subsetCount levelCount pointsPerSubset innerWidth innerHeight
       cursorHidden
     = None
     /\ exists h,
          constructor Math_random best_frames defaults hsvToHsl now
            subsetCount levelCount pointsPerSubset
          = TypeError h)
    /\ (forall p rest,
          best_frames = p :: rest ->
          exists page,
            newHopalong Math_random best_frames defaults hsvToHsl now
              subsetCount levelCount pointsPerSubset innerWidth innerHeight
              cursorHidden
            = Some page
            /\ constructor Math_random best_frames defaults hsvToHsl now
                 subsetCount levelCount pointsPerSubset
               = Return tt (hopalong page)
            /\ wellFormed (hopalong page)
            /\ orbitParams (hopalong page) = p
            /\ orbitParamHistory (hopalong page) = [p]
            /\ currentFrame (hopalong page) = 1%nat
            /\ vibeCheck (hopalong page) = true
            /\ (forall m : nat,
                   (subsetCount = Some (S m) ->
                    numSubsets (hopalong page) = S m)
                   /\ (levelCount = Some (S m) ->
                       numLevels (hopalong page) = S m)
                   /\ (pointsPerSubset = Some (S m) ->
                       numPointsSubset (hopalong page) = S m))
            /\ (subsetCount = None \/ subsetCount = Some 0%nat ->
                numSubsets (hopalong page) = Defaults.subsets defaults)
            /\ (levelCount = None \/ levelCount = Some 0%nat ->
                numLevels (hopalong page) = Defaults.levels defaults)
            /\ (pointsPerSubset = None \/ pointsPerSubset = Some 0%nat ->
                numPointsSubset (hopalong page)
                = Defaults.points_subset defaults)
            /\ camera (hopalong page)
               = Build_Camera (Fin 0) (Fin 0) (Fin 750)
                   (Defaults.fov defaults)
            /\ (mouseX (hopalong page), mouseY (hopalong page),
                mouseLocked (hopalong page))
               = (Fin 0, Fin 0, false)
            /\ (speed (hopalong page), rotationSpeed (hopalong page))
               = (Defaults.speed defaults, Defaults.rotation_speed defaults)
            /\ (windowHalfX page, windowHalfY page, destroyed page,
                hideCursor page)
               = (innerWidth / Fin 2, innerHeight / Fin 2, false,
                  cursorHidden)
            /\ particleSets (hopalong page)
               = map (renderSet defaults hsvToHsl (hopalong page))
                   (newParticleSets defaults hsvToHsl (hopalong page))
            /\ (forall v : R,
                   Defaults.speed defaults = Fin v ->
                   (0 < v)%R ->
                   (0 < numSubsets (hopalong page))%nat ->
                   (0 < numLevels (hopalong page))%nat ->
                   exists first others,
                     particleSets (hopalong page) = first :: others
                     /\ (myLevel first, mySubset first) = (0%nat, 0%nat)
                     /\ position_z (particles first)
                        = Fin (- (INR (numLevels (hopalong page)) - 1)
                               * 600))).
Proof.
  intros now sc lc pc iw ih hidden.
  destruct (init_outcome now sc lc pc) as [Hnone Hsome].
  unfold newHopalong, constructor. split.
  - intros Hnil. destruct (Hnone Hnil) as (h & ->).
    split; [reflexivity |]. exists h. reflexivity.
  - intros p rest Hcat.
    destruct (Hsome p rest Hcat)
      as (h & -> & Hwf & Hp & Hh & Hc & Hm & HS & HL & HP & Hcam & Hptr
          & Hsp & Hsets).
    unfold animate.
    cbn [onWindowResize destroyed hopalong onHopalong andThen].
    eexists. split; [reflexivity |].
    cbn [hopalong windowHalfX windowHalfY destroyed hideCursor].
    split; [reflexivity |].
    injection Hptr as Hmx Hmy Hml. injection Hsp as Hspeed Hrot.
    assert (Hcam' : camera (render defaults hsvToHsl h)
                    = Build_Camera (Fin 0) (Fin 0) (Fin 750)
                        (Defaults.fov defaults)).
    { change (camera (render defaults hsvToHsl h)) with (moveCamera h).
      unfold moveCamera. rewrite Hcam, Hmx, Hmy.
      cbn [camera_x camera_y camera_z camera_fov].
      destruct ease_rest as [-> ->]. reflexivity. }
    assert (Hrender : particleSets (render defaults hsvToHsl h)
                      = map (renderSet defaults hsvToHsl
                               (render defaults hsvToHsl h))
                          (newParticleSets defaults hsvToHsl
                             (render defaults hsvToHsl h))).
    { rewrite render_sets, Hsets. apply map_ext. intros ps.
      apply renderSet_ext; reflexivity. }
    split.
    { apply (wellFormed_perform Math_random best_frames defaults hsvToHsl
               insertionSort insertionSort_contract Render h Hwf). }
    do 4 (split; [assumption |]).
    split.
    { intros m. split; [| split]; intros Heq.
      - change (numSubsets h = S m). rewrite HS, Heq. reflexivity.
      - change (numLevels h = S m). rewrite HL, Heq. reflexivity.
      - change (numPointsSubset h = S m). rewrite HP, Heq. reflexivity. }
    split.
    { intros [Heq | Heq]; change (numSubsets h = Defaults.subsets defaults);
        rewrite HS, Heq; reflexivity. }
    split.
    { intros [Heq | Heq]; change (numLevels h = Defaults.levels defaults);
        rewrite HL, Heq; reflexivity. }
    split.
    { intros [Heq | Heq];
        change (numPointsSubset h = Defaults.points_subset defaults);
        rewrite HP, Heq; reflexivity. }
    split; [exact Hcam' |].
    split.
    { change ((mouseX h, mouseY h, mouseLocked h) = (Fin 0, Fin 0, false)).
      rewrite Hmx, Hmy, Hml. reflexivity. }
    split.
    { change ((speed h, rotationSpeed h)
              = (Defaults.speed defaults, Defaults.rotation_speed defaults)).
      rewrite Hspeed, Hrot. reflexivity. }
    split; [reflexivity |].
    split; [exact Hrender |].
    intros v Hv Hpos HS0 HL0.
    assert (HS1 : (0 < numSubsets h)%nat) by exact HS0.
    assert (HL1 : (0 < numLevels h)%nat) by exact HL0.
    clear HS0 HL0.
    assert (Hfirst : exists others,
               newParticleSets defaults hsvToHsl (render defaults hsvToHsl h)
               = newParticleSet defaults hsvToHsl
                   (render defaults hsvToHsl h) 0 0 :: others).
    { unfold newParticleSets.
      change (numSubsets (render defaults hsvToHsl h)) with (numSubsets h).
      change (numLevels (render defaults hsvToHsl h)) with (numLevels h).
      destruct (numSubsets h) as [| S'] eqn:ES; [lia |].
      destruct (numLevels h) as [| L'] eqn:EL; [lia |].
      cbn [seq flat_map map app]. eexists. reflexivity. }
    destruct Hfirst as (others & Hfirst).
    exists (renderSet defaults hsvToHsl (render defaults hsvToHsl h)
              (newParticleSet defaults hsvToHsl
                 (render defaults hsvToHsl h) 0 0)),
      (map (renderSet defaults hsvToHsl (render defaults hsvToHsl h)) others).
    split.
    { etransitivity; [exact Hrender |]. rewrite Hfirst. reflexivity. }
    destruct (renderSet_keys defaults hsvToHsl
                (render defaults hsvToHsl h)
                (newParticleSet defaults hsvToHsl
                   (render defaults hsvToHsl h) 0 0))
      as (-> & -> & _).
    split; [reflexivity |].
    destruct (renderSet_motion defaults hsvToHsl
                (render defaults hsvToHsl h)
                (newParticleSet defaults hsvToHsl
                   (render defaults hsvToHsl h) 0 0))
      as (_ & Hyes & _).
    rewrite Hyes.
    + change (numLevels (render defaults hsvToHsl h)) with (numLevels h).
      apply backDepth_formula.
    + rewrite newParticleSet_front
        by (change (numSubsets (render defaults hsvToHsl h))
              with (numSubsets h); lia).
      rewrite Hcam'.
      change (speed (render defaults hsvToHsl h)) with (speed h).
      rewrite Hspeed, Hv. cbn [camera_z].
      unfold Num.add, Num.gt, Num.lt. apply Rltb_true. lra.
Qed.

End ConstructorFacts.

Lemma fittedState_wellFormed : wellFormed fittedState.
Proof.
  unfold wellFormed, fittedState, blankState, sampleSet.
  cbn [orbit Orbit.subsets numSubsets numPointsSubset numLevels hueValues
         particleSets set_hueValues set_particleSets length map Nat.mul
         Nat.add myLevel mySubset vertices geometry particles].
  split; [reflexivity |].
  split; [repeat constructor |].
  split; [apply Nat.le_refl |].
  split; [reflexivity |].
  split.
  - constructor; [| constructor]. repeat split; apply Nat.lt_0_1.
  - constructor; [| constructor]. intros [].
Qed.

Lemma arrays_always_fit_witness :
  wellFormed
    (performAll halves agedCatalog someDefaults plainHsl insertionSort
       [Render; UpdateOrbit (Fin 2); GetCurrentOrbitParams;
        UpdateOrbit (Fin 3); UpdateOrbit (Fin 4); Render]
       fittedState)
  /\ readsDefined
       (performAll halves agedCatalog someDefaults plainHsl insertionSort
          [Render; UpdateOrbit (Fin 2); GetCurrentOrbitParams;
           UpdateOrbit (Fin 3); UpdateOrbit (Fin 4); Render]
          fittedState)
  /\ (numSubsets
        (performAll halves agedCatalog someDefaults plainHsl insertionSort
           [Render; UpdateOrbit (Fin 2); GetCurrentOrbitParams;
            UpdateOrbit (Fin 3); UpdateOrbit (Fin 4); Render]
           fittedState),
      numPointsSubset
        (performAll halves agedCatalog someDefaults plainHsl insertionSort
           [Render; UpdateOrbit (Fin 2); GetCurrentOrbitParams;
            UpdateOrbit (Fin 3); UpdateOrbit (Fin 4); Render]
           fittedState),
      numLevels
        (performAll halves agedCatalog someDefaults plainHsl insertionSort
           [Render; UpdateOrbit (Fin 2); GetCurrentOrbitParams;
            UpdateOrbit (Fin 3); UpdateOrbit (Fin 4); Render]
           fittedState),
      vibeCheck
        (performAll halves agedCatalog someDefaults plainHsl insertionSort
           [Render; UpdateOrbit (Fin 2); GetCurrentOrbitParams;
            UpdateOrbit (Fin 3); UpdateOrbit (Fin 4); Render]
           fittedState))
     = (numSubsets fittedState, numPointsSubset fittedState,
        numLevels fittedState, vibeCheck fittedState).
Proof.
  apply (arrays_always_fit halves agedCatalog someDefaults plainHsl
           insertionSort insertionSort_contract).
  exact fittedState_wellFormed.
Defined.

(** ** The order in which the catalog is played *)

Section Schedule.
Local Open Scope num_scope.
Variable Math_random : nat -> R.
Variable best_frames : list OrbitParams.t.
Variable defaults : Defaults.t.
Variable hsvToHsl : option number -> number -> number -> HSL.
Variable srt :
  (ParticleSet -> ParticleSet -> number) ->
  list ParticleSet -> list ParticleSet.

(** In curated mode a regeneration leaves the cursor that the index
    expression leaves, whether it returns or throws. *)
Lemma updateOrbit_cursor (now : number) (h : Hopalong) :
  vibeCheck h = true ->
  currentFrame (state_of (updateOrbit Math_random best_frames now h))
  = snd (nextFrame best_frames (currentFrame h))
  /\ vibeCheck (state_of (updateOrbit Math_random best_frames now h)) = true.
Proof.
  intros Hmode.
  unfold updateOrbit, generateOrbit, prepareOrbit, shuffleParams.
  rewrite Hmode.
  destruct (nextFrame best_frames (currentFrame h)) as [index cursor].
  destruct (nth_error best_frames index) as [p |]; cbn [andThen].
  - match goal with
    | |- context [computeOrbit ?r ?q ?a ?b ?c] =>
        destruct (computeOrbit r q a b c) as [o calls]
    end.
    cbn [andThen state_of]. split; [reflexivity | exact Hmode].
  - cbn [state_of]. split; [reflexivity | exact Hmode].
Qed.

(** Only a regeneration moves the cursor, and nothing changes the mode. *)
Lemma perform_cursor (a : action) (h : Hopalong) :
  vibeCheck h = true ->
  vibeCheck (perform Math_random best_frames defaults hsvToHsl srt a h) = true
  /\ currentFrame (perform Math_random best_frames defaults hsvToHsl srt a h)
     = match a with
       | UpdateOrbit _ => snd (nextFrame best_frames (currentFrame h))
       | _ => currentFrame h
       end.
Proof.
  intros Hmode.
  destruct a as [| now | delta | delta | s | | locked | | fov | | x y];
    cbn [perform]; try (split; [exact Hmode | reflexivity]).
  - destruct (updateOrbit_cursor now h Hmode) as [Hc Hm]. auto.
  - unfold changeSpeed. destruct (speed h + delta >=? Fin 0);
      (split; [exact Hmode | reflexivity]).
  - destruct s as [[v |] [r |] [l |] [f |]];
      (split; [exact Hmode | reflexivity]).
  - destruct locked; (split; [exact Hmode | reflexivity]).
  - rewrite getCurrentOrbitParams_state. split; [exact Hmode | reflexivity].
Qed.

Lemma performAll_cursor (l : list action) :
  forall h : Hopalong,
    vibeCheck h = true ->
    (currentFrame h <= S (length best_frames))%nat ->
    vibeCheck (performAll Math_random best_frames defaults hsvToHsl srt l h)
    = true
    /\ currentFrame
         (performAll Math_random best_frames defaults hsvToHsl srt l h)
       = ((currentFrame h + regenerations l)
          mod (length best_frames + 2))%nat.
Proof.
  induction l as [| a l IH]; intros h Hmode Hc; cbn [performAll].
  - split; [exact Hmode |]. unfold regenerations. cbn [filter length].
    rewrite Nat.add_0_r, Nat.mod_small by lia. reflexivity.
  - destruct (perform_cursor a h Hmode) as [Hm' Hc'].
    assert (Hstep :
              (currentFrame
                 (perform Math_random best_frames defaults hsvToHsl srt a h)
               <= S (length best_frames))%nat
              /\ ((currentFrame
                     (perform Math_random best_frames defaults hsvToHsl srt
                        a h)
                   + regenerations l) mod (length best_frames + 2)
                  = (currentFrame h + regenerations (a :: l))
                    mod (length best_frames + 2))%nat).
    { rewrite Hc'. unfold regenerations, nextFrame. cbn [filter].
      destruct a; cbn [length snd]; try (split; [lia | reflexivity]).
      destruct (Nat.ltb_spec (length best_frames) (currentFrame h));
        cbn [snd].
      - split; [lia |].
        replace (currentFrame h) with (S (length best_frames)) by lia.
        match goal with
        | |- (0 + ?n) mod ?m = _ =>
            replace (S (length best_frames) + S n)%nat with (n + 1 * m)%nat
              by lia
        end.
        rewrite Nat.Div0.mod_add. reflexivity.
      - split; [lia |]. f_equal. lia. }
    destruct Hstep as [Hle Heq].
    destruct (IH _ Hm' Hle) as [H1 H2].
    split; [exact H1 |]. rewrite H2. exact Heq.
Qed.

(** X10.  The order in which the catalog is played.  In curated mode, from
    cursor 0 and a catalog of [K] entries, the cursor after any sequence
    of calls is the number of regenerations among them modulo [K + 2]
    (nothing but a regeneration moves it).  With the cursor at [r < K] the
    next regeneration installs entry [r]; at [r = K] it throws and installs
    nothing; at [r = K + 1] it installs entry 0 and leaves the cursor at 0,
    so that the regeneration after it installs entry 0 again.  Of every
    [K + 2] regenerations one throws and two install entry 0. *)
Theorem catalog_schedule :
  forall (l : list action) (h : Hopalong),
    vibeCheck h = true ->
    currentFrame h = 0%nat ->
    currentFrame
      (performAll Math_random best_frames defaults hsvToHsl srt l h)
    = (regenerations l mod (length best_frames + 2))%nat
    /\ forall (now : number) (h' : Hopalong),
         h' = performAll Math_random best_frames defaults hsvToHsl srt l h ->
         (forall p,
             nth_error best_frames (currentFrame h') = Some p ->
             exists h'',
               updateOrbit Math_random best_frames now h' = Return tt h''
               /\ orbitParams h'' = p
               /\ currentFrame h'' = S (currentFrame h'))
         /\ (currentFrame h' = length best_frames ->
             updateOrbit Math_random best_frames now h'
             = TypeError (set_currentFrame (S (length best_frames)) h'))
         /\ (currentFrame h' = S (length best_frames) ->
             forall p,
               nth_error best_frames 0 = Some p ->
               exists h'',
                 updateOrbit Math_random best_frames now h' = Return tt h''
                 /\ orbitParams h'' = p
                 /\ currentFrame h'' = 0%nat
                 /\ exists h''',
                      updateOrbit Math_random best_frames now h''
                      = Return tt h'''
                      /\ orbitParams h''' = p
                      /\ currentFrame h''' = 1%nat).
Proof.
  intros l h Hmode Hc.
  destruct (performAll_cursor l h Hmode) as [Hm' Hc']; [lia |].
  rewrite Hc in Hc'. cbn [Nat.add] in Hc'.
  split; [exact Hc' |].
  intros now h' ->.
  set (h' := performAll Math_random best_frames defaults hsvToHsl srt l h)
    in *.
  clearbody h'. clear Hc' l h Hmode Hc.
  split; [| split].
  - intros p Hp.
    rewrite (updateOrbit_curated Math_random best_frames now h' p Hm' Hp).
    eexists. split; [reflexivity |]. split; reflexivity.
  - intros Hk. apply updateOrbit_throws.
    apply shuffle_at_length; assumption.
  - intros Hk p Hp.
    assert (Hsel : shuffleParams Math_random best_frames now h'
                   = Return tt
                       (pushHistory
                          (set_orbitParams p (set_currentFrame 0 h'))))
      by (apply shuffle_beyond_length; [exact Hm' | lia | exact Hp]).
    unfold updateOrbit at 1. unfold generateOrbit, prepareOrbit.
    rewrite Hsel. cbn [andThen].
    match goal with
    | |- context [computeOrbit ?r ?q ?a ?b ?c] =>
        destruct (computeOrbit r q a b c) as [o calls]
    end.
    cbn [andThen].
    eexists. split; [reflexivity |]. split; [reflexivity |].
    split; [reflexivity |].
    match goal with
    | |- context [updateOrbit _ _ _ ?s] =>
        rewrite (updateOrbit_curated Math_random best_frames now s p Hm' Hp)
    end.
    eexists. split; [reflexivity |]. split; reflexivity.
Qed.

End Schedule.

Lemma catalog_schedule_witness :
  currentFrame
    (performAll halves agedCatalog someDefaults plainHsl insertionSort
       [UpdateOrbit (Fin 2); Render; UpdateOrbit (Fin 3); Render;
        UpdateOrbit (Fin 4); UpdateOrbit (Fin 5); Render;
        UpdateOrbit (Fin 6)]
       fittedState)
  = (regenerations
       [UpdateOrbit (Fin 2); Render; UpdateOrbit (Fin 3); Render;
        UpdateOrbit (Fin 4); UpdateOrbit (Fin 5); Render;
        UpdateOrbit (Fin 6)]
     mod (length agedCatalog + 2))%nat.
Proof.
  apply (catalog_schedule halves agedCatalog someDefaults plainHsl
           insertionSort
           [UpdateOrbit (Fin 2); Render; UpdateOrbit (Fin 3); Render;
            UpdateOrbit (Fin 4); UpdateOrbit (Fin 5); Render;
            UpdateOrbit (Fin 6)]
           fittedState); reflexivity.
Defined.

(** ** The depths of the particle sets *)

Section NumberOrder.
Local Open Scope num_scope.

Lemma le_numbers (a c : number) :
  Num.le a c = true -> a <> NaN /\ c <> NaN.
Proof. destruct a, c; cbn; intros H; split; congruence. Qed.

Lemma le_of_gt_false (a c : number) :
  a <> NaN -> c <> NaN -> (a >? c) = false -> Num.le a c = true.
Proof.
  destruct a as [x | | |], c as [y | | |]; cbn; intros Ha Hc H;
    try congruence.
  apply Rleb_true. apply Rltb_false in H. exact H.
Qed.

Lemma add_fin_number (z : number) (v : R) : z <> NaN -> z + Fin v <> NaN.
Proof. destruct z; cbn; congruence. Qed.

Lemma le_reflexive (a : number) : a <> NaN -> Num.le a a = true.
Proof.
  destruct a as [x | | |]; cbn; intros Ha; try congruence.
  apply Rleb_true. lra.
Qed.

Lemma le_add_nonneg (b z : number) (v : R) :
  (0 <= v)%R -> Num.le b z = true -> Num.le b (z + Fin v) = true.
Proof.
  intros Hv. destruct b as [x | | |], z as [y | | |]; cbn; try congruence.
  intros H. apply Rleb_true. apply Rleb_true in H. lra.
Qed.

Lemma add_NaN_l (v : number) : NaN + v = NaN.
Proof. destruct v; reflexivity. Qed.

Lemma add_NaN_r (v : number) : v + NaN = NaN.
Proof. destruct v; reflexivity. Qed.

Lemma gt_NaN_l (v : number) : (NaN >? v) = false.
Proof. destruct v; reflexivity. Qed.

End NumberOrder.

Section DepthFacts.
Local Open Scope num_scope.
Variable defaults : Defaults.t.
Variable hsvToHsl : option number -> number -> number -> HSL.

Lemma render_behind (h : Hopalong) (v : R) :
  speed h = Fin v ->
  Num.le (backDepth h) (camera_z (camera h)) = true ->
  behindCamera h ->
  behindCamera (render defaults hsvToHsl h)
  /\ ((0 <= v)%R -> aheadOfBack h ->
      aheadOfBack (render defaults hsvToHsl h)).
Proof.
  intros Hv Hback Hbehind.
  destruct (le_numbers _ _ Hback) as [Hb Hc].
  unfold behindCamera, aheadOfBack. rewrite render_sets.
  change (camera_z (camera (render defaults hsvToHsl h)))
    with (camera_z (camera h)).
  change (backDepth (render defaults hsvToHsl h)) with (backDepth h).
  split.
  - apply Forall_map. eapply Forall_impl; [| exact Hbehind].
    intros ps Hps. cbv beta in Hps |- *.
    destruct (le_numbers _ _ Hps) as [Hz _].
    destruct (renderSet_motion defaults hsvToHsl h ps) as (_ & Hyes & Hno).
    destruct (position_z (particles ps) + speed h >? camera_z (camera h))
      eqn:E.
    + rewrite (Hyes eq_refl). exact Hback.
    + rewrite (Hno eq_refl). apply le_of_gt_false; [| exact Hc | exact E].
      rewrite Hv. apply add_fin_number. exact Hz.
  - intros Hpos Hahead.
    apply Forall_map. eapply Forall_impl; [| exact Hahead].
    intros ps Hps. cbv beta in Hps |- *.
    destruct (renderSet_motion defaults hsvToHsl h ps) as (_ & Hyes & Hno).
    destruct (position_z (particles ps) + speed h >? camera_z (camera h))
      eqn:E.
    + rewrite (Hyes eq_refl). apply le_reflexive. exact Hb.
    + rewrite (Hno eq_refl). rewrite Hv.
      apply le_add_nonneg; assumption.
Qed.

(** X11.  No particle set gets beyond the camera.  When the speed is
    finite and the depth that a crossing sends a set back to is not beyond
    the camera (it never is with the camera at depth 750), particle sets
    that are not beyond the camera are not beyond it after any number of
    frames.  When the speed is moreover not negative, sets that are not
    before the back depth stay so: every depth stays between
    [-(numLevels - 1) * 600] and the camera's. *)
Theorem sets_stay_behind_camera :
  forall (n : nat) (h : Hopalong) (v : R),
    speed h = Fin v ->
    Num.le (backDepth h) (camera_z (camera h)) = true ->
    behindCamera h ->
    behindCamera (frames defaults hsvToHsl n h)
    /\ ((0 <= v)%R -> aheadOfBack h ->
        aheadOfBack (frames defaults hsvToHsl n h)).
Proof.
  induction n as [| n IH]; intros h v Hv Hback Hbehind; cbn [frames].
  - split; [exact Hbehind | auto].
  - destruct (render_behind h v Hv Hback Hbehind) as [H1 H2].
    destruct (IH (render defaults hsvToHsl h) v Hv Hback H1) as [H3 H4].
    split; [exact H3 |]. intros Hpos Hahead. apply H4; auto.
Qed.

Lemma backDepth_behind_750 (h : Hopalong) :
  camera_z (camera h) = Fin 750 ->
  Num.le (backDepth h) (camera_z (camera h)) = true.
Proof.
  intros ->. unfold backDepth, LEVEL_DEPTH.
  unfold Num.sub, Num.neg, Num.add, Num.mul, Num.le.
  apply Rleb_true.
  pose proof (pos_INR (numLevels h)). lra.
Qed.

End DepthFacts.

Lemma sets_stay_behind_camera_witness :
  behindCamera (frames someDefaults plainHsl 5 cycleState)
  /\ ((0 <= 2)%R -> aheadOfBack cycleState ->
      aheadOfBack (frames someDefaults plainHsl 5 cycleState)).
Proof.
  apply (sets_stay_behind_camera someDefaults plainHsl 5 cycleState 2).
  - reflexivity.
  - apply backDepth_behind_750. reflexivity.
  - constructor; [| constructor].
    change (Num.le (Fin (750 - 2 * INR 3)) (Fin 750) = true).
    apply Rleb_true. simpl INR. lra.
Defined.

(** ** A speed that is not a number *)

Section LostSets.
Local Open Scope num_scope.
Variable Math_random : nat -> R.
Variable best_frames : list OrbitParams.t.
Variable defaults : Defaults.t.
Variable hsvToHsl : option number -> number -> number -> HSL.
Variable srt :
  (ParticleSet -> ParticleSet -> number) ->
  list ParticleSet -> list ParticleSet.
Hypothesis srt_contract : sortContract srt.

Lemma renderSet_lost (h : Hopalong) (ps : ParticleSet) :
  position_z (particles ps) = NaN \/ speed h = NaN ->
  position_z (particles (renderSet defaults hsvToHsl h ps)) = NaN
  /\ params (renderSet defaults hsvToHsl h ps) = params ps.
Proof.
  intros Hlost.
  assert (Hz : position_z (particles ps) + speed h = NaN).
  { destruct Hlost as [-> | ->]; [apply add_NaN_l | apply add_NaN_r]. }
  unfold renderSet. rewrite Hz, gt_NaN_l. split; reflexivity.
Qed.

Lemma render_lost (h : Hopalong) :
  lostSets h \/ speed h = NaN ->
  lostSets (render defaults hsvToHsl h)
  /\ map params (particleSets (render defaults hsvToHsl h))
     = map params (particleSets h).
Proof.
  intros Hlost. unfold lostSets. rewrite render_sets. split.
  - apply Forall_map. apply Forall_forall. intros ps Hps.
    apply renderSet_lost.
    destruct Hlost as [Hall | Hs]; [left | right; exact Hs].
    unfold lostSets in Hall. rewrite Forall_forall in Hall. auto.
  - rewrite map_map. apply map_ext_in. intros ps Hps.
    apply renderSet_lost.
    destruct Hlost as [Hall | Hs]; [left | right; exact Hs].
    unfold lostSets in Hall. rewrite Forall_forall in Hall. auto.
Qed.

Lemma lost_same (h h' : Hopalong) :
  particleSets h' = particleSets h ->
  lostSets h ->
  lostSets h'
  /\ Permutation (map params (particleSets h')) (map params (particleSets h)).
Proof.
  unfold lostSets. intros -> H. split; [exact H | apply Permutation_refl].
Qed.

Lemma perform_lost (a : action) (h : Hopalong) :
  lostSets h ->
  lostSets (perform Math_random best_frames defaults hsvToHsl srt a h)
  /\ Permutation
       (map params
          (particleSets
             (perform Math_random best_frames defaults hsvToHsl srt a h)))
       (map params (particleSets h)).
Proof.
  intros Hlost.
  destruct a as [| now | delta | delta | s | | locked | | fov | | x y];
    cbn [perform]; try (apply lost_same; [reflexivity | exact Hlost]).
  - destruct (render_lost h (or_introl Hlost)) as [H1 H2].
    split; [exact H1 |]. rewrite H2. apply Permutation_refl.
  - destruct (updateOrbit_cases Math_random best_frames now h)
      as [(hg & Hgen & ->) | (c & ->)];
      [| apply lost_same; [reflexivity | exact Hlost]].
    destruct (generateOrbit_frame Math_random best_frames now h hg Hgen)
      as (_ & _ & _ & _ & Gs).
    injection Gs as _ Gp _.
    cbn [state_of]. unfold lostSets.
    change (particleSets
              (set_particleSets
                 (map flag (particleSets (generateHues Math_random hg)))
                 (generateHues Math_random hg)))
      with (map flag (particleSets hg)).
    rewrite Gp. split.
    + apply Forall_map. exact Hlost.
    + rewrite map_map. apply Permutation_refl.
  - unfold changeSpeed. destruct (speed h + delta >=? Fin 0);
      (apply lost_same; [reflexivity | exact Hlost]).
  - destruct s as [[v |] [r |] [l |] [f |]];
      (apply lost_same; [reflexivity | exact Hlost]).
  - destruct locked; (apply lost_same; [reflexivity | exact Hlost]).
  - rewrite getCurrentOrbitParams_state.
    destruct (srt_contract compareSets (particleSets h)) as [Hperm _].
    unfold lostSets.
    change (particleSets
              (set_particleSets (srt compareSets (particleSets h)) h))
      with (srt compareSets (particleSets h)).
    split.
    + unfold lostSets in Hlost. rewrite Forall_forall in *.
      intros ps Hps. apply Hlost.
      apply (Permutation_in _ (Permutation_sym Hperm)). exact Hps.
    + apply Permutation_sym. apply Permutation_map. exact Hperm.
Qed.

(** X12.  One frame with a speed of [NaN] (which [applySettings] accepts)
    makes the depth of every particle set [NaN], and nothing brings a set
    back: after any further calls, whatever they set the speed to, every
    depth is still [NaN], so no set crosses the camera again, and the
    parameters the sets carry are those they carried before that frame. *)
Theorem NaN_speed_loses_the_sets :
  forall (l : list action) (h : Hopalong),
    speed h = NaN ->
    lostSets
      (performAll Math_random best_frames defaults hsvToHsl srt l
         (render defaults hsvToHsl h))
    /\ Permutation
         (map params
            (particleSets
               (performAll Math_random best_frames defaults hsvToHsl srt l
                  (render defaults hsvToHsl h))))
         (map params (particleSets h))
    /\ Forall
         (fun ps =>
            forall h' : Hopalong,
              crosses h' (renderSet defaults hsvToHsl h' ps) = false
              /\ crosses h' ps = false)
         (particleSets
            (performAll Math_random best_frames defaults hsvToHsl srt l
               (render defaults hsvToHsl h))).
Proof.
  intros l h Hs.
  destruct (render_lost h (or_intror Hs)) as [Hlost Hpar].
  rewrite <- Hpar. clear Hpar Hs.
  generalize dependent (render defaults hsvToHsl h). clear h.
  assert (Hrun : forall (l : list action) (h : Hopalong),
             lostSets h ->
             lostSets
               (performAll Math_random best_frames defaults hsvToHsl srt l h)
             /\ Permutation
                  (map params
                     (particleSets
                        (performAll Math_random best_frames defaults hsvToHsl
                           srt l h)))
                  (map params (particleSets h))).
  { clear l. induction l as [| a l IH]; intros h Hlost; cbn [performAll].
    - split; [exact Hlost | apply Permutation_refl].
    - destruct (perform_lost a h Hlost) as [H1 H2].
      destruct (IH _ H1) as [H3 H4].
      split; [exact H3 |]. eapply Permutation_trans; eassumption. }
  intros h Hlost. destruct (Hrun l h Hlost) as [H1 H2].
  split; [exact H1 |]. split; [exact H2 |].
  eapply Forall_impl; [| exact H1].
  intros ps Hz h'. cbv beta in Hz. unfold crosses.
  destruct (renderSet_lost h' ps (or_introl Hz)) as [-> _].
  rewrite Hz, add_NaN_l, gt_NaN_l. split; reflexivity.
Qed.

End LostSets.

Lemma NaN_speed_loses_the_sets_witness :
  lostSets
    (performAll halves agedCatalog someDefaults plainHsl insertionSort
       [ChangeSpeed (Fin 1); Render; UpdateOrbit (Fin 2); Render]
       (render someDefaults plainHsl (set_speed NaN fittedState))).
Proof.
  apply (NaN_speed_loses_the_sets halves agedCatalog someDefaults plainHsl
           insertionSort insertionSort_contract
           [ChangeSpeed (Fin 1); Render; UpdateOrbit (Fin 2); Render]
           (set_speed NaN fittedState)).
  reflexivity.
Defined.

(** ** The history of the parameters *)

Section HistoryFacts.
Local Open Scope num_scope.
Variable Math_random : nat -> R.
Variable best_frames : list OrbitParams.t.
Variable defaults : Defaults.t.
Variable hsvToHsl : option number -> number -> number -> HSL.
Variable srt :
  (ParticleSet -> ParticleSet -> number) ->
  list ParticleSet -> list ParticleSet.

Lemma perform_history (a : action) (h : Hopalong) :
  (orbitParamHistory
     (perform Math_random best_frames defaults hsvToHsl srt a h)
   = orbitParamHistory h
   /\ orbitParams (perform Math_random best_frames defaults hsvToHsl srt a h)
      = orbitParams h)
  \/ (regenerations [a] = 1%nat
      /\ orbitParamHistory
           (perform Math_random best_frames defaults hsvToHsl srt a h)
         = orbitParamHistory h
             ++ [orbitParams
                   (perform Math_random best_frames defaults hsvToHsl srt
                      a h)]).
Proof.
  destruct a as [| now | delta | delta | s | | locked | | fov | | x y];
    cbn [perform]; try (left; split; reflexivity).
  - destruct (updateOrbit_cases Math_random best_frames now h)
      as [(hg & Hgen & ->) | (c & ->)]; [| left; split; reflexivity].
    destruct (generateOrbit_frame Math_random best_frames now h hg Hgen)
      as (_ & _ & Hh & _).
    right. split; [reflexivity |]. exact Hh.
  - left. unfold changeSpeed.
    destruct (speed h + delta >=? Fin 0); split; reflexivity.
  - left. destruct s as [[v |] [r |] [l |] [f |]]; split; reflexivity.
  - left. destruct locked; split; reflexivity.
  - left. rewrite getCurrentOrbitParams_state. split; reflexivity.
Qed.

(** X13.  The history only grows, by at most one entry per regeneration,
    and nothing but a regeneration touches it or the current parameters.
    Once the current parameters are the last entry of the history (as they
    are when the constructor returns) they are so after every call. *)
Theorem history_only_grows :
  forall (l : list action) (h : Hopalong),
    (exists later,
        orbitParamHistory
          (performAll Math_random best_frames defaults hsvToHsl srt l h)
        = orbitParamHistory h ++ later
        /\ (length later <= regenerations l)%nat)
    /\ (regenerations l = 0%nat ->
        orbitParams
          (performAll Math_random best_frames defaults hsvToHsl srt l h)
        = orbitParams h)
    /\ (historyCurrent h ->
        historyCurrent
          (performAll Math_random best_frames defaults hsvToHsl srt l h)).
Proof.
  induction l as [| a l IH]; intros h; cbn [performAll].
  - split;
      [exists []; rewrite app_nil_r; split;
       [reflexivity | apply Nat.le_0_l] |].
    split; auto.
  - destruct (IH (perform Math_random best_frames defaults hsvToHsl srt a h))
      as ((later & Hl & Hn) & Hsame & Hcur).
    assert (Hcount : regenerations (a :: l)
                     = (regenerations [a] + regenerations l)%nat).
    { unfold regenerations. cbn [filter].
      destruct a; cbn [length]; reflexivity. }
    destruct (perform_history a h) as [[Hh Hp] | [Hone Hh]].
    + split; [| split].
      * exists later. rewrite Hl, Hh. split; [reflexivity | lia].
      * intros Hz. rewrite Hsame by lia. exact Hp.
      * intros (earlier & He). apply Hcur. exists earlier.
        rewrite Hh, Hp. exact He.
    + split; [| split].
      * eexists. rewrite Hl, Hh, <- app_assoc. split; [reflexivity |].
        cbn [app length]. lia.
      * intros Hz. lia.
      * intros _. apply Hcur. eexists. exact Hh.
Qed.

End HistoryFacts.

(** ** The events of the page *)

Section EventFacts.
Local Open Scope num_scope.
Variable defaults : Defaults.t.
Variable hsvToHsl : option number -> number -> number -> HSL.
Variable toUpperCase : String.string -> String.string.

(** What a key press does to the object, whatever the key. *)
Lemma onKeyDown_cases (key : String.string) (p : Page) :
  onKeyDown defaults toUpperCase key p = p
  \/ onKeyDown defaults toUpperCase key p = toggleHideCursor p
  \/ exists f,
       onKeyDown defaults toUpperCase key p = onHopalong f p
       /\ (f = changeSpeed speedDelta
           \/ f = changeSpeed (- speedDelta)
           \/ f = changeRotationSpeed rotationSpeedDelta
           \/ f = changeRotationSpeed (- rotationSpeedDelta)
           \/ f = resetDefaults defaults
           \/ f = setMouseLock None
           \/ f = recenterCamera).
Proof.
  unfold onKeyDown.
  repeat match goal with
         | |- context [if ?c then _ else _] => destruct c
         end;
    try (left; reflexivity);
    try (right; left; reflexivity);
    right; right; eexists; (split; [reflexivity |]); tauto.
Qed.

Lemma changeSpeed_frame (delta : number) (h : Hopalong) :
  (speed (changeSpeed delta h) >=? Fin 0) = true
  /\ (orbit (changeSpeed delta h), particleSets (changeSpeed delta h),
      camera (changeSpeed delta h), mouseLocked (changeSpeed delta h))
     = (orbit h, particleSets h, camera h, mouseLocked h)
  /\ (orbitParams (changeSpeed delta h),
      orbitParamHistory (changeSpeed delta h),
      currentFrame (changeSpeed delta h), hueValues (changeSpeed delta h))
     = (orbitParams h, orbitParamHistory h, currentFrame h, hueValues h).
Proof.
  split; [apply changeSpeed_clamps |].
  unfold changeSpeed. destruct (speed h + delta >=? Fin 0); split; reflexivity.
Qed.

Lemma handle_speed (e : event) (p : Page) :
  (Defaults.speed defaults >=? Fin 0) = true ->
  (speed (hopalong p) >=? Fin 0) = true ->
  (speed (hopalong (handle defaults hsvToHsl toUpperCase e p)) >=? Fin 0)
  = true.
Proof.
  intros Hd Hs.
  destruct e as [x y | touches | w ht | key | |]; cbn [handle].
  - unfold onDocumentMouseMove.
    destruct (mouseLocked (hopalong p)); exact Hs.
  - unfold onDocumentTouch.
    destruct (mouseLocked (hopalong p)); [exact Hs |].
    destruct touches as [| [tx ty] [| t2 rest]]; exact Hs.
  - exact Hs.
  - destruct (onKeyDown_cases key p)
      as [-> | [-> | (f & -> & Hf)]]; [exact Hs | exact Hs |].
    cbn [onHopalong hopalong].
    destruct Hf as [-> | [-> | [-> | [-> | [-> | [-> | ->]]]]]];
      try exact Hs; try apply changeSpeed_clamps.
    exact Hd.
  - unfold animate. destruct (destroyed p); exact Hs.
  - exact Hs.
Qed.

Lemma handle_data (e : event) (p : Page) :
  (orbit (hopalong (handle defaults hsvToHsl toUpperCase e p)),
   orbitParams (hopalong (handle defaults hsvToHsl toUpperCase e p)),
   orbitParamHistory (hopalong (handle defaults hsvToHsl toUpperCase e p)),
   currentFrame (hopalong (handle defaults hsvToHsl toUpperCase e p)),
   hueValues (hopalong (handle defaults hsvToHsl toUpperCase e p)))
  = (orbit (hopalong p), orbitParams (hopalong p),
     orbitParamHistory (hopalong p), currentFrame (hopalong p),
     hueValues (hopalong p)).
Proof.
  destruct e as [x y | touches | w ht | key | |]; cbn [handle].
  - unfold onDocumentMouseMove.
    destruct (mouseLocked (hopalong p)); reflexivity.
  - unfold onDocumentTouch.
    destruct (mouseLocked (hopalong p)); [reflexivity |].
    destruct touches as [| [tx ty] [| t2 rest]]; reflexivity.
  - reflexivity.
  - destruct (onKeyDown_cases key p)
      as [-> | [-> | (f & -> & Hf)]]; [reflexivity | reflexivity |].
    cbn [onHopalong hopalong].
    destruct Hf as [-> | [-> | [-> | [-> | [-> | [-> | ->]]]]]];
      try reflexivity;
      unfold changeSpeed;
      match goal with
      | |- context [if ?c then _ else _] => destruct c
      end; reflexivity.
  - unfold animate. destruct (destroyed p); reflexivity.
  - reflexivity.
Qed.

(** X14.  The keys and the pointer cannot make the speed negative: when
    the default speed is not negative, a speed that is not negative (and
    not [NaN]) is so after any sequence of events of the page.  No event
    touches the orbit, the parameters, their history, the cursor of the
    catalog or the hues. *)
Theorem events_keep_speed_nonnegative :
  forall (l : list event) (p : Page),
    (Defaults.speed defaults >=? Fin 0) = true ->
    (speed (hopalong p) >=? Fin 0) = true ->
    (speed (hopalong (handleAll defaults hsvToHsl toUpperCase l p))
     >=? Fin 0) = true
    /\ (orbit (hopalong (handleAll defaults hsvToHsl toUpperCase l p)),
        orbitParams (hopalong (handleAll defaults hsvToHsl toUpperCase l p)),
        orbitParamHistory
          (hopalong (handleAll defaults hsvToHsl toUpperCase l p)),
        currentFrame (hopalong (handleAll defaults hsvToHsl toUpperCase l p)),
        hueValues (hopalong (handleAll defaults hsvToHsl toUpperCase l p)))
       = (orbit (hopalong p), orbitParams (hopalong p),
          orbitParamHistory (hopalong p), currentFrame (hopalong p),
          hueValues (hopalong p)).
Proof.
  induction l as [| e l IH]; intros p Hd Hs; cbn [handleAll].
  - split; [exact Hs | reflexivity].
  - destruct (IH (handle defaults hsvToHsl toUpperCase e p) Hd
                (handle_speed e p Hd Hs)) as [H1 H2].
    split; [exact H1 |]. rewrite H2. apply handle_data.
Qed.

End EventFacts.

Lemma events_keep_speed_nonnegative_witness :
  (speed
     (hopalong
        (handleAll someDefaults plainHsl upperCase
           [KeyDown "s"%str; KeyDown "ArrowDown"%str; AnimationFrame;
            KeyDown "r"%str; MouseMove (Fin 10) (Fin 20)]
           (pageOf fittedState)))
   >=? Fin 0)%num = true.
Proof.
  apply (events_keep_speed_nonnegative someDefaults plainHsl upperCase
           [KeyDown "s"%str; KeyDown "ArrowDown"%str; AnimationFrame;
            KeyDown "r"%str; MouseMove (Fin 10) (Fin 20)]
           (pageOf fittedState)).
  - apply Rleb_true. lra.
  - apply Rleb_true. lra.
Defined.

Section PointerFacts.
Local Open Scope num_scope.
Variable defaults : Defaults.t.
Variable hsvToHsl : option number -> number -> number -> HSL.
Variable toUpperCase : String.string -> String.string.

Lemma handle_locked (e : event) (p : Page) :
  notKey e = true ->
  mouseLocked (hopalong p) = true ->
  (mouseX (hopalong (handle defaults hsvToHsl toUpperCase e p)),
   mouseY (hopalong (handle defaults hsvToHsl toUpperCase e p)),
   mouseLocked (hopalong (handle defaults hsvToHsl toUpperCase e p)))
  = (mouseX (hopalong p), mouseY (hopalong p), true)
  /\ (camera_x (camera (hopalong p)) = Fin 0 ->
      camera_y (camera (hopalong p)) = Fin 0 ->
      mouseX (hopalong p) = Fin 0 ->
      mouseY (hopalong p) = Fin 0 ->
      camera_x
        (camera (hopalong (handle defaults hsvToHsl toUpperCase e p)))
      = Fin 0
      /\ camera_y
           (camera (hopalong (handle defaults hsvToHsl toUpperCase e p)))
         = Fin 0).
Proof.
  intros Hk Hl.
  destruct e as [x y | touches | w ht | key | |]; cbn [handle];
    try discriminate.
  - unfold onDocumentMouseMove. rewrite Hl. rewrite Hl. auto.
  - unfold onDocumentTouch. rewrite Hl. rewrite Hl. auto.
  - cbn [onWindowResize hopalong]. rewrite Hl. auto.
  - unfold animate. destruct (destroyed p); [rewrite Hl; auto |].
    cbn [onHopalong hopalong].
    change (mouseX (render defaults hsvToHsl (hopalong p)))
      with (mouseX (hopalong p)).
    change (mouseY (render defaults hsvToHsl (hopalong p)))
      with (mouseY (hopalong p)).
    change (mouseLocked (render defaults hsvToHsl (hopalong p)))
      with (mouseLocked (hopalong p)).
    rewrite Hl. split; [reflexivity |].
    intros Hx Hy Hmx Hmy.
    change (camera (render defaults hsvToHsl (hopalong p)))
      with (moveCamera (hopalong p)).
    unfold moveCamera. cbn [camera_x camera_y].
    rewrite Hx, Hy, Hmx, Hmy.
    destruct ease_rest as [-> ->]. split; reflexivity.
  - cbn [destroy hopalong]. rewrite Hl. auto.
Qed.

(** X15.  A locked pointer is ignored.  While the lock is on and no key is
    pressed, no mouse move, touch, resize, frame or [destroy] changes the
    pointer's place or the lock; a camera that is at the centre with the
    pointer at the centre stays at the centre. *)
Theorem locked_pointer_is_ignored :
  forall (l : list event) (p : Page),
    forallb notKey l = true ->
    mouseLocked (hopalong p) = true ->
    (mouseX (hopalong (handleAll defaults hsvToHsl toUpperCase l p)),
     mouseY (hopalong (handleAll defaults hsvToHsl toUpperCase l p)),
     mouseLocked (hopalong (handleAll defaults hsvToHsl toUpperCase l p)))
    = (mouseX (hopalong p), mouseY (hopalong p), true)
    /\ (camera_x (camera (hopalong p)) = Fin 0 ->
        camera_y (camera (hopalong p)) = Fin 0 ->
        mouseX (hopalong p) = Fin 0 ->
        mouseY (hopalong p) = Fin 0 ->
        camera_x
          (camera (hopalong (handleAll defaults hsvToHsl toUpperCase l p)))
        = Fin 0
        /\ camera_y
             (camera
                (hopalong (handleAll defaults hsvToHsl toUpperCase l p)))
           = Fin 0).
Proof.
  induction l as [| e l IH]; intros p Hkeys Hl; cbn [handleAll].
  - rewrite Hl. auto.
  - cbn [forallb] in Hkeys. apply andb_prop in Hkeys.
    destruct Hkeys as [Hk Hkeys].
    destruct (handle_locked e p Hk Hl) as [Hptr Hcam].
    injection Hptr as Hmx Hmy Hml.
    destruct (IH (handle defaults hsvToHsl toUpperCase e p) Hkeys Hml)
      as [H1 H2].
    split.
    + rewrite H1, Hmx, Hmy. reflexivity.
    + intros Hx Hy Hx0 Hy0.
      destruct (Hcam Hx Hy Hx0 Hy0) as [Hx' Hy'].
      apply H2; congruence.
Qed.

(** X16.  [recenterCamera] puts the camera and the pointer at the centre
    and toggles the lock: it locks a free pointer and frees a locked one.
    After recentering a locked pointer the next mouse move is followed
    again; after recentering a free one it is ignored. *)
Theorem recenterCamera_toggles_lock :
  forall (p : Page) (clientX clientY : number),
    camera (hopalong (onHopalong recenterCamera p))
    = Build_Camera (Fin 0) (Fin 0) (camera_z (camera (hopalong p)))
        (camera_fov (camera (hopalong p)))
    /\ (mouseX (hopalong (onHopalong recenterCamera p)),
        mouseY (hopalong (onHopalong recenterCamera p)))
       = (Fin 0, Fin 0)
    /\ mouseLocked (hopalong (onHopalong recenterCamera p))
       = negb (mouseLocked (hopalong p))
    /\ (mouseLocked (hopalong p) = true ->
        mouseX
          (hopalong
             (onDocumentMouseMove clientX clientY
                (onHopalong recenterCamera p)))
        = clientX - windowHalfX p
        /\ mouseY
             (hopalong
                (onDocumentMouseMove clientX clientY
                   (onHopalong recenterCamera p)))
           = clientY - windowHalfY p)
    /\ (mouseLocked (hopalong p) = false ->
        onDocumentMouseMove clientX clientY (onHopalong recenterCamera p)
        = onHopalong recenterCamera p).
Proof.
  intros p x y.
  split; [reflexivity |]. split; [reflexivity |]. split; [reflexivity |].
  split; intros Hl; unfold onDocumentMouseMove;
    change (mouseLocked (hopalong (onHopalong recenterCamera p)))
      with (negb (mouseLocked (hopalong p)));
    rewrite Hl; cbn [negb]; [split |]; reflexivity.
Qed.

Lemma handle_destroyed (e : event) (p : Page) :
  destroyed p = true ->
  destroyed (handle defaults hsvToHsl toUpperCase e p) = true
  /\ particleSets (hopalong (handle defaults hsvToHsl toUpperCase e p))
     = particleSets (hopalong p).
Proof.
  intros Hd.
  destruct e as [x y | touches | w ht | key | |]; cbn [handle].
  - unfold onDocumentMouseMove.
    destruct (mouseLocked (hopalong p)); auto.
  - unfold onDocumentTouch.
    destruct (mouseLocked (hopalong p)); [auto |].
    destruct touches as [| [tx ty] [| t2 rest]]; auto.
  - auto.
  - destruct (onKeyDown_cases defaults toUpperCase key p)
      as [-> | [-> | (f & -> & Hf)]]; [auto | auto |].
    cbn [onHopalong hopalong destroyed]. split; [exact Hd |].
    destruct Hf as [-> | [-> | [-> | [-> | [-> | [-> | ->]]]]]];
      try reflexivity;
      unfold changeSpeed;
      match goal with
      | |- context [if ?c then _ else _] => destruct c
      end; reflexivity.
  - unfold animate. rewrite Hd. auto.
  - auto.
Qed.

(** X17.  After [destroy] no frame is rendered any more: whatever events
    follow, the object stays destroyed and no particle set moves or
    changes.  The listeners are not removed, though: a key press still
    changes the speed of the destroyed object. *)
Theorem destroy_stops_the_frames :
  forall (l : list event) (p : Page),
    destroyed (handleAll defaults hsvToHsl toUpperCase l (destroy p)) = true
    /\ particleSets
         (hopalong (handleAll defaults hsvToHsl toUpperCase l (destroy p)))
       = particleSets (hopalong p)
    /\ animate defaults hsvToHsl (destroy p) = destroy p
    /\ hopalong
         (handle defaults hsvToHsl toUpperCase (KeyDown "ArrowUp"%str)
            (destroy p))
       = changeSpeed speedDelta (hopalong p).
Proof.
  intros l p.
  assert (Hrun : forall (l : list event) (q : Page),
             destroyed q = true ->
             destroyed (handleAll defaults hsvToHsl toUpperCase l q) = true
             /\ particleSets
                  (hopalong (handleAll defaults hsvToHsl toUpperCase l q))
                = particleSets (hopalong q)).
  { clear. induction l as [| e l IH]; intros q Hd; cbn [handleAll].
    - auto.
    - destruct (handle_destroyed e q Hd) as [H1 H2].
      destruct (IH _ H1) as [H3 H4].
      split; [exact H3 |]. rewrite H4. exact H2. }
  destruct (Hrun l (destroy p) eq_refl) as [H1 H2].
  split; [exact H1 |]. split; [exact H2 |]. split; reflexivity.
Qed.

End PointerFacts.

Lemma locked_pointer_is_ignored_witness :
  (mouseX
     (hopalong
        (handleAll someDefaults plainHsl upperCase
           [MouseMove (Fin 10) (Fin 20); AnimationFrame;
            TouchMove [(Fin 5, Fin 6)]; Resize (Fin 640) (Fin 480)]
           (pageOf (set_mouseLocked true fittedState)))),
   mouseY
     (hopalong
        (handleAll someDefaults plainHsl upperCase
           [MouseMove (Fin 10) (Fin 20); AnimationFrame;
            TouchMove [(Fin 5, Fin 6)]; Resize (Fin 640) (Fin 480)]
           (pageOf (set_mouseLocked true fittedState)))),
   mouseLocked
     (hopalong
        (handleAll someDefaults plainHsl upperCase
           [MouseMove (Fin 10) (Fin 20); AnimationFrame;
            TouchMove [(Fin 5, Fin 6)]; Resize (Fin 640) (Fin 480)]
           (pageOf (set_mouseLocked true fittedState)))))
  = (mouseX (hopalong (pageOf (set_mouseLocked true fittedState))),
     mouseY (hopalong (pageOf (set_mouseLocked true fittedState))),
     true).
Proof.
  apply (locked_pointer_is_ignored someDefaults plainHsl upperCase
           [MouseMove (Fin 10) (Fin 20); AnimationFrame;
            TouchMove [(Fin 5, Fin 6)]; Resize (Fin 640) (Fin 480)]
           (pageOf (set_mouseLocked true fittedState)));
    reflexivity.
Defined.

(** ** The settings snapshot *)

Section SnapshotFacts.
Local Open Scope num_scope.

Lemma set_camera_same (h : Hopalong) :
  set_camera
    (Build_Camera (camera_x (camera h)) (camera_y (camera h))
       (camera_z (camera h)) (camera_fov (camera h))) h
  = h.
Proof. destruct h as [? ? ? ? ? ? ? ? ? ? ? ? ? ? ? [? ? ? ?] ?]. reflexivity. Qed.

(** X19.  The snapshot of [getSettings] can be handed back to
    [applySettings]: on the object it was taken from this changes nothing;
    on any other object it installs the speed, the rotation speed, the
    pointer lock and the field of view of the snapshot and nothing else.
    The mode of the snapshot is not applied: no settings change the mode.
    A patch without fields changes nothing. *)
Theorem settings_round_trip :
  forall h h' : Hopalong,
    applySettings (asPatch (getSettings h)) h = h
    /\ getSettings (applySettings (asPatch (getSettings h)) h')
       = SimpleSettings.mk (speed h) (rotationSpeed h) (mouseLocked h)
           (camera_fov (camera h)) (vibeCheck h')
    /\ (forall s : SettingsPatch,
           vibeCheck (applySettings s h') = vibeCheck h'
           /\ (orbit (applySettings s h'), particleSets (applySettings s h'),
               orbitParams (applySettings s h'),
               orbitParamHistory (applySettings s h'),
               currentFrame (applySettings s h'))
              = (orbit h', particleSets h', orbitParams h',
                 orbitParamHistory h', currentFrame h')
           /\ (camera_x (camera (applySettings s h')),
               camera_y (camera (applySettings s h')),
               camera_z (camera (applySettings s h')))
              = (camera_x (camera h'), camera_y (camera h'),
                 camera_z (camera h')))
    /\ applySettings (Build_SettingsPatch None None None None) h' = h'.
Proof.
  intros h h'. split; [| split; [| split]].
  - destruct h as [? ? ? ? ? ? ? ? ? ? ? ? ? ? ? [? ? ? ?] ?]. reflexivity.
  - reflexivity.
  - intros [[v |] [r |] [l |] [f |]]; repeat split.
  - reflexivity.
Qed.

End SnapshotFacts.

(** ** The ratings and the toolbar of the page *)

Section RatingFacts.
Local Open Scope num_scope.
Variable srt :
  (ParticleSet -> ParticleSet -> number) ->
  list ParticleSet -> list ParticleSet.
Hypothesis srt_contract : sortContract srt.

(** X20.  A rating is recorded with the parameters that the query returns,
    at the end of the array and without a check of the rating.  When there
    are particle sets the parameters are those of one of them, of one that
    no other set is older than when all creation times are truthy, and the
    call leaves the particle sets reordered.  When there is no particle
    set the query throws and nothing is recorded. *)
Theorem addRating_records :
  forall (rating : number) (ratings : list Rating.t) (h : Hopalong),
    (particleSets h = [] ->
     addRating srt rating ratings h
     = (ratings, TypeError (set_particleSets [] h)))
    /\ (particleSets h <> [] ->
        exists ps h',
          addRating srt rating ratings h
          = (ratings ++ [Rating.mk rating (params ps)], Return tt h')
          /\ In ps (particleSets h)
          /\ h' = set_particleSets (srt compareSets (particleSets h)) h
          /\ Permutation (particleSets h) (particleSets h')
          /\ (truthyTimes h ->
              forall q, In q (particleSets h) ->
                timeLt (OrbitParams.timeCreated (params q))
                  (OrbitParams.timeCreated (params ps)) = false)).
Proof.
  intros rating ratings h.
  destruct (srt_contract compareSets (particleSets h)) as [Hperm _].
  unfold addRating, getCurrentOrbitParams. cbv zeta. split.
  - intros Hnil. rewrite Hnil in Hperm |- *.
    apply Permutation_nil in Hperm. rewrite Hperm. reflexivity.
  - intros Hne.
    destruct (exists_last (l := srt compareSets (particleSets h)))
      as (front & x & Heq).
    { intros Hnil. rewrite Hnil in Hperm.
      apply Permutation_sym, Permutation_nil in Hperm. contradiction. }
    exists x, (set_particleSets (srt compareSets (particleSets h)) h).
    split.
    { pose proof (last_index front x) as Hlast. rewrite <- Heq in Hlast.
      rewrite Hlast. reflexivity. }
    split.
    { apply (Permutation_in _ (Permutation_sym Hperm)).
      rewrite Heq. apply in_or_app. right. left. reflexivity. }
    split; [reflexivity |]. split; [exact Hperm |].
    intros Htimes q Hq.
    destruct (sorted_sets_end srt (particleSets h) srt_contract Hne Htimes)
      as (front' & x' & Heq' & _ & Hmin).
    rewrite Heq in Heq'. apply app_inj_tail in Heq'.
    destruct Heq' as [_ ->]. apply Hmin. exact Hq.
Qed.

End RatingFacts.

Lemma addRating_records_witness :
  (particleSets ascendingState = [] ->
   addRating insertionSort (Fin 5) [] ascendingState
   = ([], TypeError (set_particleSets [] ascendingState)))
  /\ (particleSets ascendingState <> [] ->
      exists ps h',
        addRating insertionSort (Fin 5) [] ascendingState
        = ([] ++ [Rating.mk (Fin 5) (params ps)], Return tt h')
        /\ In ps (particleSets ascendingState)
        /\ h'
           = set_particleSets
               (insertionSort compareSets (particleSets ascendingState))
               ascendingState
        /\ Permutation (particleSets ascendingState) (particleSets h')
        /\ (truthyTimes ascendingState ->
            forall q, In q (particleSets ascendingState) ->
              timeLt (OrbitParams.timeCreated (params q))
                (OrbitParams.timeCreated (params ps)) = false)).
Proof.
  apply (addRating_records insertionSort insertionSort_contract (Fin 5) []
           ascendingState).
Defined.

Section ToolbarFacts.

Lemma appRun_app (l1 l2 : list appEvent) (a : AppState) :
  appRun (l1 ++ l2) a = appRun l2 (appRun l1 a).
Proof.
  revert a. induction l1 as [| e l1 IH]; intros a; [reflexivity |].
  cbn [app appRun]. apply IH.
Qed.

Lemma appStep_visible (e : appEvent) (a : AppState) :
  toolbarVisible a = true -> toolbarVisible (appStep e a) = true.
Proof. intros H. destruct e; cbn; auto. Qed.

(** X21.  The toolbar is never hidden.  It is visible at the start, and
    the callback of the timer that should hide it, [hideToolbar], sets it
    visible, as [showToolbar] does: after any sequence of pointer moves,
    timer callbacks and toggles of the menu and of the statistics the
    toolbar is visible and is animated to opacity 1; and [hideToolbar]
    makes even a hidden toolbar visible. *)
Theorem toolbar_never_hidden :
  forall (l : list appEvent) (a : AppState),
    toolbarVisible (appRun l initialApp) = true
    /\ toolbarOpacity (appRun l initialApp) = 1%nat
    /\ toolbarVisible (appStep HideToolbar a) = true
    /\ toolbarVisible (appRun (l ++ [HideToolbar]) a) = true.
Proof.
  intros l a.
  assert (Hrun : forall (l : list appEvent) (a : AppState),
             toolbarVisible a = true -> toolbarVisible (appRun l a) = true).
  { clear. induction l as [| e l IH]; intros a Ha; [exact Ha |].
    cbn [appRun]. apply IH, appStep_visible, Ha. }
  split; [apply Hrun; reflexivity |].
  split; [unfold toolbarOpacity; rewrite Hrun; reflexivity |].
  split; [reflexivity |].
  rewrite appRun_app. reflexivity.
Qed.

End ToolbarFacts.

(** ** How long a repaint takes *)

Section RepaintCompletes.
Local Open Scope num_scope.
Variable defaults : Defaults.t.
Variable hsvToHsl : option number -> number -> number -> HSL.






End RepaintCompletes.


(** ** A session: construction, regeneration, 75 frames, query *)

Section Session.
Local Open Scope num_scope.















End Session.


